(** * ghii-engine-zod: the Zod validation engine for Ghii

    A shallow embedding of [src/ghiiEngineZod.ts] together with the parts of
    ECMAScript it runs on ([Array.prototype.join], [JSON.stringify]), and the
    properties of the adapter stated in the specification.

    Layout:
    - [JS]: completions (normal return or throw), numbers and
      [Number::toString], property keys, [ToString],
      [Array.prototype.join], [Array.prototype.map].
    - [JSON]: strings of UTF-16 code units, the values [JSON.stringify]
      is given, [JSON.stringify] with its [space] argument, and a reader
      for JSON text used to compare what two texts denote.
    - [zod]: the interface of the validation library the adapter calls.
    - [Engine]: [zodEngine] itself, over any library whose calls leave the
      world alone, and any outside world.
    - [Effectful]: [zodEngine] over a library whose calls act on the
      world: schema callbacks, the metadata registry.
    - [MiniZod]: a small library instance used to run the adapter on concrete
      inputs.
    - The theorems, one per numbered claim of the specification. *)

From Stdlib Require Import String Ascii List ZArith NArith Bool Lia.
From Stdlib Require Import DecimalString DecimalN DecimalFacts.
Import ListNotations.
Local Open Scope list_scope.
Local Open Scope string_scope.

Set Implicit Arguments.

(* ===================================================================== *)
(** * ECMAScript ground *)
(* ===================================================================== *)

Module JS.

(** A thrown value.  [TypeError] is what the language itself throws; any
    other thrown value (a library error, a user error) is [Thrown]. *)
Inductive Exception : Type :=
| TypeError (msg : string)
| Thrown (what : string).

(** The completion of an expression: a value, or an abrupt [throw]. *)
Inductive Completion (A : Type) : Type :=
| Normal (a : A)
| Throw (e : Exception).

Arguments Normal {A} a.
Arguments Throw {A} e.

Definition bind {A B : Type} (c : Completion A) (k : A -> Completion B)
  : Completion B :=
  match c with
  | Normal a => k a
  | Throw e => Throw e
  end.

Definition returns {A : Type} (c : Completion A) : bool :=
  match c with Normal _ => true | Throw _ => false end.

(** [Array.prototype.map]: the callback runs on the elements from left to
    right; the first throw aborts the call. *)
Fixpoint array_map {A B : Type} (f : A -> Completion B) (xs : list A)
  : Completion (list B) :=
  match xs with
  | [] => Normal []
  | x :: xs' =>
      bind (f x) (fun y => bind (array_map f xs') (fun ys => Normal (y :: ys)))
  end.

(** ** Numbers and [Number::toString]

    A number, as far as [Number::toString] tells numbers apart: not a
    number, an infinity, zero (of either sign), or a finite number that is
    not zero.  The last is given as in the definition of
    [Number::toString]: its sign, the digits [s] of its shortest decimal
    and the exponent [n], the value being [s] × 10^([n] − [k]) for [k]
    digits.  So 1.5 is the digits 15 with [n = 1], and 10^21 is the digit 1
    with [n = 22]. *)
Inductive Number : Type :=
| NaN
| Infinity (negative : bool)
| Zero
| Finite (negative : bool) (digits : positive) (n : Z).

(** [Number::toString] on an array index, and on any non-negative integer
    below 10^21: its decimal numeral. *)
Definition NumberToString (n : N) : string :=
  NilZero.string_of_uint (N.to_uint n).

Fixpoint zeros (n : nat) : string :=
  match n with
  | O => ""
  | S n' => String "0" (zeros n')
  end.

Fixpoint take (n : nat) (s : string) : string :=
  match n, s with
  | S n', String c r => String c (take n' r)
  | _, _ => ""
  end.

Fixpoint drop (n : nat) (s : string) : string :=
  match n, s with
  | S n', String _ r => drop n' r
  | _, _ => s
  end.

(** The digits without their trailing zeros: [k] is as small as
    possible. *)
Fixpoint stripZeros (s : string) : string :=
  match s with
  | EmptyString => ""
  | String c r =>
      match stripZeros r with
      | EmptyString => if Ascii.eqb c "0" then "" else String c ""
      | r' => String c r'
      end
  end.

Definition digitsOf (digits : positive) : string :=
  stripZeros (NumberToString (Npos digits)).

(** [e], the sign of the exponent, and its decimal numeral. *)
Definition exponentPart (e : Z) : string :=
  "e" ++ (if (e <? 0)%Z then "-" else "+") ++ NumberToString (Z.abs_N e).

(** [Number::toString] on a positive finite number, case by case: an
    integer up to 21 digits; digits on both sides of the point; a fraction
    with up to six zeros after the point; the exponent form otherwise. *)
Definition FiniteToString (digits : positive) (n : Z) : string :=
  let s := digitsOf digits in
  let k := Z.of_nat (String.length s) in
  if ((k <=? n) && (n <=? 21))%Z then s ++ zeros (Z.to_nat (n - k))
  else if ((0 <? n) && (n <=? 21))%Z
  then take (Z.to_nat n) s ++ "." ++ drop (Z.to_nat n) s
  else if ((-6 <? n) && (n <=? 0))%Z then "0." ++ zeros (Z.to_nat (- n)) ++ s
  else
    match s with
    | String c EmptyString => String c (exponentPart (n - 1))
    | String c r => String c ("." ++ r ++ exponentPart (n - 1))
    | EmptyString => exponentPart (n - 1)
    end.

Definition Number_toString (x : Number) : string :=
  match x with
  | NaN => "NaN"
  | Infinity negative => (if negative then "-" else "") ++ "Infinity"
  | Zero => "0"
  | Finite negative digits n =>
      (if negative then "-" else "") ++ FiniteToString digits n
  end.

(** An integer as a number. *)
Definition ofZ (i : Z) : Number :=
  match i with
  | Z0 => Zero
  | Zpos p =>
      Finite false p (Z.of_nat (String.length (NumberToString (Npos p))))
  | Zneg p =>
      Finite true p (Z.of_nat (String.length (NumberToString (Npos p))))
  end.

Definition Number_eqb (x y : Number) : bool :=
  match x, y with
  | NaN, NaN => true
  | Infinity a, Infinity b => Bool.eqb a b
  | Zero, Zero => true
  | Finite a s n, Finite b t m => Bool.eqb a b && Pos.eqb s t && Z.eqb n m
  | _, _ => false
  end.

(** ** Property keys *)

(** A property key: [string | number | symbol].  [KeyNumber] is an array
    index, or any other non-negative integer below 10^21, whose numeral
    is the plain decimal one; [KeyFloat] is any number at all, such as a
    negative, fractional or very large key of a [Map]. *)
Inductive PropertyKey : Type :=
| KeyString (s : string)
| KeyNumber (n : N)
| KeySymbol (description : string)
| KeyFloat (x : Number).

(** [ToString] on a property key; a Symbol cannot be converted. *)
Definition ToString (k : PropertyKey) : Completion string :=
  match k with
  | KeyString s => Normal s
  | KeyNumber n => Normal (NumberToString n)
  | KeySymbol _ => Throw (TypeError "Cannot convert a Symbol value to a string")
  | KeyFloat x => Normal (Number_toString x)
  end.

(** [Array.prototype.join (sep)]: [R] accumulates the text; the separator
    goes in before every element but the first. *)
Fixpoint join_from (sep : string) (R : string) (k : nat)
  (xs : list PropertyKey) : Completion string :=
  match xs with
  | [] => Normal R
  | element :: xs' =>
      let R := match k with O => R | S _ => R ++ sep end in
      bind (ToString element) (fun S' => join_from sep (R ++ S') (S k) xs')
  end.

Definition join (sep : string) (xs : list PropertyKey) : Completion string :=
  join_from sep "" 0 xs.

Definition isSymbol (k : PropertyKey) : bool :=
  match k with KeySymbol _ => true | _ => false end.

(** The text of a path segment: a string key is its own text, a number is
    what [Number::toString] writes for it; a Symbol has none. *)
Inductive SegmentText : PropertyKey -> string -> Prop :=
| TextOfString (s : string) : SegmentText (KeyString s) s
| TextOfNumber (n : N) : SegmentText (KeyNumber n) (NumberToString n)
| TextOfFloat (x : Number) : SegmentText (KeyFloat x) (Number_toString x).

(** Whether a text holds a dot, and whether the text of a key does. *)
Fixpoint hasDot (s : string) : bool :=
  match s with
  | EmptyString => false
  | String c s' => Ascii.eqb c "." || hasDot s'
  end.

Definition dotFree (key : PropertyKey) : bool :=
  match key with
  | KeyString s => negb (hasDot s)
  | KeyNumber n => negb (hasDot (NumberToString n))
  | KeySymbol _ => true
  | KeyFloat x => negb (hasDot (Number_toString x))
  end.

End JS.

Export JS.

Declare Scope completion_scope.
Delimit Scope completion_scope with completion.
Notation "x <- c ;; k" := (JS.bind c (fun x => k))
  (at level 61, c at next level, right associativity) : completion_scope.

(* ===================================================================== *)
(** * JSON values and [JSON.stringify] *)
(* ===================================================================== *)

Module JSON.

Local Open Scope list_scope.

(** A UTF-16 code unit, as its high and its low byte.  A JavaScript string
    is a sequence of code units. *)
Record CodeUnit : Type := Unit16 { high : ascii; low : ascii }.

Definition Text : Type := list CodeUnit.

(** The code unit of a character below U+0100, and the text of a string of
    such characters. *)
Definition codeUnit (c : ascii) : CodeUnit := Unit16 zero c.

Fixpoint text (s : string) : Text :=
  match s with
  | EmptyString => []
  | String c s' => codeUnit c :: text s'
  end.

Definition isChar (c : ascii) (u : CodeUnit) : bool :=
  Ascii.eqb (high u) zero && Ascii.eqb (low u) c.

Definition isEmpty (s : Text) : bool :=
  match s with [] => true | _ :: _ => false end.

#[local] Unset Elimination Schemes.

(** The values [JSON.stringify] is given, as it sees them.  [JUndefined]
    stands for what it leaves out: [undefined], a function, a symbol.
    Numbers are any numbers; strings and member names are sequences of
    code units; the members of an object are its enumerable string-keyed
    properties, in property enumeration order.  A value with a [toJSON]
    method stands as what the method returns.  [JThrowing] stands for
    what [JSON.stringify] throws on: a BigInt, an object that holds
    itself, an object whose [toJSON] throws. *)
Inductive Json : Type :=
| JUndefined
| JNull
| JBool (b : bool)
| JNumber (x : JS.Number)
| JString (s : Text)
| JArray (elements : list Json)
| JObject (members : list (Text * Json))
| JThrowing (e : JS.Exception).

(** What a JSON text denotes: the tree of its tokens, a number standing as
    its numeral.  [JSON.parse] builds its value from this tree. *)
Inductive Tree : Type :=
| TNull
| TBool (b : bool)
| TNumber (numeral : Text)
| TString (s : Text)
| TArray (elements : list Tree)
| TObject (members : list (Text * Tree)).

#[local] Set Elimination Schemes.

Definition dquote : ascii := "034"%char.
Definition backslash : ascii := "092"%char.
Definition newline : ascii := "010"%char.
Definition space : ascii := " "%char.

Definition isUndefined (value : Json) : bool :=
  match value with JUndefined => true | _ => false end.

(** ** QuoteJSONString *)

Definition hexDigit (n : N) : ascii :=
  if (n <? 10)%N then ascii_of_N (48 + n) else ascii_of_N (87 + n).

Definition hexByte (c : ascii) : Text :=
  let n := N_of_ascii c in
  [codeUnit (hexDigit (n / 16)); codeUnit (hexDigit (n mod 16))].

(** [UnicodeEscape]: a backslash, [u] and four lower-case hexadecimal
    digits. *)
Definition UnicodeEscape (u : CodeUnit) : Text :=
  codeUnit backslash :: codeUnit "u" :: hexByte (high u) ++ hexByte (low u).

(** A code unit that is not a surrogate: the two-character escapes of the
    table, [UnicodeEscape] for the other code units below U+0020, the code
    unit itself otherwise. *)
Definition QuoteUnit (u : CodeUnit) : Text :=
  if Ascii.eqb (high u) zero then
    let n := N_of_ascii (low u) in
    if (n =? 8)%N then [codeUnit backslash; codeUnit "b"]
    else if (n =? 9)%N then [codeUnit backslash; codeUnit "t"]
    else if (n =? 10)%N then [codeUnit backslash; codeUnit "n"]
    else if (n =? 12)%N then [codeUnit backslash; codeUnit "f"]
    else if (n =? 13)%N then [codeUnit backslash; codeUnit "r"]
    else if (n =? 34)%N then [codeUnit backslash; codeUnit dquote]
    else if (n =? 92)%N then [codeUnit backslash; codeUnit backslash]
    else if (n <? 32)%N then UnicodeEscape u
    else [u]
  else [u].

(** U+D800..U+DBFF and U+DC00..U+DFFF. *)
Definition isLeadingSurrogate (u : CodeUnit) : bool :=
  let n := N_of_ascii (high u) in ((216 <=? n) && (n <=? 219))%N.

Definition isTrailingSurrogate (u : CodeUnit) : bool :=
  let n := N_of_ascii (high u) in ((220 <=? n) && (n <=? 223))%N.

(** The code points of the string in turn: a leading surrogate followed by
    a trailing one is one code point, written as it is; a surrogate on its
    own is escaped. *)
Fixpoint QuoteBody (s : Text) : Text :=
  match s with
  | [] => []
  | u :: s' =>
      if isLeadingSurrogate u then
        match s' with
        | v :: s'' =>
            if isTrailingSurrogate v then u :: v :: QuoteBody s''
            else UnicodeEscape u ++ QuoteBody s'
        | [] => UnicodeEscape u
        end
      else if isTrailingSurrogate u then UnicodeEscape u ++ QuoteBody s'
      else QuoteUnit u ++ QuoteBody s'
  end.

Definition QuoteJSONString (s : Text) : Text :=
  codeUnit dquote :: QuoteBody s ++ [codeUnit dquote].

(** ** SerializeJSONProperty, SerializeJSONArray, SerializeJSONObject *)

(** The texts of a list, with a separator between them. *)
Fixpoint concat (sep : Text) (parts : list Text) : Text :=
  match parts with
  | [] => []
  | [x] => x
  | x :: xs => x ++ sep ++ concat sep xs
  end.

(** The last steps shared by [SerializeJSONArray] and
    [SerializeJSONObject]: nothing between the brackets when there is no
    element; elements separated by a comma when the gap is empty; otherwise
    one element per line at the new indentation, the closing bracket on a
    line of its own at the old one. *)
Definition bracket (opening closing : ascii) (gap indent stepback : Text)
  (partial : list Text) : Text :=
  match partial with
  | [] => [codeUnit opening; codeUnit closing]
  | _ :: _ =>
      if isEmpty gap
      then codeUnit opening :: concat [codeUnit ","] partial
             ++ [codeUnit closing]
      else
        let separator := codeUnit "," :: codeUnit newline :: indent in
        codeUnit opening :: codeUnit newline :: indent
          ++ concat separator partial
          ++ codeUnit newline :: stepback ++ [codeUnit closing]
  end.

Definition member (gap : Text) (P : Text) (strP : Text) : Text :=
  QuoteJSONString P ++ codeUnit ":"
    :: (if isEmpty gap then [] else [codeUnit space]) ++ strP.

(** A number that is not finite is written [null]. *)
Definition isFinite (x : JS.Number) : bool :=
  match x with
  | JS.NaN => false
  | JS.Infinity _ => false
  | _ => true
  end.

(** What [JSON.stringify] throws on a value: the exception of the first
    value it cannot write, in the order it goes through the value. *)
Fixpoint thrownBy (value : Json) : option JS.Exception :=
  match value with
  | JThrowing e => Some e
  | JArray elements =>
      (fix first (l : list Json) : option JS.Exception :=
         match l with
         | [] => None
         | element :: l' =>
             match thrownBy element with
             | Some e => Some e
             | None => first l'
             end
         end) elements
  | JObject members =>
      (fix first (l : list (Text * Json)) : option JS.Exception :=
         match l with
         | [] => None
         | m :: l' =>
             match thrownBy (snd m) with
             | Some e => Some e
             | None => first l'
             end
         end) members
  | _ => None
  end.

(** The text of a value on which nothing is thrown.  [None] is
    [undefined]: the value is left out of an object and written [null] in
    an array. *)
Fixpoint SerializeJSONProperty (gap indent : Text) (value : Json)
  {struct value} : option Text :=
  match value with
  | JUndefined => None
  | JNull => Some (text "null")
  | JBool true => Some (text "true")
  | JBool false => Some (text "false")
  | JNumber x =>
      Some (if isFinite x then text (JS.Number_toString x) else text "null")
  | JString s => Some (QuoteJSONString s)
  | JArray elements =>
      let stepback := indent in
      let indent := indent ++ gap in
      Some (bracket "[" "]" gap indent stepback
              (map (fun element =>
                      match SerializeJSONProperty gap indent element with
                      | Some strP => strP
                      | None => text "null"
                      end) elements))
  | JObject members =>
      let stepback := indent in
      let indent := indent ++ gap in
      Some (bracket "{" "}" gap indent stepback
              (flat_map (fun m =>
                           match SerializeJSONProperty gap indent (snd m) with
                           | Some strP => [member gap (fst m) strP]
                           | None => []
                           end) members))
  | JThrowing _ => Some (text "null")      (* never reached: see [stringify] *)
  end.

Definition SerializeJSONObject (gap indent : Text)
  (members : list (Text * Json)) : Text :=
  let stepback := indent in
  let indent := indent ++ gap in
  bracket "{" "}" gap indent stepback
    (flat_map (fun m =>
                 match SerializeJSONProperty gap indent (snd m) with
                 | Some strP => [member gap (fst m) strP]
                 | None => []
                 end) members).

(** The gap of a numeric [space] argument: that many spaces, ten at most. *)
Fixpoint spaces (n : nat) : Text :=
  match n with
  | O => []
  | S n' => codeUnit space :: spaces n'
  end.

Definition gapOf (space : N) : Text := spaces (N.to_nat (N.min 10 space)).

(** A JSON Schema document: the members of its root object. *)
Definition Document : Type := list (Text * Json).

(** [JSON.stringify (value, null, space)]: it throws, or it returns a
    text or [undefined]. *)
Definition stringify (value : Json) (space : N) : Completion (option Text) :=
  match thrownBy value with
  | Some e => Throw e
  | None => Normal (SerializeJSONProperty (gapOf space) [] value)
  end.

(** The text of an object on which nothing is thrown. *)
Definition writeObject (members : Document) (space : N) : Text :=
  SerializeJSONObject (gapOf space) [] members.

(** [JSON.stringify] on an object: it throws, or it returns a text. *)
Definition stringifyObject (members : Document) (space : N)
  : Completion Text :=
  match thrownBy (JObject members) with
  | Some e => Throw e
  | None => Normal (writeObject members space)
  end.

(** ** The tree a value is written as *)

Fixpoint tree (value : Json) : Tree :=
  match value with
  | JUndefined => TNull
  | JNull => TNull
  | JBool b => TBool b
  | JNumber x =>
      if isFinite x then TNumber (text (JS.Number_toString x)) else TNull
  | JString s => TString s
  | JArray elements => TArray (map tree elements)
  | JObject members =>
      TObject (flat_map (fun m =>
                           if isUndefined (snd m) then []
                           else [(fst m, tree (snd m))]) members)
  | JThrowing _ => TNull
  end.

(** ** Reading JSON text

    The reader follows the JSON grammar: the literals, numbers, strings
    with their escapes, arrays and objects, and insignificant whitespace
    between tokens.  It returns the tree in the order of the text. *)

Definition isWhitespace (u : CodeUnit) : bool :=
  isChar " " u || isChar "009" u || isChar "010" u || isChar "013" u.

Fixpoint skipWhitespace (s : Text) : Text :=
  match s with
  | [] => s
  | u :: s' => if isWhitespace u then skipWhitespace s' else s
  end.

Definition isDigitChar (c : ascii) : bool :=
  let n := N_of_ascii c in ((48 <=? n) && (n <=? 57))%N.

Definition isDigit (u : CodeUnit) : bool :=
  Ascii.eqb (high u) zero && isDigitChar (low u).

(** A string of decimal digits. *)
Fixpoint allDigits (s : string) : bool :=
  match s with
  | EmptyString => true
  | String c s' => isDigitChar c && allDigits s'
  end.

(** Every character of a string passes a test. *)
Fixpoint allChars (P : ascii -> bool) (s : string) : bool :=
  match s with
  | EmptyString => true
  | String c s' => P c && allChars P s'
  end.

(** The characters of a numeral. *)
Definition numeralChar (c : ascii) : bool :=
  isDigitChar c || Ascii.eqb c "-" || Ascii.eqb c "." || Ascii.eqb c "e"
  || Ascii.eqb c "+".

(** [expect lit s]: [s] without its prefix [lit]. *)
Fixpoint expect (lit : string) (s : Text) : option Text :=
  match lit with
  | EmptyString => Some s
  | String a lit' =>
      match s with
      | [] => None
      | u :: s' => if isChar a u then expect lit' s' else None
      end
  end.

Fixpoint spanDigits (s : Text) : Text * Text :=
  match s with
  | [] => ([], [])
  | u :: s' =>
      if isDigit u
      then let (ds, rest) := spanDigits s' in (u :: ds, rest)
      else ([], s)
  end.

(** The integer part: a zero, or digits that do not begin with one. *)
Definition readInteger (s : Text) : option (Text * Text) :=
  match s with
  | [] => None
  | u :: r =>
      if isChar "0" u then Some ([u], r)
      else if isDigit u
      then let (ds, rest) := spanDigits r in Some (u :: ds, rest)
      else None
  end.

Definition someDigits (s : Text) : option (Text * Text) :=
  match spanDigits s with
  | ([], _) => None
  | (ds, rest) => Some (ds, rest)
  end.

Definition prefixed (u : CodeUnit) (r : option (Text * Text))
  : option (Text * Text) :=
  match r with
  | Some (s, rest) => Some (u :: s, rest)
  | None => None
  end.

(** The fraction, if there is one: a point and at least one digit. *)
Definition readFraction (s : Text) : option (Text * Text) :=
  match s with
  | u :: r => if isChar "." u then prefixed u (someDigits r) else Some ([], s)
  | [] => Some ([], s)
  end.

(** The exponent, if there is one: [e] or [E], a sign or none, and at
    least one digit. *)
Definition readExponent (s : Text) : option (Text * Text) :=
  match s with
  | u :: r =>
      if isChar "e" u || isChar "E" u then
        match r with
        | v :: r' =>
            if isChar "+" v || isChar "-" v
            then prefixed u (prefixed v (someDigits r'))
            else prefixed u (someDigits r)
        | [] => None
        end
      else Some ([], s)
  | [] => Some ([], s)
  end.

Definition readUnsigned (s : Text) : option (Text * Text) :=
  match readInteger s with
  | None => None
  | Some (i, s1) =>
      match readFraction s1 with
      | None => None
      | Some (f, s2) =>
          match readExponent s2 with
          | None => None
          | Some (e, s3) => Some (i ++ f ++ e, s3)
          end
      end
  end.

(** A numeral and the text after it. *)
Definition readNumber (s : Text) : option (Text * Text) :=
  match s with
  | [] => None
  | u :: r => if isChar "-" u then prefixed u (readUnsigned r)
              else readUnsigned s
  end.

Definition hexValue (u : CodeUnit) : option N :=
  if Ascii.eqb (high u) zero then
    let n := N_of_ascii (low u) in
    if ((48 <=? n) && (n <=? 57))%N then Some (n - 48)%N
    else if ((97 <=? n) && (n <=? 102))%N then Some (n - 87)%N
    else if ((65 <=? n) && (n <=? 70))%N then Some (n - 55)%N
    else None
  else None.

Definition readHexByte (h1 h2 : CodeUnit) : option ascii :=
  match hexValue h1, hexValue h2 with
  | Some a, Some b => Some (ascii_of_N (a * 16 + b))
  | _, _ => None
  end.

(** The code unit written by four hexadecimal digits. *)
Definition readHex4 (h1 h2 h3 h4 : CodeUnit) : option CodeUnit :=
  match readHexByte h1 h2, readHexByte h3 h4 with
  | Some h, Some l => Some (Unit16 h l)
  | _, _ => None
  end.

Definition readEscape (e : CodeUnit) : option CodeUnit :=
  if isChar dquote e then Some (codeUnit dquote)
  else if isChar backslash e then Some (codeUnit backslash)
  else if isChar "/" e then Some (codeUnit "/")
  else if isChar "b" e then Some (codeUnit "008")
  else if isChar "f" e then Some (codeUnit "012")
  else if isChar "n" e then Some (codeUnit "010")
  else if isChar "r" e then Some (codeUnit "013")
  else if isChar "t" e then Some (codeUnit "009")
  else None.

Definition isControl (u : CodeUnit) : bool :=
  Ascii.eqb (high u) zero && (N_of_ascii (low u) <? 32)%N.

(** The characters of a string literal after its opening quote, up to and
    including the closing quote. *)
Fixpoint readStringBody (s : Text) : option (Text * Text) :=
  match s with
  | [] => None
  | c :: s' =>
      if isChar dquote c then Some ([], s')
      else if isChar backslash c then
        match s' with
        | [] => None
        | e :: s'' =>
            if isChar "u" e then
              match s'' with
              | h1 :: h2 :: h3 :: h4 :: rest =>
                  match readHex4 h1 h2 h3 h4 with
                  | Some u => prefixed u (readStringBody rest)
                  | None => None
                  end
              | _ => None
              end
            else
              match readEscape e with
              | Some u => prefixed u (readStringBody s'')
              | None => None
              end
        end
      else if isControl c then None
      else prefixed c (readStringBody s')
  end.

Definition asValue {A : Type} (f : A -> Tree) (r : option (A * Text))
  : option (Tree * Text) :=
  match r with
  | Some (a, rest) => Some (f a, rest)
  | None => None
  end.

Definition consValue {A : Type} (a : A) (r : option (list A * Text))
  : option (list A * Text) :=
  match r with
  | Some (l, rest) => Some (a :: l, rest)
  | None => None
  end.

Fixpoint readValue (fuel : nat) (s : Text) {struct fuel}
  : option (Tree * Text) :=
  match fuel with
  | O => None
  | S fuel' =>
      match skipWhitespace s with
      | [] => None
      | c :: r =>
          if isDigit c || isChar "-" c then asValue TNumber (readNumber (c :: r))
          else if isChar dquote c then asValue TString (readStringBody r)
          else if isChar "n" c then
            asValue (fun _ => TNull) (option_map (pair tt) (expect "ull" r))
          else if isChar "t" c then
            asValue (fun _ => TBool true)
              (option_map (pair tt) (expect "rue" r))
          else if isChar "f" c then
            asValue (fun _ => TBool false)
              (option_map (pair tt) (expect "alse" r))
          else if isChar "[" c then
            match expect "]" (skipWhitespace r) with
            | Some rest => Some (TArray [], rest)
            | None => asValue TArray (readElements fuel' r)
            end
          else if isChar "{" c then
            match expect "}" (skipWhitespace r) with
            | Some rest => Some (TObject [], rest)
            | None => asValue TObject (readMembers fuel' r)
            end
          else None
      end
  end

with readElements (fuel : nat) (s : Text) {struct fuel}
  : option (list Tree * Text) :=
  match fuel with
  | O => None
  | S fuel' =>
      match readValue fuel' s with
      | None => None
      | Some (v, r) =>
          match skipWhitespace r with
          | [] => None
          | c :: r' =>
              if isChar "," c then consValue v (readElements fuel' r')
              else if isChar "]" c then Some ([v], r')
              else None
          end
      end
  end

with readMembers (fuel : nat) (s : Text) {struct fuel}
  : option (list (Text * Tree) * Text) :=
  match fuel with
  | O => None
  | S fuel' =>
      match expect (String dquote "") (skipWhitespace s) with
      | None => None
      | Some r =>
          match readStringBody r with
          | None => None
          | Some (P, r1) =>
              match expect ":" (skipWhitespace r1) with
              | None => None
              | Some r2 =>
                  match readValue fuel' r2 with
                  | None => None
                  | Some (v, r3) =>
                      match skipWhitespace r3 with
                      | [] => None
                      | c :: r4 =>
                          if isChar "," c
                          then consValue (P, v) (readMembers fuel' r4)
                          else if isChar "}" c then Some ([(P, v)], r4)
                          else None
                      end
                  end
              end
          end
      end
  end.

(** [parse text]: the tree [text] denotes, if it is one JSON text. *)
Definition parse (text : Text) : option Tree :=
  match readValue (S (length text)) text with
  | Some (v, rest) => if isEmpty (skipWhitespace rest) then Some v else None
  | None => None
  end.

(** What [bracket] puts before every element, and before the closing
    bracket, at a given indentation: nothing when the gap is empty, a line
    break and the indentation otherwise. *)
Definition lineBreak (gap indent : Text) : Text :=
  if isEmpty gap then [] else codeUnit newline :: indent.

(** The text of an array element: [null] where the value is left out. *)
Definition elementText (gap indent : Text) (value : Json) : Text :=
  match SerializeJSONProperty gap indent value with
  | Some strP => strP
  | None => text "null"
  end.

(** The members of an object that are written. *)
Definition written (members : list (Text * Json)) : list (Text * Json) :=
  filter (fun m => negb (isUndefined (snd m))) members.

(** The fuel a value needs: one unit per value and per list cell that is
    written. *)
Fixpoint weight (v : Json) : nat :=
  match v with
  | JArray elements =>
      S (fold_right (fun x acc => S (weight x + acc)) 0 elements)
  | JObject members =>
      S (fold_right (fun m acc =>
                       if isUndefined (snd m) then acc
                       else S (weight (snd m) + acc)) 0 members)
  | _ => 1
  end.

Fixpoint blank (s : Text) : bool :=
  match s with
  | [] => true
  | u :: s' => isWhitespace u && blank s'
  end.

Definition startsWithDigit (s : Text) : bool :=
  match s with
  | [] => false
  | u :: _ => isDigit u
  end.

(** Whether a text would carry on a numeral written before it. *)
Definition continuesNumber (s : Text) : bool :=
  match s with
  | [] => false
  | u :: _ => isDigit u || isChar "." u || isChar "e" u || isChar "E" u
  end.

(** The characters a value can begin with. *)
Definition opensValue (u : CodeUnit) : bool :=
  isDigit u || isChar "-" u || isChar dquote u || isChar "n" u
  || isChar "t" u || isChar "f" u || isChar "[" u || isChar "{" u.

(** A value reads back: its text, followed by any text that does not
    carry on a numeral, and with fuel for its weight, is read as its tree
    and leaves that text. *)
Definition Reads (v : Json) : Prop :=
  forall (gap indent rest : Text) (fuel : nat),
    blank gap = true -> blank indent = true ->
    continuesNumber rest = false ->
    weight v <= fuel ->
    readValue fuel (elementText gap indent v ++ rest) = Some (tree v, rest).

(** The code units from U+0020 on. *)
Definition notControl (u : CodeUnit) : bool := negb (isControl u).

Definition notControlOrNewline (u : CodeUnit) : bool :=
  notControl u || isChar newline u.

(** ** Insignificant whitespace

    [minify false false text] drops the whitespace of [text] that lies
    outside its string literals; [inString] and [escaped] follow the
    literal being crossed. *)
Fixpoint minify (inString escaped : bool) (t : Text) : Text :=
  match t with
  | [] => []
  | c :: t' =>
      if inString then
        if escaped then c :: minify true false t'
        else if isChar backslash c then c :: minify true true t'
        else if isChar dquote c then c :: minify false false t'
        else c :: minify true false t'
      else if isWhitespace c then minify false false t'
      else if isChar dquote c then c :: minify true false t'
      else c :: minify false false t'
  end.

(** ** The pretty layout, by depth

    From the specification: the document indented with 2 spaces and
    newline-separated.  Every element of an array and every member of an
    object is on a line of its own, two spaces deeper than the bracket
    that opens it, a comma after each but the last; a member is its name,
    a colon, a space and its value; the closing bracket is on a line of
    its own at the depth of the opening one; an empty array or object is
    its two brackets. *)
Fixpoint lines (depth : nat) (parts : list Text) : Text :=
  match parts with
  | [] => []
  | [p] => codeUnit newline :: spaces (2 * depth) ++ p
  | p :: ps =>
      codeUnit newline :: spaces (2 * depth) ++ p
        ++ codeUnit "," :: lines depth ps
  end.

Definition enclosed (opening closing : ascii) (depth : nat)
  (parts : list Text) : Text :=
  match parts with
  | [] => [codeUnit opening; codeUnit closing]
  | _ :: _ =>
      codeUnit opening :: lines (S depth) parts
        ++ codeUnit newline :: spaces (2 * depth) ++ [codeUnit closing]
  end.

Fixpoint indented (depth : nat) (value : Json) : Text :=
  match value with
  | JArray elements =>
      enclosed "[" "]" depth (map (indented (S depth)) elements)
  | JObject members =>
      enclosed "{" "}" depth
        (flat_map (fun m =>
                     if isUndefined (snd m) then []
                     else [QuoteJSONString (fst m) ++ text ": "
                             ++ indented (S depth) (snd m)]) members)
  | scalar => elementText [] [] scalar
  end.

End JSON.

Export JSON.

(* ===================================================================== *)
(** * The validation library, as the adapter sees it *)
(* ===================================================================== *)

Module zod.

Section Interface.

(** [Value]: the values handed to and returned by the parser.
    [Extra]: the fields of an issue beyond the common ones ([expected],
    [minimum], [values], nested [errors], ...). *)
Variables (Value Extra : Type).

(** One issue as the library reports it. *)
Record ZodIssue : Type := {
  code : string;
  message : string;
  path : list PropertyKey;
  input : option Value;      (* [None]: the property is undefined *)
  others : Extra
}.

Record ZodError : Type := { issues : list ZodIssue }.

(** Whether a Symbol lies on the path of an issue. *)
Definition hasSymbol (issue : ZodIssue) : Prop :=
  Exists (fun key => isSymbol key = true) (path issue).

Definition symbolFree (issue : ZodIssue) : Prop :=
  Forall (fun key => isSymbol key = false) (path issue).

(** The result object of [safeParse], discriminated by [success]. *)
Inductive SafeParseResult : Type :=
| SafeParseSuccess (data : Value)
| SafeParseError (error : ZodError).

(** The namespace [z] ([import * as z from 'zod/v4']): the entry points
    the adapter can reach.  [Schema] is whatever value is passed where a
    schema is expected.  The calls may throw.  Here they are taken as
    deterministic and without effect on the world outside, as they are
    for a schema without callbacks; [Effectful.Namespace] below is the
    interface without that. *)
Record Namespace (Schema : Type) : Type := {
  safeParse : Schema -> Value -> Completion SafeParseResult;
  parse : Schema -> Value -> Completion Value;
  toJSONSchema : Schema -> Completion JSON.Document
}.

End Interface.

Arguments SafeParseSuccess {Value Extra} data.
Arguments SafeParseError {Value Extra} error.
Arguments hasSymbol {Value Extra} issue.
Arguments symbolFree {Value Extra} issue.

End zod.

(* ===================================================================== *)
(** * The adapter: [src/ghiiEngineZod.ts] *)
(* ===================================================================== *)

Module Engine.

Section Adapter.

Variables (Value Extra Schema : Type).

(** The state outside the adapter that a schema factory may read and
    write. *)
Variable World : Type.

(** A computation that may change the world and may throw. *)
Definition M (A : Type) : Type := World -> Completion A * World.

Definition ret {A : Type} (a : A) : M A := fun w => (Normal a, w).

Definition bindM {A B : Type} (c : M A) (k : A -> M B) : M B :=
  fun w =>
    match c w with
    | (Normal a, w') => k a w'
    | (Throw e, w') => (Throw e, w')
    end.

(** A call that does not touch the world. *)
Definition pure {A : Type} (c : Completion A) : M A := fun w => (c, w).

Notation "x <~ c ;; k" := (bindM c (fun x => k))
  (at level 61, c at next level, right associativity).

Local Abbreviation ZodIssue := (zod.ZodIssue Value Extra).
Local Abbreviation Namespace := (zod.Namespace Value Extra Schema).

(** [type ZodSchemaFactory<T> = (zod: typeof z) => T] *)
Definition ZodSchemaFactory : Type := Namespace -> M Schema.

(** The argument of [zodEngine], split the way
    [typeof schema === 'function'] splits it. *)
Inductive SchemaArgument : Type :=
| Callable (schema : ZodSchemaFactory)
| NotCallable (schema : Schema).

(** One entry of [errors]. *)
Record Issue : Type := {
  path : string;
  input : option Value;
  details : string;
  message : string;
  _raw : ZodIssue
}.

(** What [validate] returns, discriminated by [success]. *)
Inductive ValidationResult : Type :=
| Success (value : Value)
| Failure (errors : list Issue).

(** [GhiiEngine<Config>] *)
Record GhiiEngine : Type := {
  validate : Value -> M ValidationResult;
  toJsonSchema : option bool -> M JSON.Text
}.

(** The library in scope: [import * as z from 'zod/v4']. *)
Variable z : Namespace.

(** The callback of [result.error.issues.map]. *)
Definition toIssue (issue : ZodIssue) : Completion Issue :=
  (path <- JS.join "." (zod.path issue) ;;
   Normal {| path := path;
             input := zod.input issue;
             details := zod.code issue;
             message := zod.message issue;
             _raw := issue |})%completion.

Definition validateWith (_schema : Schema) (toValidate : Value)
  : M ValidationResult :=
  result <~ pure (zod.safeParse z _schema toValidate) ;;
  match result with
  | zod.SafeParseSuccess data => ret (Success data)
  | zod.SafeParseError error =>
      errors <~ pure (JS.array_map toIssue (zod.issues error)) ;;
      ret (Failure errors)
  end.

Definition toJsonSchemaWith (_schema : Schema) (pretty : option bool)
  : M JSON.Text :=
  let pretty := match pretty with Some b => b | None => false end in
  document <~ pure (zod.toJSONSchema z _schema) ;;
  pure (JSON.stringifyObject document (if pretty then 2 else 0)).

Definition zodEngine (schema : SchemaArgument) : M GhiiEngine :=
  _schema <~ match schema with
             | Callable schema => schema z
             | NotCallable schema => ret schema
             end ;;
  ret {| validate := validateWith _schema;
         toJsonSchema := toJsonSchemaWith _schema |}.

(** An [Issue] translates a library issue when it carries its fields and
    the joined path. *)
Definition Translates (issue : ZodIssue) (e : Issue) : Prop :=
  JS.join "." (zod.path issue) = Normal (path e)
  /\ input e = zod.input issue
  /\ details e = zod.code issue
  /\ message e = zod.message issue
  /\ _raw e = issue.

(** The schema an adapter built from [schema] in world [w] holds: the
    argument itself, or what the factory returns on the namespace. *)
Definition retained (schema : SchemaArgument) (w : World)
  : Completion Schema :=
  match schema with
  | Callable schema => fst (schema z w)
  | NotCallable schema => Normal schema
  end.

(** The object [zodEngine] returns when [_schema] is what it retained. *)
Definition retaining (_schema : Schema) : GhiiEngine :=
  {| validate := validateWith _schema;
     toJsonSchema := toJsonSchemaWith _schema |}.

(** ** The host's side

    A host holds one engine and calls its two methods any number of times,
    in any order, catching what they throw. *)
Inductive Call : Type :=
| CallValidate (toValidate : Value)
| CallToJsonSchema (pretty : option bool).

Inductive Reply : Type :=
| Validated (outcome : Completion ValidationResult)
| JsonSchema (text : Completion JSON.Text).

Definition call (engine : GhiiEngine) (c : Call) (w : World)
  : Reply * World :=
  match c with
  | CallValidate toValidate =>
      let (outcome, w') := validate engine toValidate w in
      (Validated outcome, w')
  | CallToJsonSchema pretty =>
      let (text, w') := toJsonSchema engine pretty w in
      (JsonSchema text, w')
  end.

Fixpoint calls (engine : GhiiEngine) (cs : list Call) (w : World)
  : list Reply * World :=
  match cs with
  | [] => ([], w)
  | c :: cs' =>
      let (r, w') := call engine c w in
      let (rs, w'') := calls engine cs' w' in
      (r :: rs, w'')
  end.

(** A value is unusable as a schema when the library throws on every use
    of it. *)
Definition unusable (_schema : Schema) : Prop :=
  (forall toValidate, exists e,
      zod.safeParse z _schema toValidate = Throw e)
  /\ (exists e, zod.toJSONSchema z _schema = Throw e).

End Adapter.

(** A factory instrumented with a counter of its invocations, kept in the
    world next to whatever the factory itself touches. *)
Definition counted {Value Extra Schema World : Type}
  (factory : ZodSchemaFactory Value Extra Schema World)
  : ZodSchemaFactory Value Extra Schema (nat * World) :=
  fun zod nw =>
    let (r, w') := factory zod (snd nw) in (r, (S (fst nw), w')).

Arguments ret {World A} a _.
Arguments pure {World A} c _.
Arguments bindM {World A B} c k _.
Arguments Callable {Value Extra Schema World} schema.
Arguments NotCallable {Value Extra Schema World} schema.
Arguments Success {Value Extra} value.
Arguments Failure {Value Extra} errors.
Arguments Translates {Value Extra} issue e.
Arguments validateWith {Value Extra Schema World} z _schema toValidate _.
Arguments toJsonSchemaWith {Value Extra Schema World} z _schema pretty _.
Arguments retaining {Value Extra Schema World} z _schema.
Arguments retained {Value Extra Schema World} z schema w.
Arguments zodEngine {Value Extra Schema World} z schema _.
Arguments CallValidate {Value} toValidate.
Arguments CallToJsonSchema {Value} pretty.
Arguments call {Value Extra World} engine c w.
Arguments calls {Value Extra World} engine cs w.
Arguments unusable {Value Extra Schema} z _schema.

End Engine.

(* ===================================================================== *)
(** * The adapter over a library that acts on the world

    The calls of the library are not always without effect: [safeParse]
    runs the callbacks a schema carries ([default(fn)], [refine(fn)],
    [transform(fn)]), and [toJSONSchema] reads the defaults and the
    metadata registry.  Here the two entry points are computations on the
    world; the adapter is the same code. *)
(* ===================================================================== *)

Module Effectful.

Section Adapter.

Variables (Value Extra Schema World : Type).

Local Abbreviation M := (Engine.M World).
Local Abbreviation SafeParseResult := (zod.SafeParseResult Value Extra).
Local Abbreviation ValidationResult := (Engine.ValidationResult Value Extra).
Local Abbreviation GhiiEngine := (Engine.GhiiEngine Value Extra World).

Notation "x <~ c ;; k" := (Engine.bindM c (fun x => k))
  (at level 61, c at next level, right associativity).

(** The entry points of the namespace [z] the adapter reaches. *)
Record Namespace : Type := {
  safeParse : Schema -> Value -> M SafeParseResult;
  toJSONSchema : Schema -> M JSON.Document
}.

Definition ZodSchemaFactory : Type := Namespace -> M Schema.

Inductive SchemaArgument : Type :=
| Callable (schema : ZodSchemaFactory)
| NotCallable (schema : Schema).

Variable z : Namespace.

Definition validateWith (_schema : Schema) (toValidate : Value)
  : M ValidationResult :=
  result <~ safeParse z _schema toValidate ;;
  match result with
  | zod.SafeParseSuccess data => Engine.ret (Engine.Success data)
  | zod.SafeParseError error =>
      errors <~ Engine.pure
                  (JS.array_map (@Engine.toIssue Value Extra)
                     (zod.issues error)) ;;
      Engine.ret (Engine.Failure errors)
  end.

Definition toJsonSchemaWith (_schema : Schema) (pretty : option bool)
  : M JSON.Text :=
  let pretty := match pretty with Some b => b | None => false end in
  document <~ toJSONSchema z _schema ;;
  Engine.pure (JSON.stringifyObject document (if pretty then 2 else 0)).

Definition zodEngine (schema : SchemaArgument) : M GhiiEngine :=
  _schema <~ match schema with
             | Callable schema => schema z
             | NotCallable schema => Engine.ret schema
             end ;;
  Engine.ret {| Engine.validate := validateWith _schema;
                Engine.toJsonSchema := toJsonSchemaWith _schema |}.

(** The schema an adapter built from [schema] in world [w] holds. *)
Definition retained (schema : SchemaArgument) (w : World)
  : Completion Schema :=
  match schema with
  | Callable schema => fst (schema z w)
  | NotCallable schema => Normal schema
  end.

(** The object [zodEngine] returns when [_schema] is what it retained. *)
Definition retaining (_schema : Schema) : GhiiEngine :=
  {| Engine.validate := validateWith _schema;
     Engine.toJsonSchema := toJsonSchemaWith _schema |}.

(** What [validate] makes of the answer of [safeParse]: the value of a
    success, the translated issues of a failure, the exception thrown. *)
Definition translate (answer : Completion SafeParseResult)
  : Completion ValidationResult :=
  (result <- answer ;;
   match result with
   | zod.SafeParseSuccess data => Normal (Engine.Success data)
   | zod.SafeParseError error =>
       errors <- JS.array_map (@Engine.toIssue Value Extra)
                   (zod.issues error) ;;
       Normal (Engine.Failure errors)
   end)%completion.

(** What [toJsonSchema] makes of the answer of the converter. *)
Definition rendered (pretty : option bool) (answer : Completion JSON.Document)
  : Completion JSON.Text :=
  (document <- answer ;;
   JSON.stringifyObject document
     (match pretty with Some true => 2 | _ => 0 end))%completion.

(** [safeParse] gives the same answer for a schema and a candidate
    whatever the world is. *)
Definition settled (_schema : Schema) (toValidate : Value) : Prop :=
  forall w w' : World,
    fst (safeParse z _schema toValidate w)
    = fst (safeParse z _schema toValidate w').

End Adapter.

(** A library whose calls leave the world alone, seen as one that may act
    on it. *)
Definition still {Value Extra Schema : Type} (World : Type)
  (z : zod.Namespace Value Extra Schema)
  : Namespace Value Extra Schema World :=
  {| safeParse := fun _schema toValidate =>
                    Engine.pure (zod.safeParse z _schema toValidate);
     toJSONSchema := fun _schema => Engine.pure (zod.toJSONSchema z _schema) |}.

Arguments Callable {Value Extra Schema World} schema.
Arguments NotCallable {Value Extra Schema World} schema.
Arguments validateWith {Value Extra Schema World} z _schema toValidate _.
Arguments toJsonSchemaWith {Value Extra Schema World} z _schema pretty _.
Arguments zodEngine {Value Extra Schema World} z schema _.
Arguments retained {Value Extra Schema World} z schema w.
Arguments retaining {Value Extra Schema World} z _schema.
Arguments translate {Value Extra} answer.
Arguments settled {Value Extra Schema World} z _schema toValidate.

End Effectful.

(* ===================================================================== *)
(** * A small validation library

    An instance of [zod.Namespace] with a handful of schema kinds, reporting
    issues the way the library does: one issue per violated constraint, in
    the order of the traversal, each with the path of keys leading to the
    offending value.  It serves to run the adapter on concrete inputs. *)
(* ===================================================================== *)

Module MiniZod.

#[local] Unset Elimination Schemes.

(** Run-time values.  [VNumber] is an integer; [VFloat] is any number. *)
Inductive JsValue : Type :=
| VUndefined
| VNull
| VBoolean (b : bool)
| VNumber (n : Z)
| VString (s : string)
| VSymbol (description : string)
| VFloat (x : JS.Number)
| VArray (elements : list JsValue)
| VObject (properties : list (PropertyKey * JsValue))
| VMap (entries : list (PropertyKey * JsValue)).

(** What can stand where a schema is expected. *)
Inductive Schema : Type :=
| ZString (minLength : nat)                (* z.string().min(n) *)
| ZStringDefault (defaultValue : string)   (* z.string().default(d) *)
| ZNumber (minimum maximum : Z)            (* z.number().min(a).max(b) *)
| ZArray (element : Schema)                (* z.array(element) *)
| ZObject (shape : list (string * Schema)) (* z.object(shape) *)
| ZRecord (valueType : Schema)             (* z.record(z.string(), t) *)
| ZMap (valueType : Schema)                (* z.map(z.symbol(), t) *)
| NotASchema (v : JsValue).                (* anything else, e.g. 42 *)

#[local] Set Elimination Schemes.

(** The issue fields beyond the common ones, as name and text. *)
Definition Extra : Type := list (string * string).

Definition ZodIssue : Type := zod.ZodIssue JsValue Extra.

Definition issue (code message : string) (input : JsValue) (extra : Extra)
  : ZodIssue :=
  {| zod.code := code; zod.message := message; zod.path := [];
     zod.input := Some input; zod.others := extra |}.

Definition prefixIssue (key : PropertyKey) (iss : ZodIssue) : ZodIssue :=
  {| zod.code := zod.code iss; zod.message := zod.message iss;
     zod.path := key :: zod.path iss;
     zod.input := zod.input iss; zod.others := zod.others iss |}.

Definition prefixIssues (key : PropertyKey) (issues : list ZodIssue)
  : list ZodIssue :=
  map (prefixIssue key) issues.

Definition typeName (v : JsValue) : string :=
  match v with
  | VUndefined => "undefined"
  | VNull => "null"
  | VBoolean _ => "boolean"
  | VNumber _ => "number"
  | VString _ => "string"
  | VSymbol _ => "symbol"
  | VFloat _ => "number"
  | VArray _ => "array"
  | VObject _ => "object"
  | VMap _ => "map"
  end.

Definition keyValue (key : PropertyKey) : JsValue :=
  match key with
  | KeyString s => VString s
  | KeyNumber n => VNumber (Z.of_N n)
  | KeySymbol d => VSymbol d
  | KeyFloat x => VFloat x
  end.

Definition invalidType (expected : string) (v : JsValue) : ZodIssue :=
  issue "invalid_type"
    ("Invalid input: expected " ++ expected ++ ", received " ++ typeName v)
    v [("expected", expected)].

Definition keyEqb (a b : PropertyKey) : bool :=
  match a, b with
  | KeyString x, KeyString y => String.eqb x y
  | KeyNumber x, KeyNumber y => N.eqb x y
  | KeySymbol x, KeySymbol y => String.eqb x y
  | KeyFloat x, KeyFloat y => JS.Number_eqb x y
  | _, _ => false
  end.

(** Property read: [undefined] when the key is absent. *)
Fixpoint get (key : PropertyKey) (properties : list (PropertyKey * JsValue))
  : JsValue :=
  match properties with
  | [] => VUndefined
  | (k, v) :: rest => if keyEqb k key then v else get key rest
  end.

(** The payload of a run: the output value and the issues found. *)
Definition Payload : Type := JsValue * list ZodIssue.

(** Run [f] on every keyed value, in order, collecting the outputs under
    their keys and the issues under their prefixed paths. *)
Fixpoint runEach (f : PropertyKey -> JsValue -> Payload)
  (keyed : list (PropertyKey * JsValue))
  : list (PropertyKey * JsValue) * list ZodIssue :=
  match keyed with
  | [] => ([], [])
  | (k, v) :: rest =>
      let (out, issues) := f k v in
      let (outs, more) := runEach f rest in
      ((k, out) :: outs, (prefixIssues k issues ++ more)%list)
  end.

Fixpoint indexed (i : N) (xs : list JsValue) : list (PropertyKey * JsValue) :=
  match xs with
  | [] => []
  | x :: rest => (KeyNumber i, x) :: indexed (N.succ i) rest
  end.

Fixpoint run (schema : Schema) (v : JsValue) {struct schema} : Payload :=
  match schema with
  | ZString minLength =>
      match v with
      | VString s =>
          if (String.length s <? minLength)%nat
          then (v, [issue "too_small"
                      ("Too small: expected string to have >="
                         ++ JS.NumberToString (N.of_nat minLength)
                         ++ " characters")
                      v [("origin", "string")]])
          else (v, [])
      | _ => (v, [invalidType "string" v])
      end
  | ZStringDefault defaultValue =>
      match v with
      | VUndefined => (VString defaultValue, [])
      | VString _ => (v, [])
      | _ => (v, [invalidType "string" v])
      end
  | ZNumber minimum maximum =>
      match v with
      | VNumber n =>
          (v,
           ((if (n <? minimum)%Z
             then [issue "too_small"
                     ("Too small: expected number to be >="
                        ++ JS.Number_toString (JS.ofZ minimum))
                     v [("origin", "number")]]
             else [])
            ++
            (if (maximum <? n)%Z
             then [issue "too_big"
                     ("Too big: expected number to be <="
                        ++ JS.Number_toString (JS.ofZ maximum))
                     v [("origin", "number")]]
             else []))%list)
      | _ => (v, [invalidType "number" v])
      end
  | ZArray element =>
      match v with
      | VArray xs =>
          let (outs, issues) := runEach (fun _ => run element) (indexed 0 xs) in
          (VArray (map snd outs), issues)
      | _ => (v, [invalidType "array" v])
      end
  | ZObject shape =>
      match v with
      | VObject properties =>
          let results :=
            map (fun field =>
                   let key := KeyString (fst field) in
                   (key, run (snd field) (get key properties))) shape in
          (VObject (map (fun r => (fst r, fst (snd r))) results),
           flat_map (fun r => prefixIssues (fst r) (snd (snd r))) results)
      | _ => (v, [invalidType "object" v])
      end
  | ZRecord valueType =>
      match v with
      | VObject properties =>
          let (outs, issues) :=
            runEach (fun key x =>
                       match key with
                       | KeyString _ => run valueType x
                       | _ =>
                           (x, [issue "invalid_key" "Invalid key in record"
                                  (keyValue key) [("origin", "record")]])
                       end) properties in
          (VObject outs, issues)
      | _ => (v, [invalidType "record" v])
      end
  | ZMap valueType =>
      match v with
      | VMap entries =>
          let (outs, issues) := runEach (fun _ => run valueType) entries in
          (VMap outs, issues)
      | _ => (v, [invalidType "map" v])
      end
  | NotASchema _ => (v, [])
  end.

(** Whether a value is a schema, all the way down. *)
Fixpoint isSchema (schema : Schema) : bool :=
  match schema with
  | ZArray element => isSchema element
  | ZObject shape => forallb (fun field => isSchema (snd field)) shape
  | ZRecord valueType => isSchema valueType
  | ZMap valueType => isSchema valueType
  | NotASchema _ => false
  | _ => true
  end.

Definition notASchema {A : Type} : Completion A :=
  Throw (TypeError "Cannot read properties of undefined (reading 'run')").

(** The issues as reported: with their input only when [reportInput]. *)
Definition finalizeIssue (reportInput : bool) (iss : ZodIssue) : ZodIssue :=
  {| zod.code := zod.code iss; zod.message := zod.message iss;
     zod.path := zod.path iss;
     zod.input := if reportInput then zod.input iss else None;
     zod.others := zod.others iss |}.

Definition safeParse (reportInput : bool) (schema : Schema) (v : JsValue)
  : Completion (zod.SafeParseResult JsValue Extra) :=
  if isSchema schema then
    match run schema v with
    | (data, []) => Normal (zod.SafeParseSuccess data)
    | (_, issues) =>
        Normal (zod.SafeParseError
                  {| zod.issues := map (finalizeIssue reportInput) issues |})
    end
  else notASchema.

Definition parse (reportInput : bool) (schema : Schema) (v : JsValue)
  : Completion JsValue :=
  (result <- safeParse reportInput schema v ;;
   match result with
   | zod.SafeParseSuccess data => Normal data
   | zod.SafeParseError _ => Throw (Thrown "ZodError")
   end)%completion.

Definition jtype (name : string) : Text * Json :=
  (text "type", JString (text name)).

Fixpoint jsonSchemaOf (schema : Schema) : JSON.Document :=
  match schema with
  | ZString minLength =>
      jtype "string" ::
      match minLength with
      | O => []
      | _ => [(text "minLength", JNumber (JS.ofZ (Z.of_nat minLength)))]
      end
  | ZStringDefault defaultValue =>
      [jtype "string"; (text "default", JString (text defaultValue))]
  | ZNumber minimum maximum =>
      [jtype "number"; (text "minimum", JNumber (JS.ofZ minimum));
       (text "maximum", JNumber (JS.ofZ maximum))]
  | ZArray element =>
      [jtype "array"; (text "items", JObject (jsonSchemaOf element))]
  | ZObject shape =>
      [jtype "object";
       (text "properties",
        JObject (map (fun field =>
                        (text (fst field), JObject (jsonSchemaOf (snd field))))
                   shape));
       (text "required",
        JArray (map (fun field => JString (text (fst field))) shape));
       (text "additionalProperties", JBool false)]
  | ZRecord valueType =>
      [jtype "object";
       (text "propertyNames", JObject [jtype "string"]);
       (text "additionalProperties", JObject (jsonSchemaOf valueType))]
  | ZMap _ => []
  | NotASchema _ => []
  end.

(** A [Map] has no representation in JSON Schema: the converter throws. *)
Fixpoint representable (schema : Schema) : bool :=
  match schema with
  | ZArray element => representable element
  | ZObject shape => forallb (fun field => representable (snd field)) shape
  | ZRecord valueType => representable valueType
  | ZMap _ => false
  | _ => true
  end.

Definition dialect : Text * Json :=
  (text "$schema",
   JString (text "https://json-schema.org/draft/2020-12/schema")).

Definition toJSONSchema (schema : Schema) : Completion JSON.Document :=
  if isSchema schema then
    if representable schema then Normal (dialect :: jsonSchemaOf schema)
    else Throw (Thrown "Map cannot be represented in JSON Schema")
  else notASchema.

(** The namespace. *)
Definition z (reportInput : bool) : zod.Namespace JsValue Extra Schema :=
  {| zod.safeParse := safeParse reportInput;
     zod.parse := parse reportInput;
     zod.toJSONSchema := toJSONSchema |}.

(** A namespace with the same [safeParse] whose [parse] always throws. *)
Definition zParseThrows : zod.Namespace JsValue Extra Schema :=
  {| zod.safeParse := safeParse false;
     zod.parse := fun _ _ => Throw (Thrown "ZodError");
     zod.toJSONSchema := toJSONSchema |}.

(** The schema of the tests: a user with a name and an age. *)
Definition userSchema : Schema :=
  ZObject [("name", ZString 1); ("age", ZNumber 0 150)].

Definition str (s : string) : PropertyKey := KeyString s.

Definition john : JsValue :=
  VObject [(str "name", VString "John"); (str "age", VNumber 30)].

Definition nobody : JsValue :=
  VObject [(str "name", VString ""); (str "age", VNumber (-5))].

(** [z.map(z.symbol(), z.number().min(0).max(150))] and a well-typed map
    whose one entry is out of range. *)
Definition ages : Schema := ZMap (ZNumber 0 150).

Definition agesBySymbol : JsValue :=
  VMap [(KeySymbol "alice", VNumber 200)].

(** [z.record(z.string(), z.number().min(0).max(150))] and an object with
    an out-of-range entry and a Symbol key. *)
Definition limits : Schema := ZRecord (ZNumber 0 150).

Definition limitsWithSymbol : JsValue :=
  VObject [(str "cpu", VNumber 200); (KeySymbol "tag", VNumber 1)].

(** Nested settings, as in the tests: the second entry has no text. *)
Definition settingsSchema : Schema :=
  ZObject [("settings", ZArray (ZObject [("value", ZString 0)]))].

Definition settingsCandidate : JsValue :=
  VObject [(str "settings",
            VArray [VObject [(str "value", VString "en")];
                    VObject [(str "value", VNull)]])].

(** [z.object({ name: z.string().default("my-app") })] and [{}]. *)
Definition appSchema : Schema := ZObject [("name", ZStringDefault "my-app")].

Definition emptyObject : JsValue := VObject [].

(** A key with a dot in it next to a nested key: [{ "a.b": 1, a: { b: 1 } }]
    against a schema that wants strings at both places. *)
Definition dottedSchema : Schema :=
  ZObject [("a.b", ZString 0); ("a", ZObject [("b", ZString 0)])].

Definition dottedCandidate : JsValue :=
  VObject [(str "a.b", VNumber 1);
           (str "a", VObject [(str "b", VNumber 1)])].

(** The number 42 passed where a schema is expected. *)
Definition fortyTwo : Schema := NotASchema (VNumber 42).

(** Issues as the library reports them for a [null] where a string is
    expected: at the root, under the empty key, under [value], under
    [settings[1]], under [settings[1].value], under [tags[0]] and under
    the key [0] of [tags]. *)
Definition rootIssue : ZodIssue := invalidType "string" VNull.

Definition emptyKeyIssue : ZodIssue := prefixIssue (str "") rootIssue.

Definition valueIssue : ZodIssue := prefixIssue (str "value") rootIssue.

Definition settingsIssue : ZodIssue :=
  prefixIssue (str "settings") (prefixIssue (KeyNumber 1) rootIssue).

Definition settingsValueIssue : ZodIssue :=
  prefixIssue (str "settings") (prefixIssue (KeyNumber 1) valueIssue).

Definition tagsIndexIssue : ZodIssue :=
  prefixIssue (str "tags") (prefixIssue (KeyNumber 0) rootIssue).

Definition tagsKeyIssue : ZodIssue :=
  prefixIssue (str "tags") (prefixIssue (str "0") rootIssue).

(** The outside world of the examples: how many times the factory ran. *)
Definition Calls : Type := nat.

(** [(zod) => zod.object({ name: ..., age: ... })], counting its calls. *)
Definition userSchemaFactory
  : Engine.ZodSchemaFactory JsValue Extra Schema Calls :=
  fun zod calls => (Normal userSchema, S calls).

(** A factory that throws. *)
Definition failingFactory
  : Engine.ZodSchemaFactory JsValue Extra Schema Calls :=
  fun zod calls => (Throw (Thrown "factory failed"), S calls).

(** [z.map(z.number(), z.string())] and a map with the keys 1.5 and -1,
    each with a value that is no string. *)
Definition names : Schema := ZMap (ZString 0).

Definition onePointFive : JS.Number := JS.Finite false 15 1.

Definition minusOne : JS.Number := JS.Finite true 1 1.

Definition namesByNumber : JsValue :=
  VMap [(KeyFloat onePointFive, VNull); (KeyFloat minusOne, VNull)].

(** The namespace when the registry holds metadata for every schema:
    the converter copies it into the document,
    [z.string().meta({ version: 10n })]. *)
Definition zRegistered (meta : JSON.Document)
  : zod.Namespace JsValue Extra Schema :=
  {| zod.safeParse := safeParse false;
     zod.parse := parse false;
     zod.toJSONSchema := fun schema =>
       (document <- toJSONSchema schema ;;
        Normal (document ++ meta)%list)%completion |}.

Definition bigIntVersion : JSON.Document :=
  [(text "version",
    JThrowing (TypeError "Do not know how to serialize a BigInt"))].

(** A JSON text written with apostrophes where it has double quotes. *)
Fixpoint quoted (s : string) : string :=
  match s with
  | EmptyString => ""
  | String c s' =>
      String (if Ascii.eqb c "'" then JSON.dquote else c) (quoted s')
  end.

(** ** A schema with a callback

    [z.number().default(nextId)] with [nextId = () => counter++]: the
    default of an absent value is drawn from a counter, which is the world
    here.  [safeParse] draws it when the candidate is [undefined], the
    converter draws it to write the [default] member. *)
Inductive SchemaWithCallback : Type :=
| Plain (schema : Schema)
| NumberDefaultNextId.

Definition Counter : Type := nat.

Definition safeParseWithCallback (schema : SchemaWithCallback) (v : JsValue)
  : Engine.M Counter (zod.SafeParseResult JsValue Extra) :=
  match schema with
  | Plain schema => Engine.pure (safeParse false schema v)
  | NumberDefaultNextId =>
      match v with
      | VUndefined =>
          fun counter =>
            (Normal (zod.SafeParseSuccess (VNumber (Z.of_nat counter))),
             S counter)
      | VNumber _ => Engine.ret (zod.SafeParseSuccess v)
      | _ =>
          Engine.ret
            (zod.SafeParseError
               {| zod.issues :=
                    [finalizeIssue false (invalidType "number" v)] |})
      end
  end.

Definition toJSONSchemaWithCallback (schema : SchemaWithCallback)
  : Engine.M Counter JSON.Document :=
  match schema with
  | Plain schema => Engine.pure (toJSONSchema schema)
  | NumberDefaultNextId =>
      fun counter =>
        (Normal [dialect; jtype "number";
                 (text "default", JNumber (JS.ofZ (Z.of_nat counter)))],
         S counter)
  end.

Definition zWithCallbacks
  : Effectful.Namespace JsValue Extra SchemaWithCallback Counter :=
  {| Effectful.safeParse := safeParseWithCallback;
     Effectful.toJSONSchema := toJSONSchemaWithCallback |}.

End MiniZod.

(* ===================================================================== *)
(** * Facts about strings and [Array.prototype.join] *)
(* ===================================================================== *)

Import Engine.

Lemma append_nil_r (s : string) : s ++ "" = s.
Proof. induction s as [|c s IH]; simpl; [reflexivity | now rewrite IH]. Qed.

Lemma append_assoc (a b c : string) : (a ++ b) ++ c = a ++ (b ++ c).
Proof. induction a as [|x a IH]; simpl; [reflexivity | now rewrite IH]. Qed.

Lemma length_append (a b : string) :
  String.length (a ++ b) = (String.length a + String.length b)%nat.
Proof. induction a as [|x a IH]; simpl; [reflexivity | now rewrite IH]. Qed.

Lemma concat_empty_cons (x : string) (l : list string) :
  String.concat "" (x :: l) = x ++ String.concat "" l.
Proof.
  destruct l; simpl; [now rewrite append_nil_r | reflexivity].
Qed.

(** [String.concat] puts the separator before every piece but the first. *)
Lemma concat_cons (sep s : string) (l : list string) :
  String.concat sep (s :: l)
  = s ++ String.concat "" (map (fun x => sep ++ x) l).
Proof.
  revert s; induction l as [|t l IH]; intros s.
  - simpl. now rewrite append_nil_r.
  - change (String.concat sep (s :: t :: l))
      with (s ++ sep ++ String.concat sep (t :: l)).
    rewrite IH. simpl map. rewrite concat_empty_cons.
    now rewrite append_assoc.
Qed.

(** From the second element on, [join_from] appends separator and text. *)
Lemma join_from_later (sep : string) (keys : list PropertyKey) :
  forall (texts : list string) (R : string) (k : nat),
    Forall2 SegmentText keys texts ->
    join_from sep R (S k) keys
    = Normal (R ++ String.concat "" (map (fun x => sep ++ x) texts)).
Proof.
  induction keys as [|key keys IH]; intros texts R k H; inversion H; subst.
  - simpl. now rewrite append_nil_r.
  - simpl map. rewrite concat_empty_cons.
    match goal with
    | Hk : SegmentText key _ |- _ => destruct Hk
    end; simpl join_from; rewrite (IH _ _ _ ltac:(eassumption));
      now rewrite !append_assoc.
Qed.

(** On segments that all have a text, [join] is the concatenation of the
    texts with the separator between them. *)
Lemma join_texts (sep : string) (keys : list PropertyKey)
  (texts : list string) :
  Forall2 SegmentText keys texts ->
  JS.join sep keys = Normal (String.concat sep texts).
Proof.
  intros H. destruct H as [|key text keys texts Hk H].
  - reflexivity.
  - unfold JS.join. rewrite concat_cons.
    destruct Hk; simpl join_from; now rewrite (join_from_later _ _ _ H).
Qed.

Lemma ToString_text (key : PropertyKey) (text : string) :
  JS.ToString key = Normal text <-> SegmentText key text.
Proof.
  split.
  - destruct key; simpl; intros E; inversion E; constructor.
  - intros []; reflexivity.
Qed.

Lemma join_from_returns (sep : string) (keys : list PropertyKey) :
  forall (R : string) (k : nat) (p : string),
    join_from sep R k keys = Normal p ->
    exists texts, Forall2 SegmentText keys texts.
Proof.
  induction keys as [|key keys IH]; intros R k p E.
  - exists []. constructor.
  - simpl in E. destruct (JS.ToString key) as [text|e] eqn:Ek; simpl in E.
    + destruct (IH _ _ _ E) as [texts Ht].
      exists (text :: texts). constructor; [now apply ToString_text | exact Ht].
    + discriminate.
Qed.

(** When [join] returns, every segment had a text and the result is their
    concatenation. *)
Lemma join_returns (sep : string) (keys : list PropertyKey) (p : string) :
  JS.join sep keys = Normal p ->
  exists texts, Forall2 SegmentText keys texts /\ p = String.concat sep texts.
Proof.
  intros E. destruct (join_from_returns _ _ _ _ E) as [texts Ht].
  exists texts. split; [exact Ht|].
  rewrite (join_texts sep Ht) in E. now inversion E.
Qed.

Lemma join_from_no_symbol (sep : string) (keys : list PropertyKey) :
  forall (R : string) (k : nat),
    Forall (fun key => isSymbol key = false) keys ->
    exists p, join_from sep R k keys = Normal p.
Proof.
  induction keys as [|key keys IH]; intros R k H; inversion H; subst.
  - eexists; reflexivity.
  - simpl. destruct key; try discriminate; simpl; now apply IH.
Qed.

Lemma join_from_symbol (sep : string) (keys : list PropertyKey) :
  forall (R : string) (k : nat),
    Exists (fun key => isSymbol key = true) keys ->
    exists msg, join_from sep R k keys = Throw (TypeError msg).
Proof.
  induction keys as [|key keys IH]; intros R k H; inversion H; subst.
  - destruct key; try discriminate. simpl. eexists; reflexivity.
  - simpl. destruct (JS.ToString key) as [text|e] eqn:Ek; simpl.
    + now apply IH.
    + destruct key; try discriminate. inversion Ek. eexists; reflexivity.
Qed.


Lemma concat_two (sep a b : string) (l : list string) :
  String.concat sep (a :: b :: l) = a ++ sep ++ String.concat sep (b :: l).
Proof. reflexivity. Qed.
(* ===================================================================== *)
(** * Facts about numerals *)
(* ===================================================================== *)

Section NumeralFacts.

Import JSON.

Lemma to_uint_normal (n : N) : Decimal.unorm (N.to_uint n) = N.to_uint n.
Proof.
  pose proof (DecimalN.Unsigned.to_of (N.to_uint n)) as H.
  rewrite DecimalN.Unsigned.of_to in H. now symmetry.
Qed.

Lemma to_uint_nonnil (n : N) : N.to_uint n <> Decimal.Nil.
Proof.
  rewrite <- to_uint_normal. apply DecimalFacts.unorm_nonnil.
Qed.

Lemma NumberToString_digits (n : N) :
  JS.NumberToString n = NilEmpty.string_of_uint (N.to_uint n).
Proof.
  unfold JS.NumberToString, NilZero.string_of_uint.
  pose proof (to_uint_nonnil n) as H.
  destruct (N.to_uint n); [contradiction|reflexivity..].
Qed.

Lemma allDigits_uint (d : Decimal.uint) :
  allDigits (NilEmpty.string_of_uint d) = true.
Proof. induction d; simpl; auto. Qed.

Lemma allDigits_NumberToString (n : N) :
  allDigits (JS.NumberToString n) = true.
Proof. rewrite NumberToString_digits. apply allDigits_uint. Qed.

Lemma NumberToString_nonempty (n : N) : JS.NumberToString n <> "".
Proof.
  rewrite NumberToString_digits.
  pose proof (to_uint_nonnil n) as H.
  destruct (N.to_uint n); [contradiction|..]; discriminate.
Qed.

(** The numeral of a positive number does not begin with a zero. *)
Lemma NumberToString_positive (p : positive) :
  exists c r,
    JS.NumberToString (Npos p) = String c r
    /\ isDigitChar c = true /\ Ascii.eqb c "0" = false
    /\ allDigits r = true.
Proof.
  pose proof (allDigits_NumberToString (Npos p)) as Hd.
  rewrite NumberToString_digits in *.
  pose proof (to_uint_normal (Npos p)) as Hn.
  pose proof (DecimalN.Unsigned.of_to (Npos p)) as Hof.
  destruct (N.to_uint (Npos p)) as [|d|d|d|d|d|d|d|d|d|d];
    simpl in Hd |- *;
    try (eexists; eexists; repeat split; exact Hd).
  - discriminate Hof.
  - exfalso. unfold Decimal.unorm in Hn. simpl in Hn.
    destruct (Decimal.nzhead d) eqn:Ed;
      try discriminate Hn.
    + inversion Hn; subst. discriminate Hof.
    + eapply DecimalFacts.nzhead_nonzero. rewrite Ed. exact Hn.
Qed.

Lemma allDigits_app (a b : string) :
  allDigits (a ++ b) = allDigits a && allDigits b.
Proof.
  induction a as [|c a IH]; simpl; [reflexivity|].
  now rewrite IH, andb_assoc.
Qed.

Lemma allDigits_zeros (n : nat) : allDigits (JS.zeros n) = true.
Proof. induction n; simpl; auto. Qed.

Lemma allDigits_take (n : nat) (s : string) :
  allDigits s = true -> allDigits (JS.take n s) = true.
Proof.
  revert s. induction n as [|n IH]; intros [|c s]; simpl; auto.
  intros H. apply andb_true_iff in H as [Hc Hs]. rewrite Hc. now apply IH.
Qed.

Lemma allDigits_drop (n : nat) (s : string) :
  allDigits s = true -> allDigits (JS.drop n s) = true.
Proof.
  revert s. induction n as [|n IH]; intros [|c s]; simpl; auto.
  intros H. apply andb_true_iff in H as [Hc Hs]. now apply IH.
Qed.

Lemma drop_nonempty (n : nat) (s : string) :
  n < String.length s -> JS.drop n s <> "".
Proof.
  revert s. induction n as [|n IH]; intros [|c s]; simpl; intros H;
    try lia; try discriminate.
  apply IH. lia.
Qed.

Lemma allDigits_stripZeros (s : string) :
  allDigits s = true -> allDigits (JS.stripZeros s) = true.
Proof.
  induction s as [|c s IH]; simpl; intros H; [reflexivity|].
  apply andb_true_iff in H as [Hc Hs]. specialize (IH Hs).
  destruct (JS.stripZeros s).
  - destruct (Ascii.eqb c "0"); simpl; [reflexivity | now rewrite Hc].
  - simpl in *. now rewrite Hc.
Qed.

(** The digits of a positive number: a digit that is not zero, then
    digits. *)
Lemma digitsOf_shape (p : positive) :
  exists c r,
    JS.digitsOf p = String c r
    /\ isDigitChar c = true /\ Ascii.eqb c "0" = false
    /\ allDigits r = true.
Proof.
  unfold JS.digitsOf.
  destruct (NumberToString_positive p) as (c & r & E & Hc & Hz & Hr).
  rewrite E. simpl.
  pose proof (allDigits_stripZeros r Hr) as Hs.
  destruct (JS.stripZeros r) as [|c' r'].
  - rewrite Hz. exists c, "". repeat split; assumption.
  - exists c, (String c' r'). repeat split; assumption.
Qed.

Lemma FiniteToString_nonempty (p : positive) (n : Z) :
  JS.FiniteToString p n <> "".
Proof.
  unfold JS.FiniteToString.
  destruct (digitsOf_shape p) as (c & r & E & _). rewrite E.
  destruct (_ && _)%bool; [discriminate|].
  destruct (_ && _)%bool.
  - destruct (Z.to_nat n); discriminate.
  - destruct (_ && _)%bool; [discriminate|].
    destruct r; discriminate.
Qed.

Lemma Number_toString_nonempty (x : JS.Number) : JS.Number_toString x <> "".
Proof.
  destruct x as [ | [|] | | [|] p n ]; try discriminate; simpl.
  apply FiniteToString_nonempty.
Qed.

(** Stripping the trailing zeros and putting them back. *)
Lemma stripZeros_zeros (d : string) :
  JS.stripZeros d
    ++ JS.zeros (String.length d - String.length (JS.stripZeros d))
  = d.
Proof.
  induction d as [|c r IH]; [reflexivity|].
  simpl JS.stripZeros. destruct (JS.stripZeros r) as [|c' r'] eqn:E.
  - simpl in IH. rewrite Nat.sub_0_r in IH.
    destruct (Ascii.eqb_spec c "0") as [->|_]; simpl.
    + now rewrite IH.
    + now rewrite Nat.sub_0_r, IH.
  - simpl. simpl in IH. now rewrite IH.
Qed.

Lemma length_stripZeros (d : string) :
  String.length (JS.stripZeros d) <= String.length d.
Proof.
  induction d as [|c r IH]; simpl; [lia|].
  destruct (JS.stripZeros r); [destruct (Ascii.eqb c "0")|]; simpl in *; lia.
Qed.

(** A positive integer of up to 21 digits, taken as a number, is written
    as its plain decimal numeral: so is every array index. *)
Lemma Number_toString_integer (p : positive) :
  String.length (JS.NumberToString (Npos p)) <= 21 ->
  JS.Number_toString (JS.ofZ (Zpos p)) = JS.NumberToString (Npos p).
Proof.
  intros H. simpl. unfold JS.FiniteToString, JS.digitsOf.
  pose proof (length_stripZeros (JS.NumberToString (Npos p))) as Hl.
  pose proof (stripZeros_zeros (JS.NumberToString (Npos p))) as Hz.
  set (d := JS.NumberToString (Npos p)) in *.
  destruct ((Z.of_nat (String.length (JS.stripZeros d))
               <=? Z.of_nat (String.length d))%Z
            && (Z.of_nat (String.length d) <=? 21)%Z)%bool eqn:B.
  - rewrite <- Nat2Z.inj_sub by exact Hl. now rewrite Nat2Z.id.
  - apply andb_false_iff in B as [B|B];
      [apply Z.leb_gt in B | apply Z.leb_gt in B]; lia.
Qed.

Example Number_toString_samples :
  map JS.Number_toString
    [JS.Finite false 15 1; JS.Finite true 1 1; JS.Finite false 1 22;
     JS.Finite false 1 21; JS.Finite false 123456 (-6);
     JS.Finite false 123456 (-5); JS.Finite true 5 0;
     JS.ofZ 9007199254740991; JS.ofZ (-150); JS.Zero; JS.NaN;
     JS.Infinity true]
  = ["1.5"; "-1"; "1e+21"; "100000000000000000000"; "1.23456e-7";
     "0.00000123456"; "-0.5"; "9007199254740991"; "-150"; "0"; "NaN";
     "-Infinity"].
Proof. reflexivity. Qed.

End NumeralFacts.

(* ===================================================================== *)
(** * Facts about [JSON.stringify] and the reader *)
(* ===================================================================== *)

Section JsonFacts.

Import JSON.

Local Open Scope list_scope.

Lemma text_app (a b : string) : text (a ++ b)%string = text a ++ text b.
Proof. induction a as [|c a IH]; simpl; [reflexivity | now rewrite IH]. Qed.

Lemma isChar_codeUnit (a c : ascii) : isChar a (codeUnit c) = Ascii.eqb c a.
Proof. reflexivity. Qed.

Lemma isDigit_codeUnit (c : ascii) : isDigit (codeUnit c) = isDigitChar c.
Proof. reflexivity. Qed.

(** ** Numerals *)

Lemma spanDigits_text (ds : string) (rest : Text) :
  allDigits ds = true -> startsWithDigit rest = false ->
  spanDigits (text ds ++ rest) = (text ds, rest).
Proof.
  intros Hd Hr. induction ds as [|c ds IH]; simpl in *.
  - destruct rest as [|u rest]; simpl in *; [reflexivity | now rewrite Hr].
  - apply andb_true_iff in Hd as [Hc Hd].
    rewrite isDigit_codeUnit, Hc, (IH Hd). reflexivity.
Qed.

Lemma someDigits_text (ds : string) (rest : Text) :
  allDigits ds = true -> ds <> ""%string -> startsWithDigit rest = false ->
  someDigits (text ds ++ rest) = Some (text ds, rest).
Proof.
  intros Hd Hn Hr. unfold someDigits. rewrite (@spanDigits_text _ _ Hd Hr).
  destruct ds; [contradiction | reflexivity].
Qed.

Lemma continuesNumber_digit (rest : Text) :
  continuesNumber rest = false -> startsWithDigit rest = false.
Proof.
  destruct rest as [|u rest]; simpl; [reflexivity|].
  intros H. now destruct (isDigit u).
Qed.

Lemma readFraction_stop (rest : Text) :
  continuesNumber rest = false -> readFraction rest = Some ([], rest).
Proof.
  destruct rest as [|u rest]; simpl; [reflexivity|].
  intros H. destruct (isChar "." u); [|reflexivity].
  rewrite orb_true_r in H. discriminate H.
Qed.

Lemma readExponent_stop (rest : Text) :
  continuesNumber rest = false -> readExponent rest = Some ([], rest).
Proof.
  destruct rest as [|u rest]; simpl; [reflexivity|].
  intros H. destruct (isChar "e" u); [now rewrite !orb_true_r in H|].
  destruct (isChar "E" u); [now rewrite !orb_true_r in H|].
  reflexivity.
Qed.

Lemma readFraction_point (f : string) (rest : Text) :
  allDigits f = true -> f <> ""%string -> startsWithDigit rest = false ->
  readFraction (text ("." ++ f)%string ++ rest)
  = Some (text ("." ++ f)%string, rest).
Proof.
  intros Hd Hn Hr. simpl.
  change (isChar "." (codeUnit ".")) with true. cbv iota.
  now rewrite (@someDigits_text _ _ Hd Hn Hr).
Qed.

Lemma readExponent_exponentPart (e : Z) (rest : Text) :
  startsWithDigit rest = false ->
  readExponent (text (JS.exponentPart e) ++ rest)
  = Some (text (JS.exponentPart e), rest).
Proof.
  intros Hr. unfold JS.exponentPart.
  pose proof (@someDigits_text (JS.NumberToString (Z.abs_N e)) rest
                (allDigits_NumberToString _) (@NumberToString_nonempty _) Hr)
    as H.
  destruct (e <? 0)%Z; simpl; now rewrite H.
Qed.

(** A numeral in the shape [Number::toString] gives it: a digit, digits
    after it unless it is a zero, a fraction or none, an exponent or
    none. *)
Lemma readUnsigned_shape (c : ascii) (ds fs es : string) (rest : Text) :
  isDigitChar c = true ->
  Ascii.eqb c "0" = false \/ ds = ""%string ->
  allDigits ds = true ->
  fs = ""%string
  \/ (exists f, fs = ("." ++ f)%string /\ f <> ""%string
                /\ allDigits f = true) ->
  es = ""%string \/ (exists e, es = JS.exponentPart e) ->
  continuesNumber rest = false ->
  readUnsigned (text (String c (ds ++ fs ++ es)%string) ++ rest)
  = Some (text (String c (ds ++ fs ++ es)%string), rest).
Proof.
  intros Hc Hz Hds Hfs Hes Hrest.
  pose proof (@continuesNumber_digit _ Hrest) as Hrd.
  assert (He : readExponent (text es ++ rest) = Some (text es, rest)).
  { destruct Hes as [->|[e ->]].
    - now apply readExponent_stop.
    - now apply readExponent_exponentPart. }
  assert (Hed : startsWithDigit (text es ++ rest) = false).
  { destruct Hes as [->|[e ->]]; [exact Hrd|].
    unfold JS.exponentPart. reflexivity. }
  assert (Hf : readFraction (text fs ++ text es ++ rest)
               = Some (text fs, text es ++ rest)).
  { destruct Hfs as [->|(f & -> & Hn & Hd)].
    - destruct Hes as [->|[e ->]].
      + now apply readFraction_stop.
      + unfold JS.exponentPart. reflexivity.
    - now apply readFraction_point. }
  assert (Hfd : startsWithDigit (text fs ++ text es ++ rest) = false).
  { destruct Hfs as [->|(f & -> & _)]; [exact Hed | reflexivity]. }
  assert (Hi : readInteger (codeUnit c :: text ds ++ text fs ++ text es ++ rest)
               = Some (codeUnit c :: text ds, text fs ++ text es ++ rest)).
  { unfold readInteger. rewrite isChar_codeUnit, isDigit_codeUnit, Hc.
    destruct Hz as [Hz | ->].
    - rewrite Hz, (@spanDigits_text _ _ Hds Hfd). reflexivity.
    - destruct (Ascii.eqb c "0"); [reflexivity|].
      simpl text. simpl app.
      pose proof (@spanDigits_text "" _ eq_refl Hfd) as Hs. simpl in Hs.
      rewrite Hs. reflexivity. }
  unfold readUnsigned.
  change (text (String c (ds ++ fs ++ es)%string))
    with (codeUnit c :: text (ds ++ fs ++ es)%string).
  rewrite !text_app, <- !app_comm_cons, <- ?app_assoc.
  rewrite Hi, Hf, He. reflexivity.
Qed.

Lemma take_drop (n : nat) (s : string) :
  (JS.take n s ++ JS.drop n s)%string = s.
Proof.
  revert s. induction n as [|n IH]; intros [|c s]; simpl; try reflexivity.
  now rewrite IH.
Qed.

Lemma readUnsigned_Finite (p : positive) (n : Z) (rest : Text) :
  continuesNumber rest = false ->
  readUnsigned (text (JS.FiniteToString p n) ++ rest)
  = Some (text (JS.FiniteToString p n), rest).
Proof.
  intros Hrest. unfold JS.FiniteToString.
  destruct (digitsOf_shape p) as (c & r & E & Hc & Hz & Hr). rewrite E.
  destruct (_ && _)%bool eqn:B1.
  - (* an integer *)
    pose proof (@readUnsigned_shape c
                  (r ++ JS.zeros (Z.to_nat (n - Z.of_nat (String.length (String c r)))))%string
                  "" "" rest Hc (or_introl Hz)) as H.
    rewrite !append_nil_r in H. apply H; auto.
    rewrite allDigits_app, Hr. apply allDigits_zeros.
  - destruct ((0 <? n)%Z && (n <=? 21)%Z)%bool eqn:B2.
    + (* digits on both sides of the point *)
      apply andb_true_iff in B2 as [Hn0 Hn21].
      apply andb_false_iff in B1.
      assert (Hn : (0 < n < Z.of_nat (String.length (String c r)))%Z) by
        (destruct B1 as [B1|B1]; lia).
      destruct (Z.to_nat n) as [|m] eqn:En; [lia|].
      simpl JS.take. simpl JS.drop.
      pose proof (@readUnsigned_shape c (JS.take m r)
                    ("." ++ JS.drop m r)%string "" rest Hc (or_introl Hz))
        as H.
      rewrite !append_nil_r in H. apply H; auto.
      * now apply allDigits_take.
      * right. exists (JS.drop m r). repeat split.
        -- apply drop_nonempty. simpl in Hn. lia.
        -- now apply allDigits_drop.
    + destruct ((-6 <? n)%Z && (n <=? 0)%Z)%bool eqn:B3.
      * (* a fraction below one *)
        pose proof (@readUnsigned_shape "0" ""
                      ("." ++ JS.zeros (Z.to_nat (- n)) ++ String c r)%string
                      "" rest eq_refl (or_intror eq_refl) eq_refl) as H.
        rewrite !append_nil_r in H. apply H; auto.
        right. eexists. repeat split.
        -- destruct (JS.zeros _); discriminate.
        -- rewrite allDigits_app, allDigits_zeros. simpl. now rewrite Hc.
      * (* with an exponent *)
        destruct r as [|c' r'].
        -- apply (@readUnsigned_shape c "" "" (JS.exponentPart (n - 1))
                    rest Hc (or_intror eq_refl) eq_refl); auto.
           right. now eexists.
        -- apply (@readUnsigned_shape c "" ("." ++ String c' r')%string
                    (JS.exponentPart (n - 1)) rest Hc (or_intror eq_refl)
                    eq_refl); auto.
           ++ right. eexists. repeat split; [discriminate | exact Hr].
           ++ right. now eexists.
Qed.

(** The numeral of a finite number that is not zero begins with a
    digit. *)
Lemma FiniteToString_head (p : positive) (n : Z) :
  exists c t, JS.FiniteToString p n = String c t /\ isDigitChar c = true.
Proof.
  unfold JS.FiniteToString.
  destruct (digitsOf_shape p) as (c & r & E & Hc & _). rewrite E.
  destruct (_ && _)%bool; [eexists; eexists; split; [reflexivity|exact Hc]|].
  destruct ((0 <? n)%Z && (n <=? 21)%Z)%bool eqn:B2.
  { apply andb_true_iff in B2 as [Hn _].
    destruct (Z.to_nat n) eqn:En; [lia|].
    eexists; eexists; split; [reflexivity|exact Hc]. }
  destruct ((-6 <? n)%Z && (n <=? 0)%Z)%bool;
    [eexists; eexists; split; reflexivity|].
  destruct r; eexists; eexists; (split; [reflexivity|exact Hc]).
Qed.

Lemma digit_not_minus (c : ascii) :
  isDigitChar c = true -> Ascii.eqb c "-" = false.
Proof.
  destruct c as [[] [] [] [] [] [] [] []]; intros H; try discriminate H;
    reflexivity.
Qed.

(** The numeral of a finite number is read as it is written. *)
Lemma readNumber_Number (x : JS.Number) (rest : Text) :
  isFinite x = true -> continuesNumber rest = false ->
  readNumber (text (JS.Number_toString x) ++ rest)
  = Some (text (JS.Number_toString x), rest).
Proof.
  intros Hx Hrest.
  destruct x as [ | neg | | neg p n ]; try discriminate Hx.
  - simpl. unfold readUnsigned. simpl.
    now rewrite (@readFraction_stop _ Hrest), (@readExponent_stop _ Hrest).
  - pose proof (@readUnsigned_Finite p n rest Hrest) as H.
    destruct neg; simpl JS.Number_toString.
    + simpl. now rewrite H.
    + change ("" ++ JS.FiniteToString p n)%string
        with (JS.FiniteToString p n).
      destruct (FiniteToString_head p n) as (c & t & E & Hc).
      rewrite E in *. simpl text in *. simpl app in *.
      unfold readNumber. rewrite isChar_codeUnit, (digit_not_minus _ Hc).
      exact H.
Qed.

(** The first code unit of a numeral opens a value. *)
Lemma Number_toString_opens (x : JS.Number) :
  isFinite x = true ->
  exists u s,
    text (JS.Number_toString x) = u :: s
    /\ (isDigit u || isChar "-" u = true).
Proof.
  intros Hx. destruct x as [ | neg | | [|] p n ]; try discriminate Hx;
    try (eexists; eexists; split; reflexivity).
  simpl. destruct (FiniteToString_head p n) as (c & t & E & Hc). rewrite E.
  eexists; eexists; split; [reflexivity|].
  now rewrite isDigit_codeUnit, Hc.
Qed.

End JsonFacts.

(* ===================================================================== *)
(** * Facts about string literals *)
(* ===================================================================== *)

Section LiteralFacts.

Import JSON.

Local Open Scope list_scope.

(** A code unit is below U+0100 or it is none of the characters of the
    grammar. *)
Lemma CodeUnit_cases (u : CodeUnit) :
  (exists c, u = codeUnit c) \/ Ascii.eqb (high u) zero = false.
Proof.
  destruct u as [h l]. simpl.
  destruct (Ascii.eqb_spec h zero) as [->|_]; [left; now exists l | now right].
Qed.

Lemma isChar_high (a : ascii) (u : CodeUnit) :
  Ascii.eqb (high u) zero = false -> isChar a u = false.
Proof. unfold isChar. now intros ->. Qed.

Lemma isControl_high (u : CodeUnit) :
  Ascii.eqb (high u) zero = false -> isControl u = false.
Proof. unfold isControl. now intros ->. Qed.

Lemma isWhitespace_high (u : CodeUnit) :
  Ascii.eqb (high u) zero = false -> isWhitespace u = false.
Proof. intros H. unfold isWhitespace. now rewrite !(@isChar_high _ _ H). Qed.

Lemma surrogate_high (u : CodeUnit) :
  isLeadingSurrogate u || isTrailingSurrogate u = true ->
  Ascii.eqb (high u) zero = false.
Proof.
  destruct u as [h l]. unfold isLeadingSurrogate, isTrailingSurrogate.
  simpl high. destruct (Ascii.eqb_spec h zero) as [->|]; [|reflexivity].
  intros H. discriminate H.
Qed.

(** One step of the reader of literals. *)
Lemma readStringBody_cons (c : CodeUnit) (s' : Text) :
  readStringBody (c :: s')
  = if isChar dquote c then Some ([], s')
    else if isChar backslash c then
      match s' with
      | [] => None
      | e :: s'' =>
          if isChar "u" e then
            match s'' with
            | h1 :: h2 :: h3 :: h4 :: rest =>
                match readHex4 h1 h2 h3 h4 with
                | Some u => prefixed u (readStringBody rest)
                | None => None
                end
            | _ => None
            end
          else
            match readEscape e with
            | Some u => prefixed u (readStringBody s'')
            | None => None
            end
      end
    else if isControl c then None
    else prefixed c (readStringBody s').
Proof. reflexivity. Qed.

(** A code unit from U+0100 on is read as it is. *)
Lemma readStringBody_high (u : CodeUnit) (r : Text) :
  Ascii.eqb (high u) zero = false ->
  readStringBody (u :: r) = prefixed u (readStringBody r).
Proof.
  intros H.
  now rewrite readStringBody_cons, !(@isChar_high _ _ H), (@isControl_high _ H).
Qed.

Lemma readStringBody_low (c : ascii) (r : Text) :
  readStringBody (QuoteUnit (codeUnit c) ++ r)
  = prefixed (codeUnit c) (readStringBody r).
Proof.
  destruct c as [[] [] [] [] [] [] [] []]; reflexivity.
Qed.

Lemma QuoteUnit_high (u : CodeUnit) :
  Ascii.eqb (high u) zero = false -> QuoteUnit u = [u].
Proof. unfold QuoteUnit. now intros ->. Qed.

Lemma readStringBody_QuoteUnit (u : CodeUnit) (r : Text) :
  readStringBody (QuoteUnit u ++ r) = prefixed u (readStringBody r).
Proof.
  destruct (CodeUnit_cases u) as [[c ->]|H].
  - apply readStringBody_low.
  - rewrite (@QuoteUnit_high _ H). now apply readStringBody_high.
Qed.

Lemma readHexByte_hexByte (c : ascii) :
  readHexByte (codeUnit (hexDigit (N_of_ascii c / 16)))
    (codeUnit (hexDigit (N_of_ascii c mod 16)))
  = Some c.
Proof.
  destruct c as [[] [] [] [] [] [] [] []]; reflexivity.
Qed.

Lemma readStringBody_UnicodeEscape (u : CodeUnit) (r : Text) :
  readStringBody (UnicodeEscape u ++ r) = prefixed u (readStringBody r).
Proof.
  destruct u as [h l]. unfold UnicodeEscape, hexByte. simpl high. simpl low.
  simpl app. rewrite readStringBody_cons.
  change (isChar dquote (codeUnit backslash)) with false.
  change (isChar backslash (codeUnit backslash)) with true.
  change (isChar "u" (codeUnit "u")) with true. cbv iota.
  unfold readHex4. now rewrite !readHexByte_hexByte.
Qed.

Lemma QuoteBody_cons (u : CodeUnit) (s' : Text) :
  QuoteBody (u :: s')
  = if isLeadingSurrogate u then
      match s' with
      | v :: s'' =>
          if isTrailingSurrogate v then u :: v :: QuoteBody s''
          else UnicodeEscape u ++ QuoteBody s'
      | [] => UnicodeEscape u
      end
    else if isTrailingSurrogate u then UnicodeEscape u ++ QuoteBody s'
    else QuoteUnit u ++ QuoteBody s'.
Proof. reflexivity. Qed.

(** A literal reads back. *)
Lemma readStringBody_QuoteBody_bounded (n : nat) :
  forall (s rest : Text),
    length s <= n ->
    readStringBody (QuoteBody s ++ codeUnit dquote :: rest) = Some (s, rest).
Proof.
  induction n as [|n IH]; intros s rest Hn.
  - destruct s; [reflexivity | simpl in Hn; lia].
  - destruct s as [|u s]; [reflexivity|]. simpl in Hn.
    rewrite QuoteBody_cons.
    destruct (isLeadingSurrogate u) eqn:Hl.
    + assert (Hu : Ascii.eqb (high u) zero = false)
        by (apply surrogate_high; now rewrite Hl).
      destruct s as [|v s].
      * now rewrite readStringBody_UnicodeEscape.
      * destruct (isTrailingSurrogate v) eqn:Ht.
        -- assert (Hv : Ascii.eqb (high v) zero = false)
             by (apply surrogate_high; rewrite Ht; apply orb_true_r).
           rewrite <- !app_comm_cons.
           rewrite (@readStringBody_high _ _ Hu), (@readStringBody_high _ _ Hv).
           rewrite IH by (simpl in Hn; lia). reflexivity.
        -- rewrite <- app_assoc, readStringBody_UnicodeEscape.
           rewrite IH by lia. reflexivity.
    + destruct (isTrailingSurrogate u).
      * rewrite <- app_assoc, readStringBody_UnicodeEscape.
        rewrite IH by lia. reflexivity.
      * rewrite <- app_assoc, readStringBody_QuoteUnit.
        rewrite IH by lia. reflexivity.
Qed.

Lemma readStringBody_QuoteBody (s rest : Text) :
  readStringBody (QuoteBody s ++ codeUnit dquote :: rest) = Some (s, rest).
Proof. now apply (@readStringBody_QuoteBody_bounded (length s)). Qed.

End LiteralFacts.

(* ===================================================================== *)
(** * Reading back what [JSON.stringify] writes *)
(* ===================================================================== *)

Section ReaderFacts.

Import JSON.

Local Open Scope list_scope.

(** Induction on values, with the hypothesis on every element and on
    every member value. *)
Lemma Json_induction (P : Json -> Prop) :
  P JUndefined ->
  P JNull ->
  (forall b, P (JBool b)) ->
  (forall x, P (JNumber x)) ->
  (forall s, P (JString s)) ->
  (forall elements, Forall P elements -> P (JArray elements)) ->
  (forall members,
      Forall (fun m => P (snd m)) members -> P (JObject members)) ->
  (forall e, P (JThrowing e)) ->
  forall v, P v.
Proof.
  intros Hundef Hnull Hbool Hnum Hstr Harr Hobj Hthrow.
  fix IH 1. intros [ | | b | x | s | elements | members | e ].
  - exact Hundef.
  - exact Hnull.
  - apply Hbool.
  - apply Hnum.
  - apply Hstr.
  - apply Harr. induction elements as [|x xs IHxs]; constructor.
    + apply IH.
    + exact IHxs.
  - apply Hobj. induction members as [|m ms IHms]; constructor.
    + apply IH.
    + exact IHms.
  - apply Hthrow.
Qed.

(** ** What is written of an array and of an object *)

Lemma SerializeJSONProperty_elementText (gap indent : Text) (v : Json) :
  SerializeJSONProperty gap indent v
  = if isUndefined v then None else Some (elementText gap indent v).
Proof.
  unfold elementText.
  destruct v as [ | | [|] | x | s | elements | members | e ]; reflexivity.
Qed.

Lemma partial_written (gap indent : Text) (members : list (Text * Json)) :
  flat_map (fun m =>
              match SerializeJSONProperty gap indent (snd m) with
              | Some strP => [member gap (fst m) strP]
              | None => []
              end) members
  = map (fun m => member gap (fst m) (elementText gap indent (snd m)))
      (written members).
Proof.
  induction members as [|m ms IH]; [reflexivity|].
  simpl flat_map. unfold written in *. simpl filter.
  rewrite IH, SerializeJSONProperty_elementText.
  destruct (isUndefined (snd m)); reflexivity.
Qed.

Lemma elementText_array (gap indent : Text) (elements : list Json) :
  elementText gap indent (JArray elements)
  = bracket "[" "]" gap (indent ++ gap) indent
      (map (elementText gap (indent ++ gap)) elements).
Proof. reflexivity. Qed.

Lemma elementText_object (gap indent : Text) (members : list (Text * Json)) :
  elementText gap indent (JObject members)
  = bracket "{" "}" gap (indent ++ gap) indent
      (map (fun m => member gap (fst m)
                       (elementText gap (indent ++ gap) (snd m)))
         (written members)).
Proof.
  unfold elementText. simpl SerializeJSONProperty.
  now rewrite partial_written.
Qed.

Lemma SerializeJSONObject_elementText (gap indent : Text)
  (members : list (Text * Json)) :
  SerializeJSONObject gap indent members
  = elementText gap indent (JObject members).
Proof. reflexivity. Qed.

Lemma tree_object (members : list (Text * Json)) :
  tree (JObject members)
  = TObject (map (fun m => (fst m, tree (snd m))) (written members)).
Proof.
  simpl. f_equal. unfold written.
  induction members as [|m ms IH]; [reflexivity|].
  simpl. rewrite IH. destruct (isUndefined (snd m)); reflexivity.
Qed.

Lemma Forall_written (P : Text * Json -> Prop) (members : list (Text * Json)) :
  Forall P members -> Forall P (written members).
Proof.
  intros H. apply Forall_forall. intros m Hm.
  apply filter_In in Hm as [Hm _].
  revert m Hm. now apply Forall_forall.
Qed.

Lemma weight_written (members : list (Text * Json)) :
  fold_right (fun m acc =>
                if isUndefined (snd m) then acc
                else S (weight (snd m) + acc)) 0 members
  = fold_right (fun m acc => S (weight (snd m) + acc)) 0 (written members).
Proof.
  unfold written. induction members as [|m ms IH]; simpl; [reflexivity|].
  destruct (isUndefined (snd m)); simpl; now rewrite IH.
Qed.

(** ** Whitespace *)

Lemma skipWhitespace_blank (ws s : Text) :
  blank ws = true -> skipWhitespace (ws ++ s) = skipWhitespace s.
Proof.
  induction ws as [|c ws IH]; simpl; intros H.
  - reflexivity.
  - apply andb_true_iff in H as [Hc Hws]. rewrite Hc. now apply IH.
Qed.

Lemma blank_app (a b : Text) :
  blank a = true -> blank b = true -> blank (a ++ b) = true.
Proof.
  induction a as [|c a IH]; simpl; intros Ha Hb.
  - exact Hb.
  - apply andb_true_iff in Ha as [Hc Ha]. rewrite Hc. now apply IH.
Qed.

Lemma blank_spaces (n : nat) : blank (spaces n) = true.
Proof. induction n; simpl; [reflexivity | exact IHn]. Qed.

Lemma opensValue_high (u : CodeUnit) :
  Ascii.eqb (high u) zero = false -> opensValue u = false.
Proof.
  intros H. unfold opensValue, isDigit.
  now rewrite H, !(@isChar_high _ _ H).
Qed.

Lemma opensValue_low (c : ascii) :
  opensValue (codeUnit c) = true ->
  isWhitespace (codeUnit c) = false
  /\ Ascii.eqb c "]" = false /\ Ascii.eqb c "}" = false
  /\ Ascii.eqb c "," = false /\ Ascii.eqb c ":" = false
  /\ Ascii.eqb c "." = false /\ Ascii.eqb c "e" = false
  /\ Ascii.eqb c "E" = false.
Proof.
  destruct c as [[] [] [] [] [] [] [] []]; intros H;
    try discriminate H; repeat split.
Qed.

Lemma opensValue_facts (u : CodeUnit) :
  opensValue u = true ->
  isWhitespace u = false
  /\ isChar "]" u = false /\ isChar "}" u = false
  /\ isChar "," u = false /\ isChar ":" u = false.
Proof.
  intros H. destruct (CodeUnit_cases u) as [[c ->]|Hh].
  - destruct (opensValue_low c H) as (? & ? & ? & ? & ? & _).
    now rewrite !isChar_codeUnit.
  - rewrite (opensValue_high _ Hh) in H. discriminate H.
Qed.

Lemma whitespace_continues (u : CodeUnit) :
  isWhitespace u = true ->
  isDigit u || isChar "." u || isChar "e" u || isChar "E" u = false.
Proof.
  destruct (CodeUnit_cases u) as [[c ->]|Hh].
  - destruct c as [[] [] [] [] [] [] [] []]; intros H;
      try discriminate H; reflexivity.
  - now rewrite (@isWhitespace_high _ Hh).
Qed.

(** After blank text and a bracket or a comma, a numeral has ended. *)
Lemma continuesNumber_blank (t : Text) (u : CodeUnit) (r : Text) :
  blank t = true ->
  isDigit u || isChar "." u || isChar "e" u || isChar "E" u = false ->
  continuesNumber (t ++ u :: r) = false.
Proof.
  destruct t as [|d t]; simpl; intros Ht Hc; [exact Hc|].
  apply andb_true_iff in Ht as [Hd _]. now apply whitespace_continues.
Qed.

(** ** The layout of arrays and objects *)

Lemma blank_lineBreak (gap indent : Text) :
  blank indent = true -> blank (lineBreak gap indent) = true.
Proof.
  unfold lineBreak. destruct (isEmpty gap); simpl; auto.
Qed.

Lemma bracket_layout (opening closing : ascii) (gap indent stepback p : Text)
  (ps : list Text) :
  bracket opening closing gap indent stepback (p :: ps)
  = codeUnit opening :: lineBreak gap indent
      ++ concat (codeUnit "," :: lineBreak gap indent) (p :: ps)
      ++ lineBreak gap stepback ++ [codeUnit closing].
Proof.
  unfold bracket, lineBreak. destruct (isEmpty gap); reflexivity.
Qed.

Lemma concat_pair (sep a b : Text) (l : list Text) :
  concat sep (a :: b :: l) = a ++ sep ++ concat sep (b :: l).
Proof. reflexivity. Qed.

Lemma concat_head (sep a : Text) (l : list Text) :
  exists t, concat sep (a :: l) = a ++ t.
Proof.
  destruct l as [|b l].
  - exists []. simpl. now rewrite List.app_nil_r.
  - eexists. apply concat_pair.
Qed.

Lemma isEmpty_blank (gap : Text) :
  blank (if isEmpty gap then [] else [codeUnit space]) = true.
Proof. destruct gap; reflexivity. Qed.

(** ** The first code unit of a written value *)

Lemma elementText_opens (gap indent : Text) (v : Json) :
  exists u s, elementText gap indent v = u :: s /\ opensValue u = true.
Proof.
  destruct v as [ | | [|] | x | s | elements | members | e ];
    try (eexists; eexists; split; reflexivity).
  - unfold elementText. simpl SerializeJSONProperty.
    destruct (isFinite x) eqn:Hx;
      [| eexists; eexists; split; reflexivity].
    destruct (Number_toString_opens x Hx) as (u & s & E & H).
    exists u, s. split; [exact E|].
    unfold opensValue. now rewrite H.
  - rewrite elementText_array. unfold bracket.
    destruct (map _ elements); [|destruct (isEmpty gap)];
      eexists; eexists; split; reflexivity.
  - rewrite elementText_object. unfold bracket.
    destruct (map _ (written members)); [|destruct (isEmpty gap)];
      eexists; eexists; split; reflexivity.
Qed.

(** ** One step of the reader *)

Lemma readValue_S (fuel : nat) (s : Text) :
  readValue (S fuel) s
  = match skipWhitespace s with
    | [] => None
    | c :: r =>
        if isDigit c || isChar "-" c
        then asValue TNumber (readNumber (c :: r))
        else if isChar dquote c then asValue TString (readStringBody r)
        else if isChar "n" c then
          asValue (fun _ => TNull) (option_map (pair tt) (expect "ull" r))
        else if isChar "t" c then
          asValue (fun _ => TBool true)
            (option_map (pair tt) (expect "rue" r))
        else if isChar "f" c then
          asValue (fun _ => TBool false)
            (option_map (pair tt) (expect "alse" r))
        else if isChar "[" c then
          match expect "]" (skipWhitespace r) with
          | Some rest => Some (TArray [], rest)
          | None => asValue TArray (readElements fuel r)
          end
        else if isChar "{" c then
          match expect "}" (skipWhitespace r) with
          | Some rest => Some (TObject [], rest)
          | None => asValue TObject (readMembers fuel r)
          end
        else None
    end.
Proof. reflexivity. Qed.

Lemma readElements_S (fuel : nat) (s : Text) :
  readElements (S fuel) s
  = match readValue fuel s with
    | None => None
    | Some (v, r) =>
        match skipWhitespace r with
        | [] => None
        | c :: r' =>
            if isChar "," c then consValue v (readElements fuel r')
            else if isChar "]" c then Some ([v], r')
            else None
        end
    end.
Proof. reflexivity. Qed.

Lemma readMembers_S (fuel : nat) (s : Text) :
  readMembers (S fuel) s
  = match expect (String dquote "") (skipWhitespace s) with
    | None => None
    | Some r =>
        match readStringBody r with
        | None => None
        | Some (P, r1) =>
            match expect ":" (skipWhitespace r1) with
            | None => None
            | Some r2 =>
                match readValue fuel r2 with
                | None => None
                | Some (v, r3) =>
                    match skipWhitespace r3 with
                    | [] => None
                    | c :: r4 =>
                        if isChar "," c
                        then consValue (P, v) (readMembers fuel r4)
                        else if isChar "}" c then Some ([(P, v)], r4)
                        else None
                    end
                end
            end
        end
    end.
Proof. reflexivity. Qed.

(** The reader at the three characters that open a compound token. *)
Lemma readValue_quote (fuel : nat) (r : Text) :
  readValue (S fuel) (codeUnit dquote :: r)
  = asValue TString (readStringBody r).
Proof. reflexivity. Qed.

Lemma readValue_bracket (fuel : nat) (r : Text) :
  readValue (S fuel) (codeUnit "[" :: r)
  = match expect "]" (skipWhitespace r) with
    | Some rest => Some (TArray [], rest)
    | None => asValue TArray (readElements fuel r)
    end.
Proof. reflexivity. Qed.

Lemma readValue_brace (fuel : nat) (r : Text) :
  readValue (S fuel) (codeUnit "{" :: r)
  = match expect "}" (skipWhitespace r) with
    | Some rest => Some (TObject [], rest)
    | None => asValue TObject (readMembers fuel r)
    end.
Proof. reflexivity. Qed.

Lemma readValue_blank (fuel : nat) (ws s : Text) :
  blank ws = true -> readValue fuel (ws ++ s) = readValue fuel s.
Proof.
  intros H. destruct fuel; [reflexivity|].
  now rewrite !readValue_S, (@skipWhitespace_blank _ _ H).
Qed.

(** ** Reading back what was written *)

Lemma skipWhitespace_head (c : CodeUnit) (r : Text) :
  isWhitespace c = false -> skipWhitespace (c :: r) = c :: r.
Proof. simpl. now intros ->. Qed.

Lemma readElements_layout (gap indent lead trail : Text) :
  blank gap = true -> blank indent = true ->
  blank lead = true -> blank trail = true ->
  forall (xs : list Json) (x : Json),
    Forall Reads (x :: xs) ->
    forall (rest : Text) (fuel : nat),
      fold_right (fun x acc => S (weight x + acc)) 0 (x :: xs) <= fuel ->
      readElements fuel
        (lead ++ concat (codeUnit "," :: lead)
                   (map (elementText gap indent) (x :: xs))
              ++ trail ++ codeUnit "]" :: rest)
      = Some (map tree (x :: xs), rest).
Proof.
  intros Hgap Hindent Hlead Htrail.
  induction xs as [|y xs IH]; intros x Hall rest fuel Hfuel;
    inversion Hall as [|? ? Hx Hxs]; subst;
    (destruct fuel as [|fuel]; [simpl in Hfuel; lia|]);
    rewrite readElements_S, (@readValue_blank _ _ _ Hlead).
  - simpl map. simpl concat. simpl in Hfuel.
    rewrite (Hx gap indent (trail ++ codeUnit "]" :: rest) fuel Hgap Hindent);
      [| now apply continuesNumber_blank | lia].
    rewrite (@skipWhitespace_blank _ _ Htrail). reflexivity.
  - change (map (elementText gap indent) (x :: y :: xs))
      with (elementText gap indent x
              :: elementText gap indent y :: map (elementText gap indent) xs).
    rewrite concat_pair, <- !app_assoc, <- app_comm_cons.
    simpl in Hfuel.
    rewrite (Hx gap indent _ fuel Hgap Hindent); [| reflexivity | lia].
    rewrite skipWhitespace_head by reflexivity.
    change (isChar "," (codeUnit ",")) with true. cbv iota.
    change (elementText gap indent y :: map (elementText gap indent) xs)
      with (map (elementText gap indent) (y :: xs)).
    rewrite (IH y Hxs rest fuel); [reflexivity|]. simpl. lia.
Qed.

Lemma expect_char (a : ascii) (r : Text) :
  expect (String a "") (codeUnit a :: r) = Some r.
Proof. simpl. now rewrite isChar_codeUnit, Ascii.eqb_refl. Qed.

Lemma member_shape (gap P strP R : Text) :
  member gap P strP ++ R
  = codeUnit dquote
      :: QuoteBody P
           ++ codeUnit dquote
                :: codeUnit ":"
                     :: (if isEmpty gap then [] else [codeUnit space])
                          ++ strP ++ R.
Proof.
  unfold member, QuoteJSONString.
  rewrite <- !app_comm_cons, <- !app_assoc. cbn [app].
  now rewrite <- !app_assoc.
Qed.

Lemma readMembers_layout (gap indent lead trail : Text) :
  blank gap = true -> blank indent = true ->
  blank lead = true -> blank trail = true ->
  forall (ms : list (Text * Json)) (m : Text * Json),
    Forall (fun m => Reads (snd m)) (m :: ms) ->
    forall (rest : Text) (fuel : nat),
      fold_right (fun m acc => S (weight (snd m) + acc)) 0 (m :: ms)
      <= fuel ->
      readMembers fuel
        (lead ++ concat (codeUnit "," :: lead)
                   (map (fun m => member gap (fst m)
                                    (elementText gap indent (snd m)))
                      (m :: ms))
              ++ trail ++ codeUnit "}" :: rest)
      = Some (map (fun m => (fst m, tree (snd m))) (m :: ms), rest).
Proof.
  intros Hgap Hindent Hlead Htrail.
  pose proof (isEmpty_blank gap) as Hsp.
  induction ms as [|n ms IH]; intros [P v] Hall rest fuel Hfuel;
    inversion Hall as [|? ? Hv Hms]; subst; simpl in Hv;
    (destruct fuel as [|fuel]; [simpl in Hfuel; lia|]);
    rewrite readMembers_S, (@skipWhitespace_blank _ _ Hlead).
  - simpl map. simpl concat. simpl fst. simpl snd.
    rewrite member_shape.
    rewrite skipWhitespace_head by reflexivity.
    rewrite expect_char. cbv beta iota. rewrite readStringBody_QuoteBody.
    rewrite skipWhitespace_head by reflexivity.
    rewrite expect_char. cbv beta iota. rewrite (@readValue_blank _ _ _ Hsp).
    simpl in Hfuel.
    rewrite (Hv gap indent (trail ++ codeUnit "}" :: rest) fuel Hgap Hindent);
      [| now apply continuesNumber_blank | lia].
    rewrite (@skipWhitespace_blank _ _ Htrail). reflexivity.
  - change (map ?f ((P, v) :: n :: ms))
      with (f (P, v) :: f n :: map f ms).
    cbv beta. simpl fst. simpl snd.
    rewrite concat_pair, <- !app_assoc, member_shape.
    rewrite skipWhitespace_head by reflexivity.
    rewrite expect_char. cbv beta iota. rewrite readStringBody_QuoteBody.
    rewrite skipWhitespace_head by reflexivity.
    rewrite expect_char. cbv beta iota. rewrite (@readValue_blank _ _ _ Hsp).
    simpl in Hfuel. rewrite <- app_comm_cons.
    rewrite (Hv gap indent _ fuel Hgap Hindent); [| reflexivity | lia].
    rewrite skipWhitespace_head by reflexivity.
    change (isChar "," (codeUnit ",")) with true. cbv iota.
    change (member gap (fst n) (elementText gap indent (snd n))
              :: map (fun m => member gap (fst m)
                                 (elementText gap indent (snd m)))
                   ms)
      with (map (fun m => member gap (fst m)
                            (elementText gap indent (snd m)))
              (n :: ms)).
    rewrite (IH n Hms rest fuel); [reflexivity|]. simpl. lia.
Qed.

Lemma expect_other (a : ascii) (u : CodeUnit) (r : Text) :
  isChar a u = false -> expect (String a "") (u :: r) = None.
Proof. simpl. now intros ->. Qed.

(** The text after an opening bracket is not the closing one when a value
    follows. *)
Lemma no_closing_before_value (closing : ascii) (lead gap indent : Text)
  (v : Json) (R : Text) :
  blank lead = true ->
  (forall u, opensValue u = true -> isChar closing u = false) ->
  expect (String closing "")
    (skipWhitespace (lead ++ elementText gap indent v ++ R))
  = None.
Proof.
  intros Hlead Hc. rewrite (@skipWhitespace_blank _ _ Hlead).
  destruct (elementText_opens gap indent v) as (u & s & E & Ho). rewrite E.
  rewrite <- app_comm_cons.
  rewrite skipWhitespace_head by apply (opensValue_facts u Ho).
  apply expect_other. now apply Hc.
Qed.

(** Every value reads back, at any indentation. *)
Theorem Serialize_reads (v : Json) : Reads v.
Proof.
  induction v as [ | | b | x | s | elements IH | members IH | e ]
    using Json_induction;
    intros gap indent rest fuel Hgap Hindent Hrest Hfuel;
    (destruct fuel as [|fuel]; [simpl in Hfuel; lia|]).
  - reflexivity.
  - reflexivity.
  - destruct b; reflexivity.
  - unfold elementText. simpl SerializeJSONProperty. simpl tree.
    destruct (isFinite x) eqn:Hx; [|reflexivity].
    rewrite readValue_S.
    destruct (Number_toString_opens x Hx) as (u & s & E & Ho).
    pose proof (@readNumber_Number x rest Hx Hrest) as Hr.
    rewrite E in *. rewrite <- app_comm_cons in *.
    assert (Hv : opensValue u = true) by (unfold opensValue; now rewrite Ho).
    rewrite skipWhitespace_head by apply (opensValue_facts u Hv).
    now rewrite Ho, Hr.
  - unfold elementText. simpl SerializeJSONProperty. unfold QuoteJSONString.
    rewrite <- app_comm_cons, readValue_quote, <- app_assoc.
    simpl app. now rewrite readStringBody_QuoteBody.
  - rewrite elementText_array.
    destruct elements as [|x xs]; [reflexivity|].
    change (map (elementText gap (indent ++ gap)) (x :: xs))
      with (elementText gap (indent ++ gap) x
              :: map (elementText gap (indent ++ gap)) xs).
    rewrite bracket_layout, <- app_comm_cons.
    rewrite readValue_bracket, <- !app_assoc.
    assert (Hlead : blank (lineBreak gap (indent ++ gap)) = true)
      by (apply blank_lineBreak; now apply blank_app).
    assert (Htrail : blank (lineBreak gap indent) = true)
      by now apply blank_lineBreak.
    assert (Hin : blank (indent ++ gap) = true) by now apply blank_app.
    assert (Hno : forall R,
               expect (String "]" "")
                 (skipWhitespace
                    (lineBreak gap (indent ++ gap)
                       ++ concat (codeUnit "," :: lineBreak gap (indent ++ gap))
                            (elementText gap (indent ++ gap) x
                               :: map (elementText gap (indent ++ gap)) xs)
                       ++ R))
               = None).
    { intros R.
      destruct (concat_head (codeUnit "," :: lineBreak gap (indent ++ gap))
                  (elementText gap (indent ++ gap) x)
                  (map (elementText gap (indent ++ gap)) xs)) as [t ->].
      rewrite <- app_assoc.
      apply no_closing_before_value; [exact Hlead|].
      intros u Hu. apply (opensValue_facts u Hu). }
    pose proof (@readElements_layout _ _ _ _ Hgap Hin Hlead Htrail xs x IH
                  rest) as Hr.
    change (map (elementText gap (indent ++ gap)) (x :: xs))
      with (elementText gap (indent ++ gap) x
              :: map (elementText gap (indent ++ gap)) xs) in Hr.
    simpl app. rewrite Hno, Hr; [reflexivity|]. simpl in Hfuel |- *. lia.
  - rewrite elementText_object, tree_object.
    pose proof (@Forall_written _ _ IH) as IHw.
    simpl weight in Hfuel. rewrite weight_written in Hfuel.
    destruct (written members) as [|[P v] ms]; [reflexivity|].
    change (map ?f ((P, v) :: ms)) with (f (P, v) :: map f ms) at 1.
    cbv beta. simpl fst. simpl snd.
    rewrite bracket_layout, <- app_comm_cons.
    rewrite readValue_brace, <- !app_assoc.
    assert (Hlead : blank (lineBreak gap (indent ++ gap)) = true)
      by (apply blank_lineBreak; now apply blank_app).
    assert (Htrail : blank (lineBreak gap indent) = true)
      by now apply blank_lineBreak.
    assert (Hin : blank (indent ++ gap) = true) by now apply blank_app.
    assert (Hno : forall R,
               expect (String "}" "")
                 (skipWhitespace
                    (lineBreak gap (indent ++ gap)
                       ++ concat (codeUnit "," :: lineBreak gap (indent ++ gap))
                            (member gap P
                               (elementText gap (indent ++ gap) v)
                               :: map (fun m =>
                                         member gap (fst m)
                                           (elementText gap
                                              (indent ++ gap) (snd m))) ms)
                       ++ R))
               = None).
    { intros R.
      destruct (concat_head (codeUnit "," :: lineBreak gap (indent ++ gap))
                  (member gap P (elementText gap (indent ++ gap) v))
                  (map (fun m => member gap (fst m)
                                   (elementText gap (indent ++ gap) (snd m)))
                     ms)) as [t ->].
      rewrite <- app_assoc, (@skipWhitespace_blank _ _ Hlead), member_shape.
      reflexivity. }
    pose proof (@readMembers_layout _ _ _ _ Hgap Hin Hlead Htrail ms (P, v)
                  IHw rest) as Hr.
    change (map ?f ((P, v) :: ms)) with (f (P, v) :: map f ms) in Hr at 1.
    cbv beta in Hr. simpl fst in Hr. simpl snd in Hr.
    simpl app. rewrite Hno, Hr; [reflexivity|]. simpl in Hfuel |- *. lia.
  - reflexivity.
Qed.

End ReaderFacts.

(* ===================================================================== *)
(** * [parse] after [stringify], and insignificant whitespace *)
(* ===================================================================== *)

Section TextFacts.

Import JSON.

Local Open Scope list_scope.

(** ** Fuel: the text is at least as long as the value is heavy *)

Lemma length_text_nonempty (s : string) :
  s <> ""%string -> 1 <= length (text s).
Proof. destruct s; [contradiction | simpl; lia]. Qed.

Lemma weight_le_concat (A : Type) (wt : A -> nat) (g : A -> Text)
  (sep : Text) (l : list A) :
  1 <= length sep ->
  Forall (fun a => wt a <= length (g a)) l ->
  fold_right (fun a acc => S (wt a + acc)) 0 l
  <= length (concat sep (map g l)) + 1.
Proof.
  intros Hsep H. induction H as [|a l Ha Hl IH].
  - simpl. lia.
  - destruct l as [|b l].
    + simpl. lia.
    + change (map g (a :: b :: l)) with (g a :: g b :: map g l).
      rewrite concat_pair, !length_app.
      change (g b :: map g l) with (map g (b :: l)).
      simpl fold_right in *. lia.
Qed.

Lemma length_bracket (opening closing : ascii) (gap indent stepback : Text)
  (partial : list Text) :
  length (concat (codeUnit "," :: lineBreak gap indent) partial) + 2
  <= length (bracket opening closing gap indent stepback partial).
Proof.
  destruct partial as [|p ps].
  - simpl. lia.
  - rewrite bracket_layout. simpl length. rewrite !length_app.
    simpl length. lia.
Qed.

Lemma weight_le_length (v : Json) :
  forall gap indent : Text,
    weight v <= length (elementText gap indent v).
Proof.
  induction v as [ | | b | x | s | elements IH | members IH | e ]
    using Json_induction; intros gap indent.
  - simpl. lia.
  - simpl. lia.
  - destruct b; simpl; lia.
  - unfold elementText. simpl.
    destruct (isFinite x); [|simpl; lia].
    apply length_text_nonempty, Number_toString_nonempty.
  - unfold elementText. simpl. lia.
  - rewrite elementText_array. simpl weight.
    pose proof (length_bracket "[" "]" gap (indent ++ gap) indent
                  (map (elementText gap (indent ++ gap)) elements))
      as Hb.
    pose proof (@weight_le_concat _ weight
                  (elementText gap (indent ++ gap))
                  (codeUnit "," :: lineBreak gap (indent ++ gap)) elements)
      as Hc.
    assert (Hall : Forall (fun a => weight a
                     <= length (elementText gap (indent ++ gap) a))
                     elements).
    { eapply Forall_impl; [|exact IH]. intros a Ha. apply Ha. }
    specialize (Hc ltac:(simpl; lia) Hall). lia.
  - rewrite elementText_object. simpl weight. rewrite weight_written.
    pose proof (@Forall_written _ _ IH) as IHw.
    pose proof (length_bracket "{" "}" gap (indent ++ gap) indent
                  (map (fun m => member gap (fst m)
                                   (elementText gap (indent ++ gap)
                                      (snd m))) (written members)))
      as Hb.
    pose proof (@weight_le_concat _ (fun m => weight (snd m))
                  (fun m => member gap (fst m)
                              (elementText gap (indent ++ gap) (snd m)))
                  (codeUnit "," :: lineBreak gap (indent ++ gap))
                  (written members))
      as Hc.
    assert (Hall : Forall (fun m => weight (snd m)
                     <= length
                          (member gap (fst m)
                             (elementText gap (indent ++ gap) (snd m))))
                     (written members)).
    { eapply Forall_impl; [|exact IHw]. intros m Hm. simpl in Hm.
      unfold member. rewrite !length_app. cbn [length]. rewrite length_app.
      specialize (Hm gap (indent ++ gap)).
      eapply Nat.le_trans; [exact Hm|]. lia. }
    specialize (Hc ltac:(simpl; lia) Hall). lia.
  - simpl. lia.
Qed.

(** ** [parse] after [stringify] *)

Lemma parse_elementText (v : Json) (gap : Text) :
  blank gap = true ->
  JSON.parse (elementText gap [] v) = Some (tree v).
Proof.
  intros Hgap. unfold JSON.parse.
  pose proof (@Serialize_reads v gap [] []
                (S (length (elementText gap [] v)))
                Hgap eq_refl eq_refl) as H.
  rewrite List.app_nil_r in H. rewrite H; [reflexivity|].
  pose proof (weight_le_length v gap []). lia.
Qed.

Theorem parse_stringify (v : Json) (space : N) (t : Text) :
  JSON.stringify v space = Normal (Some t) -> JSON.parse t = Some (tree v).
Proof.
  unfold JSON.stringify. destruct (thrownBy v); [discriminate|].
  rewrite SerializeJSONProperty_elementText.
  destruct (isUndefined v); [discriminate|].
  intros H. inversion H. apply parse_elementText, blank_spaces.
Qed.

Theorem parse_writeObject (members : list (Text * Json)) (space : N) :
  JSON.parse (JSON.writeObject members space)
  = Some (tree (JObject members)).
Proof.
  unfold JSON.writeObject. rewrite SerializeJSONObject_elementText.
  apply parse_elementText, blank_spaces.
Qed.

(** [JSON.stringify] on an object returns the text of the object, or
    throws what the first value that cannot be written throws. *)
Lemma stringifyObject_returns (members : list (Text * Json)) (space : N)
  (t : Text) :
  JSON.stringifyObject members space = Normal t
  <-> thrownBy (JObject members) = None
      /\ t = JSON.writeObject members space.
Proof.
  unfold JSON.stringifyObject. destruct (thrownBy (JObject members)).
  - split; [discriminate | intros [H _]; discriminate H].
  - split.
    + intros H. inversion H. split; reflexivity.
    + intros [_ ->]. reflexivity.
Qed.

Lemma stringifyObject_throws (members : list (Text * Json)) (space : N)
  (e : JS.Exception) :
  JSON.stringifyObject members space = Throw e
  <-> thrownBy (JObject members) = Some e.
Proof.
  unfold JSON.stringifyObject. destruct (thrownBy (JObject members)).
  - split; intros H; inversion H; reflexivity.
  - split; discriminate.
Qed.

(** ** Insignificant whitespace *)

Lemma minify_blank (ws s : Text) :
  blank ws = true -> minify false false (ws ++ s) = minify false false s.
Proof.
  induction ws as [|c ws IH]; simpl; intros H.
  - reflexivity.
  - apply andb_true_iff in H as [Hc Hws]. rewrite Hc. now apply IH.
Qed.

Lemma minify_inString (c : CodeUnit) (r : Text) :
  isChar backslash c = false -> isChar dquote c = false ->
  minify true false (c :: r) = c :: minify true false r.
Proof. simpl. now intros -> ->. Qed.

Lemma minify_low (c : ascii) (r : Text) :
  minify true false (QuoteUnit (codeUnit c) ++ r)
  = QuoteUnit (codeUnit c) ++ minify true false r.
Proof.
  destruct c as [[] [] [] [] [] [] [] []]; reflexivity.
Qed.

Lemma minify_QuoteUnit (u : CodeUnit) (r : Text) :
  minify true false (QuoteUnit u ++ r) = QuoteUnit u ++ minify true false r.
Proof.
  destruct (CodeUnit_cases u) as [[c ->]|H].
  - apply minify_low.
  - rewrite (@QuoteUnit_high _ H). simpl app.
    apply minify_inString; now apply isChar_high.
Qed.

Lemma minify_hexByte (c : ascii) (r : Text) :
  minify true false (hexByte c ++ r) = hexByte c ++ minify true false r.
Proof.
  destruct c as [[] [] [] [] [] [] [] []]; reflexivity.
Qed.

Lemma minify_UnicodeEscape (u : CodeUnit) (r : Text) :
  minify true false (UnicodeEscape u ++ r)
  = UnicodeEscape u ++ minify true false r.
Proof.
  unfold UnicodeEscape. rewrite <- !app_comm_cons, <- app_assoc.
  change (minify true false (codeUnit backslash :: codeUnit "u" :: ?t))
    with (codeUnit backslash :: codeUnit "u" :: minify true false t).
  now rewrite !minify_hexByte, <- app_assoc.
Qed.

Lemma minify_QuoteBody_bounded (n : nat) :
  forall s r : Text,
    length s <= n ->
    minify true false (QuoteBody s ++ codeUnit dquote :: r)
    = QuoteBody s ++ codeUnit dquote :: minify false false r.
Proof.
  induction n as [|n IH]; intros s r Hn.
  - destruct s; [reflexivity | simpl in Hn; lia].
  - destruct s as [|u s]; [reflexivity|]. simpl in Hn.
    rewrite QuoteBody_cons.
    destruct (isLeadingSurrogate u) eqn:Hl.
    + assert (Hu : Ascii.eqb (high u) zero = false)
        by (apply surrogate_high; now rewrite Hl).
      destruct s as [|v s].
      * now rewrite minify_UnicodeEscape.
      * destruct (isTrailingSurrogate v) eqn:Ht.
        -- assert (Hv : Ascii.eqb (high v) zero = false)
             by (apply surrogate_high; rewrite Ht; apply orb_true_r).
           rewrite <- !app_comm_cons.
           rewrite (@minify_inString u) by now apply isChar_high.
           rewrite (@minify_inString v) by now apply isChar_high.
           rewrite IH by (simpl in Hn; lia). reflexivity.
        -- rewrite <- app_assoc, minify_UnicodeEscape.
           rewrite IH by lia. now rewrite <- app_assoc.
    + destruct (isTrailingSurrogate u).
      * rewrite <- app_assoc, minify_UnicodeEscape.
        rewrite IH by lia. now rewrite <- app_assoc.
      * rewrite <- app_assoc, minify_QuoteUnit.
        rewrite IH by lia. now rewrite <- app_assoc.
Qed.

Lemma minify_QuoteJSONString (s r : Text) :
  minify false false (QuoteJSONString s ++ r)
  = QuoteJSONString s ++ minify false false r.
Proof.
  unfold QuoteJSONString.
  rewrite <- !app_comm_cons, <- app_assoc. cbn [app].
  change (minify false false (codeUnit dquote :: ?t))
    with (codeUnit dquote :: minify true false t).
  now rewrite (@minify_QuoteBody_bounded (length s)), <- app_assoc.
Qed.

(** A numeral holds no whitespace and no quote. *)
Lemma minify_numeralChar (c : ascii) (r : Text) :
  numeralChar c = true ->
  minify false false (codeUnit c :: r)
  = codeUnit c :: minify false false r.
Proof.
  destruct c as [[] [] [] [] [] [] [] []]; intros H; try discriminate H;
    reflexivity.
Qed.

Lemma minify_numeral (s : string) (r : Text) :
  allChars numeralChar s = true ->
  minify false false (text s ++ r) = text s ++ minify false false r.
Proof.
  induction s as [|c s IH]; intros H; [reflexivity|].
  simpl in H. apply andb_true_iff in H as [Hc Hs].
  simpl text. rewrite <- !app_comm_cons.
  now rewrite (minify_numeralChar _ _ Hc), IH.
Qed.

Lemma allChars_app (P : ascii -> bool) (a b : string) :
  allChars P (a ++ b)%string = allChars P a && allChars P b.
Proof.
  induction a as [|c a IH]; simpl; [reflexivity|].
  now rewrite IH, andb_assoc.
Qed.

Lemma allChars_impl (P Q : ascii -> bool) (s : string) :
  (forall c, P c = true -> Q c = true) ->
  allChars P s = true -> allChars Q s = true.
Proof.
  intros HPQ. induction s as [|c s IH]; simpl; [reflexivity|].
  intros H. apply andb_true_iff in H as [Hc Hs].
  now rewrite (HPQ c Hc), IH.
Qed.

Lemma allDigits_allChars (s : string) :
  allDigits s = true -> allChars numeralChar s = true.
Proof.
  induction s as [|c s IH]; simpl; [reflexivity|].
  intros H. apply andb_true_iff in H as [Hc Hs].
  unfold numeralChar at 1. now rewrite Hc, IH.
Qed.

Lemma numeralChar_exponentPart (e : Z) :
  allChars numeralChar (JS.exponentPart e) = true.
Proof.
  unfold JS.exponentPart.
  pose proof (allDigits_allChars _ (allDigits_NumberToString (Z.abs_N e)))
    as H.
  destruct (e <? 0)%Z; simpl; exact H.
Qed.

Lemma numeralChar_FiniteToString (p : positive) (n : Z) :
  allChars numeralChar (JS.FiniteToString p n) = true.
Proof.
  unfold JS.FiniteToString.
  destruct (digitsOf_shape p) as (c & r & E & Hc & _ & Hr). rewrite E.
  assert (Hs : allDigits (String c r) = true) by (simpl; now rewrite Hc).
  pose proof (allDigits_allChars _ Hs) as Hs'.
  destruct (_ && _)%bool.
  { rewrite allChars_app, Hs'.
    apply allDigits_allChars, allDigits_zeros. }
  destruct (_ && _)%bool.
  { rewrite !allChars_app.
    rewrite (allDigits_allChars _ (allDigits_take _ _ Hs)).
    rewrite (allDigits_allChars _ (allDigits_drop _ _ Hs)). reflexivity. }
  destruct (_ && _)%bool.
  { simpl. rewrite allChars_app, Hs'.
    now rewrite (allDigits_allChars _ (allDigits_zeros _)). }
  simpl in Hs'. apply andb_true_iff in Hs' as [Hc' Hr'].
  destruct r as [|c' r'].
  - simpl. rewrite Hc'. apply numeralChar_exponentPart.
  - change (allChars numeralChar
              (String c ("." ++ String c' r' ++ JS.exponentPart (n - 1)))%string)
      with (numeralChar c
            && allChars numeralChar
                 (String c' r' ++ JS.exponentPart (n - 1))%string).
    now rewrite allChars_app, Hc', Hr', numeralChar_exponentPart.
Qed.

Lemma numeralChar_Number_toString (x : JS.Number) :
  isFinite x = true -> allChars numeralChar (JS.Number_toString x) = true.
Proof.
  destruct x as [ | neg | | [|] p n ]; intros H; try discriminate H;
    try reflexivity; simpl; apply numeralChar_FiniteToString.
Qed.

(** The elements of an array or object, laid out at any indentation,
    minify to the elements separated by commas. *)
Lemma minify_layout (A : Type) (f f' : A -> Text) (lead : Text)
  (l : list A) :
  blank lead = true ->
  Forall (fun a => forall R,
              minify false false (f a ++ R)
              = f' a ++ minify false false R) l ->
  forall R,
    minify false false
      (lead ++ concat (codeUnit "," :: lead) (map f l) ++ R)
    = concat [codeUnit ","] (map f' l) ++ minify false false R.
Proof.
  intros Hlead H. induction H as [|a l Ha Hl IH]; intros R;
    rewrite (@minify_blank _ _ Hlead).
  - reflexivity.
  - destruct l as [|b l].
    + simpl. apply Ha.
    + change (map f (a :: b :: l)) with (f a :: map f (b :: l)).
      change (map f' (a :: b :: l)) with (f' a :: map f' (b :: l)).
      change (map f (b :: l)) with (f b :: map f l) at 1.
      change (map f' (b :: l)) with (f' b :: map f' l) at 1.
      rewrite !concat_pair.
      change (f b :: map f l) with (map f (b :: l)).
      change (f' b :: map f' l) with (map f' (b :: l)).
      rewrite <- !app_assoc, Ha, <- !app_comm_cons.
      change (minify false false (codeUnit "," :: ?t))
        with (codeUnit "," :: minify false false t).
      rewrite IH. reflexivity.
Qed.

Lemma bracket_compact (opening closing : ascii) (indent stepback : Text)
  (partial : list Text) :
  bracket opening closing [] indent stepback partial
  = codeUnit opening :: concat [codeUnit ","] partial ++ [codeUnit closing].
Proof. destruct partial; reflexivity. Qed.

Lemma bracket_any (opening closing : ascii) (gap indent stepback : Text)
  (partial : list Text) :
  bracket opening closing gap indent stepback partial
  = codeUnit opening
      :: (match partial with
          | [] => []
          | _ :: _ =>
              lineBreak gap indent
                ++ concat (codeUnit "," :: lineBreak gap indent) partial
                ++ lineBreak gap stepback
          end)
      ++ [codeUnit closing].
Proof.
  destruct partial as [|p ps]; [reflexivity|].
  now rewrite bracket_layout, <- !app_assoc.
Qed.

Lemma minify_bracket (A : Type) (f f' : A -> Text)
  (opening closing : ascii) (gap indent stepback indent' stepback' : Text)
  (l : list A) (R : Text) :
  blank gap = true -> blank indent = true -> blank stepback = true ->
  isWhitespace (codeUnit opening) = false -> Ascii.eqb opening dquote = false ->
  isWhitespace (codeUnit closing) = false -> Ascii.eqb closing dquote = false ->
  Forall (fun a => forall R,
              minify false false (f a ++ R)
              = f' a ++ minify false false R) l ->
  minify false false
    (bracket opening closing gap indent stepback (map f l) ++ R)
  = bracket opening closing [] indent' stepback' (map f' l)
      ++ minify false false R.
Proof.
  intros Hgap Hindent Hstep Ho Ho' Hc Hc' H.
  rewrite bracket_compact, bracket_any.
  assert (Hopen : forall t,
             minify false false (codeUnit opening :: t)
             = codeUnit opening :: minify false false t).
  { intros t. simpl. rewrite Ho. unfold isChar. simpl. now rewrite Ho'. }
  assert (Hclose : forall t,
             minify false false (codeUnit closing :: t)
             = codeUnit closing :: minify false false t).
  { intros t. simpl. rewrite Hc. unfold isChar. simpl. now rewrite Hc'. }
  rewrite <- !app_comm_cons, Hopen. f_equal.
  destruct l as [|a l].
  - simpl map. simpl concat. cbv iota. simpl app. apply Hclose.
  - change (map f (a :: l)) with (f a :: map f l).
    cbv iota.
    change (f a :: map f l) with (map f (a :: l)).
    rewrite <- !app_assoc.
    rewrite (@minify_layout _ f f' _ (a :: l));
      [| now apply blank_lineBreak | exact H].
    rewrite minify_blank by now apply blank_lineBreak.
    simpl app. f_equal. apply Hclose.
Qed.

(** Minifying a value written at any indentation gives the value
    written with no gap. *)
Theorem minify_Serialize (v : Json) :
  forall gap indent R : Text,
    blank gap = true -> blank indent = true ->
    minify false false (elementText gap indent v ++ R)
    = elementText [] [] v ++ minify false false R.
Proof.
  induction v as [ | | b | x | s | elements IH | members IH | e ]
    using Json_induction; intros gap indent R Hgap Hindent.
  - reflexivity.
  - reflexivity.
  - destruct b; reflexivity.
  - unfold elementText. simpl SerializeJSONProperty.
    destruct (isFinite x) eqn:Hx; [|reflexivity].
    apply minify_numeral. now apply numeralChar_Number_toString.
  - apply minify_QuoteJSONString.
  - rewrite !elementText_array.
    apply minify_bracket; try reflexivity; try assumption.
    + now apply blank_app.
    + eapply Forall_impl; [|exact IH]. intros a Ha R'.
      apply Ha; [assumption | now apply blank_app].
  - rewrite !elementText_object.
    apply (@minify_bracket _
             (fun m => member gap (fst m)
                         (elementText gap (indent ++ gap) (snd m)))
             (fun m => member [] (fst m)
                         (elementText [] ([] ++ []) (snd m))));
      try reflexivity; try assumption.
    + now apply blank_app.
    + eapply Forall_impl; [|exact (@Forall_written _ _ IH)].
      intros m Hm R'. simpl in Hm.
      unfold member. rewrite <- !app_assoc, minify_QuoteJSONString.
      rewrite <- !app_comm_cons.
      change (minify false false (codeUnit ":" :: ?t))
        with (codeUnit ":" :: minify false false t).
      rewrite <- !app_assoc.
      rewrite (@minify_blank _ _ (isEmpty_blank gap)).
      rewrite Hm; [|assumption | now apply blank_app].
      reflexivity.
  - reflexivity.
Qed.

(** ** The pretty text is the layout by depth *)

Lemma spaces_app (a b : nat) : spaces a ++ spaces b = spaces (a + b).
Proof. induction a as [|a IH]; simpl; [reflexivity | now rewrite IH]. Qed.

Lemma lines_concat (depth : nat) (p : Text) (ps : list Text) :
  codeUnit newline :: spaces (2 * depth)
    ++ concat (codeUnit "," :: codeUnit newline :: spaces (2 * depth))
         (p :: ps)
  = lines depth (p :: ps).
Proof.
  revert p. induction ps as [|q ps IH]; intros p.
  - reflexivity.
  - rewrite concat_pair.
    change (lines depth (p :: q :: ps))
      with (codeUnit newline :: spaces (2 * depth) ++ p
              ++ codeUnit "," :: lines depth (q :: ps)).
    rewrite <- (IH q). rewrite <- !app_comm_cons. reflexivity.
Qed.

Lemma bracket_enclosed (opening closing : ascii) (depth : nat)
  (parts : list Text) :
  bracket opening closing (spaces 2) (spaces (2 * S depth))
    (spaces (2 * depth)) parts
  = enclosed opening closing depth parts.
Proof.
  destruct parts as [|p ps]; [reflexivity|].
  unfold enclosed. rewrite <- lines_concat. unfold bracket.
  change (isEmpty (spaces 2)) with false. cbv iota.
  rewrite <- !app_comm_cons, <- !app_assoc. reflexivity.
Qed.

Lemma written_parts (f g : Text * Json -> Text)
  (members : list (Text * Json)) :
  Forall (fun m => f m = g m) members ->
  map f (written members)
  = flat_map (fun m => if isUndefined (snd m) then [] else [g m]) members.
Proof.
  unfold written. induction 1 as [|m ms Hm _ IH]; [reflexivity|].
  cbn [filter flat_map]. destruct (isUndefined (snd m)); cbn [negb map app].
  - exact IH.
  - now rewrite Hm, IH.
Qed.

Theorem elementText_indented (v : Json) :
  forall depth : nat,
    elementText (spaces 2) (spaces (2 * depth)) v = indented depth v.
Proof.
  induction v as [ | | b | x | s | elements IH | members IH | e ]
    using Json_induction; intros depth; try reflexivity.
  - rewrite elementText_array, spaces_app.
    replace (2 * depth + 2) with (2 * S depth) by lia.
    rewrite bracket_enclosed. simpl indented. f_equal.
    apply map_ext_Forall. eapply Forall_impl; [|exact IH].
    intros a Ha. apply Ha.
  - rewrite elementText_object, spaces_app.
    replace (2 * depth + 2) with (2 * S depth) by lia.
    rewrite bracket_enclosed. cbn [indented]. f_equal.
    apply written_parts. eapply Forall_impl; [|exact IH].
    intros m Hm. cbv beta in Hm. unfold member. now rewrite Hm.
Qed.

(** ** The two layouts, spelled out *)

(** With no gap, elements and members are separated by a comma and
    nothing else. *)
Lemma compact_array_layout (indent : Text) (xs : list Json) :
  elementText [] indent (JArray xs)
  = codeUnit "[" :: concat [codeUnit ","] (map (elementText [] (indent ++ [])) xs)
      ++ [codeUnit "]"].
Proof. rewrite elementText_array. apply bracket_compact. Qed.

Lemma compact_object_layout (indent : Text) (ms : list (Text * Json)) :
  elementText [] indent (JObject ms)
  = codeUnit "{"
      :: concat [codeUnit ","]
           (map (fun m => QuoteJSONString (fst m) ++ codeUnit ":"
                            :: elementText [] (indent ++ []) (snd m))
              (written ms))
      ++ [codeUnit "}"].
Proof. rewrite elementText_object. apply bracket_compact. Qed.

Example stringify_pretty_nested :
  JSON.stringify
    (JArray [JNumber (JS.ofZ 1);
             JArray [JNumber (JS.Finite false 25 1); JNumber (JS.ofZ (-3))];
             JArray []; JObject []; JBool true; JNull]) 2
  = Normal (Some (text "[
  1,
  [
    2.5,
    -3
  ],
  [],
  {},
  true,
  null
]")).
Proof. reflexivity. Qed.

Example stringify_compact_nested :
  JSON.stringify
    (JArray [JNumber (JS.ofZ 1);
             JArray [JNumber (JS.Finite false 25 1); JNumber (JS.ofZ (-3))];
             JArray []; JObject []; JBool true; JNull]) 0
  = Normal (Some (text "[1,[2.5,-3],[],{},true,null]")).
Proof. reflexivity. Qed.

(** What is left out and what is written [null]: an [undefined] member
    vanishes, an [undefined] element and a number that is not finite are
    [null], and [undefined] itself has no text.  On a BigInt, however deep,
    [JSON.stringify] throws. *)
Example stringify_undefined_and_not_finite :
  JSON.stringify
    (JObject [(text "a", JUndefined);
              (text "b", JArray [JUndefined; JNumber JS.NaN;
                                 JNumber (JS.Infinity false)]);
              (text "c", JNumber (JS.Finite false 1 22))]) 0
  = Normal (Some (text (MiniZod.quoted "{'b':[null,null,null],'c':1e+21}")))
  /\ JSON.stringify JUndefined 0 = Normal None
  /\ JSON.stringify
       (JObject [(text "a", JNumber JS.Zero);
                 (text "b",
                  JArray [JNull;
                          JThrowing
                            (TypeError "Do not know how to serialize a BigInt")]);
                 (text "c", JThrowing (Thrown "not reached"))]) 2
     = Throw (TypeError "Do not know how to serialize a BigInt").
Proof. repeat split. Qed.

(** A gap argument above ten counts as ten. *)
Example gapOf_capped : gapOf 12 = text "          ".
Proof. reflexivity. Qed.

(** Control characters, the quote and the backslash are escaped; a
    surrogate on its own is escaped, a pair of surrogates is written as
    it is; any other code unit is written as it is. *)
Example QuoteJSONString_escapes :
  QuoteJSONString
    [codeUnit "009"; codeUnit dquote; codeUnit "001"; codeUnit "z";
     Unit16 "216" "061"; Unit16 "222" "000";
     Unit16 "220" "000"; Unit16 "032" "040"; codeUnit "127"]
  = codeUnit dquote
      :: text "\t" ++ codeUnit backslash :: codeUnit dquote
      :: text "\u0001z"
      ++ Unit16 "216" "061" :: Unit16 "222" "000"
      :: text "\udc00" ++ Unit16 "032" "040" :: codeUnit "127"
      :: [codeUnit dquote].
Proof. reflexivity. Qed.

(** The reader refuses a leading zero, a fraction without digits and
    trailing text, and skips whitespace between tokens. *)
Example parse_rejects_leading_zero : JSON.parse (text "01") = None.
Proof. reflexivity. Qed.

Example parse_rejects_bare_point : JSON.parse (text "1.") = None.
Proof. reflexivity. Qed.

Example parse_rejects_trailing_text : JSON.parse (text "[1] 2") = None.
Proof. reflexivity. Qed.

Example parse_skips_whitespace :
  JSON.parse (text " [ 1 , -2.5e+3 ,
 [ ] ] ")
  = Some (TArray [TNumber (text "1"); TNumber (text "-2.5e+3"); TArray []]).
Proof. reflexivity. Qed.

End TextFacts.
(* ===================================================================== *)
(** * Facts about the adapter, for any library and any world *)
(* ===================================================================== *)

Section AdapterFacts.

Variables (Value Extra Schema World : Type).
Variable z : zod.Namespace Value Extra Schema.

Local Abbreviation ZodIssue := (zod.ZodIssue Value Extra).
Local Abbreviation Issue := (Engine.Issue Value Extra).
Local Abbreviation GhiiEngine := (Engine.GhiiEngine Value Extra World).
Local Abbreviation SchemaArgument :=
  (Engine.SchemaArgument Value Extra Schema World).

Lemma toIssue_returns (issue : ZodIssue) (e : Issue) :
  toIssue issue = Normal e <-> Translates issue e.
Proof.
  unfold toIssue, Translates. split.
  - destruct (JS.join "." (zod.path issue)) as [p|x]; simpl; intros E;
      inversion E; subst; simpl; auto.
  - destruct e as [p i d m r]; simpl. intros (Hp & Hi & Hd & Hm & Hr).
    rewrite Hp. simpl. now subst.
Qed.

(** [issues.map (toIssue)] returns exactly when every issue translates, and
    then gives the translations one for one, in the order of the issues. *)
Lemma array_map_toIssue (issues : list ZodIssue) (errors : list Issue) :
  JS.array_map (@toIssue Value Extra) issues = Normal errors
  <-> Forall2 Translates issues errors.
Proof.
  revert errors; induction issues as [|issue issues IH]; intros errors.
  - simpl. split.
    + intros E; inversion E; constructor.
    + intros H; inversion H; reflexivity.
  - simpl. split.
    + destruct (toIssue issue) as [e|x] eqn:Ei; simpl; [|discriminate].
      destruct (JS.array_map (@toIssue Value Extra) issues) as [es|x] eqn:Es;
        simpl; [|discriminate].
      intros E; inversion E; subst. constructor.
      * now apply toIssue_returns.
      * now apply IH.
    + intros H; inversion H as [|? e ? es He Hes]; subst.
      apply toIssue_returns in He. rewrite He. simpl.
      apply IH in Hes. rewrite Hes. reflexivity.
Qed.

Lemma join_from_throws (sep : string) (keys : list PropertyKey) :
  forall (R : string) (k : nat) (e : Exception),
    join_from sep R k keys = Throw e -> exists msg, e = TypeError msg.
Proof.
  induction keys as [|key keys IH]; intros R k e E; simpl in E.
  - discriminate.
  - destruct key; simpl in E; try (eapply IH; eassumption).
    inversion E. eexists; reflexivity.
Qed.

Lemma toIssue_throws (issue : ZodIssue) (e : Exception) :
  toIssue issue = Throw e -> exists msg, e = TypeError msg.
Proof.
  unfold toIssue, JS.join.
  destruct (join_from "." "" 0 (zod.path issue)) as [p|x] eqn:Ej; simpl;
    intros E; inversion E; subst.
  eapply join_from_throws; eassumption.
Qed.

(** An issue with a Symbol on its path makes the whole map throw. *)
Lemma array_map_toIssue_symbol (issues : list ZodIssue) :
  Exists zod.hasSymbol issues ->
  exists msg,
    JS.array_map (@toIssue Value Extra) issues = Throw (TypeError msg).
Proof.
  induction issues as [|issue issues IH]; intros H; inversion H; subst.
  - simpl. unfold toIssue at 1.
    destruct (join_from_symbol "." "" 0 ltac:(eassumption)) as [msg E].
    unfold JS.join. rewrite E. simpl. now exists msg.
  - simpl. destruct (toIssue issue) as [e|x] eqn:Ei; simpl.
    + destruct (IH ltac:(assumption)) as [msg E]. rewrite E. simpl.
      now exists msg.
    + destruct (toIssue_throws _ Ei) as [msg ->]. now exists msg.
Qed.

(** Neither method touches the world. *)
Lemma validateWith_world (_schema : Schema) (toValidate : Value) (w : World) :
  snd (validateWith z _schema toValidate w) = w.
Proof.
  unfold validateWith, bindM, pure, ret.
  destruct (zod.safeParse z _schema toValidate) as [[data|error]|e];
    simpl; try reflexivity.
  destruct (JS.array_map _ _); reflexivity.
Qed.

Lemma toJsonSchemaWith_world (_schema : Schema) (pretty : option bool)
  (w : World) :
  snd (toJsonSchemaWith z _schema pretty w) = w.
Proof.
  unfold toJsonSchemaWith, bindM, pure, ret.
  destruct (zod.toJSONSchema z _schema); reflexivity.
Qed.

(** [toJsonSchema] is the converter and then [JSON.stringify]. *)
Lemma toJsonSchemaWith_stringify (_schema : Schema) (pretty : option bool)
  (w : World) :
  toJsonSchemaWith z _schema pretty w
  = ((document <- zod.toJSONSchema z _schema ;;
      JSON.stringifyObject document
        (match pretty with Some true => 2 | _ => 0 end))%completion, w).
Proof.
  unfold toJsonSchemaWith, bindM, pure.
  destruct (zod.toJSONSchema z _schema); destruct pretty as [[|]|];
    reflexivity.
Qed.

(** Nor does their outcome depend on it. *)
Lemma validateWith_outcome (_schema : Schema) (toValidate : Value)
  (w w' : World) :
  fst (validateWith z _schema toValidate w)
  = fst (validateWith z _schema toValidate w').
Proof.
  unfold validateWith, bindM, pure, ret.
  destruct (zod.safeParse z _schema toValidate) as [[data|error]|e];
    simpl; try reflexivity.
  destruct (JS.array_map _ _); reflexivity.
Qed.

Lemma toJsonSchemaWith_outcome (_schema : Schema) (pretty : option bool)
  (w w' : World) :
  fst (toJsonSchemaWith z _schema pretty w)
  = fst (toJsonSchemaWith z _schema pretty w').
Proof. now rewrite !toJsonSchemaWith_stringify. Qed.

Lemma call_world (_schema : Schema) (c : Call Value) (w : World) :
  snd (call (retaining z _schema) c w) = w.
Proof.
  destruct c as [toValidate|pretty]; simpl.
  - pose proof (validateWith_world _schema toValidate w) as H.
    destruct (validateWith z _schema toValidate w); exact H.
  - pose proof (toJsonSchemaWith_world _schema pretty w) as H.
    destruct (toJsonSchemaWith z _schema pretty w); exact H.
Qed.

(** Any number of calls, in any order, leave the world as it was. *)
Lemma calls_world (_schema : Schema) (cs : list (Call Value)) :
  forall w : World, snd (calls (retaining z _schema) cs w) = w.
Proof.
  induction cs as [|c cs IH]; intros w; simpl.
  - reflexivity.
  - pose proof (call_world _schema c w) as Hc.
    destruct (call (retaining z _schema) c w) as [r w1]. simpl in Hc. subst w1.
    pose proof (IH w) as Hcs.
    destruct (calls (retaining z _schema) cs w) as [rs w2]. exact Hcs.
Qed.

(** [toJsonSchema()] is [toJsonSchema(false)], whether the converter
    returns or throws. *)
Lemma toJsonSchema_default_flag (_schema : Schema) (w : World) :
  toJsonSchema (retaining z _schema) None w
  = toJsonSchema (retaining z _schema) (Some false) w.
Proof. reflexivity. Qed.

(** What the converter throws, [toJsonSchema] throws. *)
Lemma toJsonSchema_converter_throws (_schema : Schema)
  (pretty : option bool) (e : Exception) (w : World) :
  zod.toJSONSchema z _schema = Throw e ->
  toJsonSchema (retaining z _schema) pretty w = (Throw e, w).
Proof.
  intros E. simpl. unfold toJsonSchemaWith, bindM, pure. now rewrite E.
Qed.

(** What the constructor does, case by case. *)
Lemma zodEngine_not_callable (schema : Schema) (w : World) :
  zodEngine z (NotCallable schema) w = (Normal (retaining z schema), w).
Proof. reflexivity. Qed.

Lemma zodEngine_callable
  (schema : ZodSchemaFactory Value Extra Schema World) (w : World) :
  zodEngine z (Callable schema) w
  = match schema z w with
    | (Normal _schema, w') => (Normal (retaining z _schema), w')
    | (Throw e, w') => (Throw e, w')
    end.
Proof.
  unfold zodEngine, bindM. destruct (schema z w) as [[s|e] w']; reflexivity.
Qed.

(** Every adapter the constructor returns is the one retaining the schema
    of its argument. *)
Lemma zodEngine_returns (schema : SchemaArgument) (w0 w1 : World)
  (engine : GhiiEngine) :
  zodEngine z schema w0 = (Normal engine, w1) ->
  exists _schema,
    retained z schema w0 = Normal _schema /\ engine = retaining z _schema.
Proof.
  destruct schema as [factory|s].
  - rewrite zodEngine_callable. simpl.
    destruct (factory z w0) as [[s|e] w'] eqn:Ef; intros E; inversion E.
    exists s. split; reflexivity.
  - rewrite zodEngine_not_callable. intros E; inversion E.
    exists s. split; reflexivity.
Qed.

Lemma validate_accepted (_schema : Schema) (toValidate data : Value)
  (w : World) :
  zod.safeParse z _schema toValidate = Normal (zod.SafeParseSuccess data) ->
  validate (retaining z _schema) toValidate w = (Normal (Success data), w).
Proof.
  intros E. simpl. unfold validateWith, bindM, pure. now rewrite E.
Qed.

Lemma validate_rejected (_schema : Schema) (toValidate : Value)
  (error : zod.ZodError Value Extra) (w : World) :
  zod.safeParse z _schema toValidate = Normal (zod.SafeParseError error) ->
  validate (retaining z _schema) toValidate w
  = (match JS.array_map (@toIssue Value Extra) (zod.issues error) with
     | Normal errors => Normal (Failure errors)
     | Throw e => Throw e
     end, w).
Proof.
  intros E. simpl. unfold validateWith, bindM, pure. rewrite E.
  destruct (JS.array_map _ _); reflexivity.
Qed.

Lemma validate_library_throws (_schema : Schema) (toValidate : Value)
  (e : Exception) (w : World) :
  zod.safeParse z _schema toValidate = Throw e ->
  validate (retaining z _schema) toValidate w = (Throw e, w).
Proof.
  intros E. simpl. unfold validateWith, bindM, pure. now rewrite E.
Qed.

(** On a rejected candidate whose issue paths hold no Symbol, [validate]
    returns the failure outcome with the issues translated one for one. *)
Lemma validate_rejected_translates (_schema : Schema) (toValidate : Value)
  (error : zod.ZodError Value Extra) (w : World) :
  zod.safeParse z _schema toValidate = Normal (zod.SafeParseError error) ->
  Forall zod.symbolFree (zod.issues error) ->
  exists errors,
    validate (retaining z _schema) toValidate w = (Normal (Failure errors), w)
    /\ Forall2 Translates (zod.issues error) errors.
Proof.
  intros E H. rewrite (validate_rejected _ _ w E).
  assert (Hm : exists errors,
             JS.array_map (@toIssue Value Extra) (zod.issues error)
             = Normal errors).
  { induction H as [|issue issues Hi _ IH].
    - exists []. reflexivity.
    - destruct IH as [es Es]. simpl. rewrite Es.
      unfold toIssue at 1, JS.join.
      destruct (join_from_no_symbol "." "" 0 Hi) as [p Ep].
      rewrite Ep. simpl. eexists; reflexivity. }
  destruct Hm as [errors Em]. exists errors. rewrite Em. split.
  - reflexivity.
  - now apply array_map_toIssue.
Qed.

End AdapterFacts.


(* ===================================================================== *)
(** * Facts about the adapter over a library that acts on the world *)
(* ===================================================================== *)

Section EffectfulFacts.

Variables (Value Extra Schema World : Type).
Variable z : Effectful.Namespace Value Extra Schema World.

Local Abbreviation GhiiEngine := (Engine.GhiiEngine Value Extra World).

Lemma effectful_zodEngine_returns
  (schema : Effectful.SchemaArgument Value Extra Schema World)
  (w0 w1 : World) (engine : GhiiEngine) :
  Effectful.zodEngine z schema w0 = (Normal engine, w1) ->
  exists _schema,
    Effectful.retained z schema w0 = Normal _schema
    /\ engine = Effectful.retaining z _schema.
Proof.
  unfold Effectful.zodEngine, bindM, ret.
  destruct schema as [factory|s]; simpl.
  - destruct (factory z w0) as [[s|e] w'] eqn:Ef; intros E; inversion E.
    exists s. split; reflexivity.
  - intros E; inversion E. exists s. split; reflexivity.
Qed.

(** [validate] is the call of [safeParse], its answer translated: the
    world afterwards is the one the library leaves. *)
Lemma effectful_validate (_schema : Schema) (toValidate : Value) (w : World) :
  validate (Effectful.retaining z _schema) toValidate w
  = (Effectful.translate (fst (Effectful.safeParse z _schema toValidate w)),
     snd (Effectful.safeParse z _schema toValidate w)).
Proof.
  simpl. unfold Effectful.validateWith, Effectful.translate, bindM, pure, ret.
  destruct (Effectful.safeParse z _schema toValidate w)
    as [[[data|error]|e] w']; simpl; try reflexivity.
  destruct (JS.array_map _ _); reflexivity.
Qed.

(** [toJsonSchema] is the call of the converter, its answer written. *)
Lemma effectful_toJsonSchema (_schema : Schema) (pretty : option bool)
  (w : World) :
  toJsonSchema (Effectful.retaining z _schema) pretty w
  = (Effectful.rendered pretty (fst (Effectful.toJSONSchema z _schema w)),
     snd (Effectful.toJSONSchema z _schema w)).
Proof.
  simpl. unfold Effectful.toJsonSchemaWith, Effectful.rendered, bindM, pure.
  destruct (Effectful.toJSONSchema z _schema w) as [[document|e] w'];
    destruct pretty as [[|]|]; reflexivity.
Qed.

End EffectfulFacts.

(** Over a library that leaves the world alone, the two embeddings of the
    adapter are the same object. *)
Lemma effectful_still (Value Extra Schema World : Type)
  (z : zod.Namespace Value Extra Schema) (_schema : Schema) :
  Effectful.retaining (Effectful.still World z) _schema
  = Engine.retaining z _schema.
Proof. reflexivity. Qed.
(* ===================================================================== *)
(** * The claims of the specification *)
(* ===================================================================== *)

Section Claims.

Variables (Value Extra Schema World : Type).
Variable z : zod.Namespace Value Extra Schema.

Lemma symbolFree_or_hasSymbol (issues : list (zod.ZodIssue Value Extra)) :
  Forall zod.symbolFree issues \/ Exists zod.hasSymbol issues.
Proof.
  induction issues as [|issue issues [IH|IH]].
  - left. constructor.
  - assert (H : zod.symbolFree issue \/ zod.hasSymbol issue).
    { unfold zod.symbolFree, zod.hasSymbol.
      induction (zod.path issue) as [|key keys [IHk|IHk]].
      - left. constructor.
      - destruct (isSymbol key) eqn:E.
        + right. now left.
        + left. now constructor.
      - right. now right. }
    destruct H as [H|H].
    + left. now constructor.
    + right. now left.
  - right. now right.
Qed.

(** C1.  What [validate] does with a candidate the schema rejects.  When no
    reported path holds a Symbol, it returns the failure outcome whose
    [errors] are the library's issues translated one for one and in order:
    [path] the join of the segments with a dot, [input], [details] (the
    code), [message], and the issue itself under [_raw].  When some
    reported path holds a Symbol, [issue.path.join] throws a TypeError and
    [validate] returns no outcome at all. *)
Theorem C1_rejected_candidate_outcome
  (_schema : Schema) (toValidate : Value)
  (error : zod.ZodError Value Extra) (w : World) :
  zod.safeParse z _schema toValidate = Normal (zod.SafeParseError error) ->
  (Forall zod.symbolFree (zod.issues error)
   /\ exists errors,
        validate (retaining z _schema) toValidate w
        = (Normal (Failure errors), w)
        /\ Forall2 Translates (zod.issues error) errors
        /\ List.length errors = List.length (zod.issues error))
  \/
  (Exists zod.hasSymbol (zod.issues error)
   /\ exists msg,
        validate (retaining z _schema) toValidate w
        = (Throw (TypeError msg), w)).
Proof.
  intros E. destruct (symbolFree_or_hasSymbol (zod.issues error)) as [H|H].
  - left. split; [exact H|].
    destruct (validate_rejected_translates z _ _ w E H) as (errors & Ev & Ht).
    exists errors. repeat split; try assumption.
    symmetry. eapply Forall2_length; eassumption.
  - right. split; [exact H|].
    rewrite (validate_rejected z _ _ w E).
    destruct (array_map_toIssue_symbol H) as [msg Em].
    exists msg. now rewrite Em.
Qed.

(** C2.  [validate] reaches the library through [safeParse] only: two
    namespaces that agree on [safeParse] give the same [validate], whatever
    their throwing [parse] does.  Yet a candidate that fails validation
    makes [validate] throw exactly when one of the reported paths holds a
    Symbol. *)
Theorem C2_rejected_candidate_throws_iff_symbol
  (z' : zod.Namespace Value Extra Schema)
  (_schema : Schema) (toValidate : Value)
  (error : zod.ZodError Value Extra) (w : World) :
  zod.safeParse z' = zod.safeParse z ->
  zod.safeParse z _schema toValidate = Normal (zod.SafeParseError error) ->
  validate (retaining z' _schema) toValidate w
  = validate (retaining z _schema) toValidate w
  /\ (JS.returns (fst (validate (retaining z _schema) toValidate w)) = false
      <-> Exists zod.hasSymbol (zod.issues error)).
Proof.
  intros Ez E. split.
  - simpl. unfold validateWith. now rewrite Ez.
  - rewrite (validate_rejected z _ _ w E). simpl. split.
    + intros Hr.
      destruct (symbolFree_or_hasSymbol (zod.issues error)) as [H|H];
        [|exact H].
      destruct (validate_rejected_translates z _ _ w E H) as (errors & Ev & _).
      rewrite (validate_rejected z _ _ w E) in Ev.
      inversion Ev as [Eq].
      destruct (JS.array_map _ _); [discriminate Hr | discriminate Eq].
    + intros H. destruct (array_map_toIssue_symbol H) as [msg Em].
      now rewrite Em.
Qed.

(** C3.  For a candidate the retained schema accepts, [validate] returns
    the success outcome whose [value] is the very [data] of the library's
    parse result, defaults and coercions included. *)
Theorem C3_accepted_candidate_value
  (schema : SchemaArgument Value Extra Schema World) (w0 w1 : World)
  (engine : GhiiEngine Value Extra World)
  (_schema : Schema) (toValidate data : Value) (w : World) :
  zodEngine z schema w0 = (Normal engine, w1) ->
  retained z schema w0 = Normal _schema ->
  zod.safeParse z _schema toValidate = Normal (zod.SafeParseSuccess data) ->
  validate engine toValidate w = (Normal (Success data), w).
Proof.
  intros Ee Er Ep.
  destruct (zodEngine_returns z _ _ Ee) as (s & Es & ->).
  rewrite Er in Es. inversion Es; subst s.
  now apply validate_accepted.
Qed.

(** C4.  When [validate] returns a failure outcome, the library rejected
    the candidate, and the issues of the outcome stand one for one, in
    order, for the issues the library reported: each holds the reported
    issue under [_raw], and has as [path] the texts of the reported path
    segments joined with a dot.  A string segment is its own text, an
    array index is its decimal numeral, any other number is written as
    [Number::toString] writes it; an empty segment list gives the empty
    string.  The segments are the library's; the string is the
    adapter's. *)
Theorem C4_issue_path_is_dotted_join
  (schema : SchemaArgument Value Extra Schema World) (w0 w1 : World)
  (engine : GhiiEngine Value Extra World) (_schema : Schema)
  (toValidate : Value) (w w' : World)
  (errors : list (Issue Value Extra)) :
  zodEngine z schema w0 = (Normal engine, w1) ->
  retained z schema w0 = Normal _schema ->
  validate engine toValidate w = (Normal (Failure errors), w') ->
  exists error,
    zod.safeParse z _schema toValidate = Normal (zod.SafeParseError error)
    /\ Forall2
         (fun reported issue =>
            _raw issue = reported
            /\ (exists texts,
                   Forall2 SegmentText (zod.path reported) texts
                   /\ path issue = String.concat "." texts)
            /\ (zod.path reported = [] -> path issue = ""))
         (zod.issues error) errors.
Proof.
  intros Ee Er Ev.
  destruct (zodEngine_returns z _ _ Ee) as (s & Es & ->).
  rewrite Er in Es. inversion Es; subst s.
  simpl in Ev. unfold validateWith, bindM, pure, ret in Ev.
  destruct (zod.safeParse z _schema toValidate) as [[data|error]|e];
    try discriminate.
  exists error. split; [reflexivity|].
  destruct (JS.array_map (@toIssue Value Extra) (zod.issues error))
    as [es|e] eqn:Em; inversion Ev; subst.
  apply array_map_toIssue in Em.
  eapply Forall2_impl; [|exact Em].
  intros reported issue (Hj & _ & _ & _ & Hr). split; [exact Hr|]. split.
  - destruct (join_returns _ _ Hj) as (texts & Ht & Ep). now exists texts.
  - intros En. rewrite En in Hj. inversion Hj. reflexivity.
Qed.

(** C6.  Given a callable, the constructor runs it on the namespace and
    does nothing else to the world: it retains the schema returned, or
    throws what the factory threw.  Given anything else, it retains the
    argument and leaves the world alone.  No call of [validate] or
    [toJsonSchema] changes the world afterwards.  So a factory that counts
    its invocations has counted exactly one after the construction, and
    still exactly one after any calls on the engine. *)
Theorem C6_factory_runs_exactly_once :
  (forall (schema : ZodSchemaFactory Value Extra Schema World) (w : World),
      zodEngine z (Callable schema) w
      = match schema z w with
        | (Normal _schema, w') => (Normal (retaining z _schema), w')
        | (Throw e, w') => (Throw e, w')
        end)
  /\ (forall (schema : Schema) (w : World),
         zodEngine z (NotCallable schema) w
         = (Normal (retaining z schema), w))
  /\ (forall (_schema : Schema) (cs : list (Call Value)) (w : World),
         snd (calls (retaining z _schema) cs w) = w)
  /\ (forall (schema : ZodSchemaFactory Value Extra Schema World)
        (n : nat) (w : World),
         match zodEngine z (Callable (counted schema)) (n, w) with
         | (Normal engine, nw) =>
             fst nw = S n
             /\ forall cs, fst (snd (calls engine cs nw)) = S n
         | (Throw _, nw) => fst nw = S n
         end).
Proof.
  split; [|split; [|split]].
  - intros schema w. apply zodEngine_callable.
  - intros schema w. apply zodEngine_not_callable.
  - intros _schema cs w. apply calls_world.
  - intros schema n w. rewrite zodEngine_callable.
    unfold counted. simpl.
    destruct (schema z w) as [[s|e] w']; simpl.
    + split; [reflexivity|]. intros cs. now rewrite calls_world.
    + reflexivity.
Qed.

(** C7, as the code has it.  Given a value that is not callable, the
    constructor checks nothing: whatever the value, it returns an adapter
    retaining it and leaves the world alone.  When the value is unusable
    as a schema, the failure surfaces later, at the first [validate] or
    [toJsonSchema]: each throws, uncaught, the very exception the
    library's [safeParse] or its converter throws on that value. *)
Theorem C7_unusable_schema_fails_at_first_use
  (schema : Schema) (w : World)
  (toValidate : Value) (pretty : option bool) (w' : World) :
  zodEngine z (NotCallable schema) w = (Normal (retaining z schema), w)
  /\ (unusable z schema ->
      exists thrownByParse thrownByConverter,
        zod.safeParse z schema toValidate = Throw thrownByParse
        /\ validate (retaining z schema) toValidate w'
           = (Throw thrownByParse, w')
        /\ zod.toJSONSchema z schema = Throw thrownByConverter
        /\ toJsonSchema (retaining z schema) pretty w'
           = (Throw thrownByConverter, w')).
Proof.
  split; [reflexivity|]. intros [Hp [e He]].
  destruct (Hp toValidate) as [e' He']. exists e', e.
  split; [exact He'|]. split; [now apply validate_library_throws|].
  split; [exact He|]. now apply toJsonSchema_converter_throws.
Qed.

(** C8.  An adapter built from a factory and an adapter built from the
    schema that factory returned answer alike: the same outcome of
    [validate] on the same candidate, the same text of [toJsonSchema] for
    the same flag. *)
Theorem C8_factory_and_direct_schema_agree
  (factory : ZodSchemaFactory Value Extra Schema World)
  (w w' w0 : World) (_schema : Schema)
  (toValidate : Value) (pretty : option bool) (w1 : World) :
  factory z w = (Normal _schema, w') ->
  exists viaFactory direct,
    zodEngine z (Callable factory) w = (Normal viaFactory, w')
    /\ zodEngine z (NotCallable _schema) w0 = (Normal direct, w0)
    /\ validate viaFactory toValidate w1 = validate direct toValidate w1
    /\ toJsonSchema viaFactory pretty w1 = toJsonSchema direct pretty w1.
Proof.
  intros Ef. exists (retaining z _schema), (retaining z _schema).
  rewrite zodEngine_callable, Ef, zodEngine_not_callable.
  repeat split.
Qed.

End Claims.

Section EffectfulClaims.

Variables (Value Extra Schema World : Type).
Variable z : Effectful.Namespace Value Extra Schema World.

(** C5, as the code has it.  At any state of the world,
    [toJsonSchema()] does what [toJsonSchema(false)] does.  The result of
    a call is made of the flag and of what the converter answers at that
    call, and the world afterwards is the one the converter leaves: the
    adapter keeps and adds nothing, so where the answer of the converter
    does not depend on the world, neither does the result.  When the
    converter yields a document that [JSON.stringify] can write, the
    result with the flag off is the document written with no gap, which
    holds no whitespace outside its string literals; the result with the
    flag on is the document laid out by depth: every member and every
    element on a line of its own, two spaces deeper than the bracket that
    opens it, a member as its name, a colon, a space and its value, each
    closing bracket on a line of its own.  The pretty text is the compact
    one once its whitespace outside string literals is dropped, and both
    texts denote the same tree.  When the document holds a value
    [JSON.stringify] throws on, [toJsonSchema] throws the same, whatever
    the flag. *)
Theorem C5_toJsonSchema_compact_and_pretty
  (schema : Effectful.SchemaArgument Value Extra Schema World)
  (w0 w1 : World) (engine : GhiiEngine Value Extra World)
  (_schema : Schema) :
  Effectful.zodEngine z schema w0 = (Normal engine, w1) ->
  Effectful.retained z schema w0 = Normal _schema ->
  (forall w : World,
      toJsonSchema engine None w = toJsonSchema engine (Some false) w)
  /\ (forall (flag : option bool) (w : World),
        toJsonSchema engine flag w
        = (Effectful.rendered flag
             (fst (Effectful.toJSONSchema z _schema w)),
           snd (Effectful.toJSONSchema z _schema w)))
  /\ ((forall w w' : World,
         fst (Effectful.toJSONSchema z _schema w)
         = fst (Effectful.toJSONSchema z _schema w')) ->
      forall (flag : option bool) (w w' : World),
        fst (toJsonSchema engine flag w) = fst (toJsonSchema engine flag w'))
  /\ (forall (w w' : World) (document : JSON.Document),
        Effectful.toJSONSchema z _schema w = (Normal document, w') ->
        JSON.thrownBy (JObject document) = None ->
        let compact := JSON.writeObject document 0 in
        let pretty := JSON.writeObject document 2 in
        toJsonSchema engine None w = (Normal compact, w')
        /\ toJsonSchema engine (Some false) w = (Normal compact, w')
        /\ toJsonSchema engine (Some true) w = (Normal pretty, w')
        /\ JSON.minify false false compact = compact
        /\ JSON.minify false false pretty = compact
        /\ pretty = JSON.indented 0 (JObject document)
        /\ JSON.parse compact = Some (JSON.tree (JObject document))
        /\ JSON.parse pretty = Some (JSON.tree (JObject document)))
  /\ (forall (w w' : World) (document : JSON.Document) (e : Exception),
        Effectful.toJSONSchema z _schema w = (Normal document, w') ->
        JSON.thrownBy (JObject document) = Some e ->
        forall flag : option bool,
          toJsonSchema engine flag w = (Throw e, w')).
Proof.
  intros Ee Er.
  destruct (effectful_zodEngine_returns z _ _ Ee) as (s & Es & ->).
  rewrite Er in Es. inversion Es; subst s.
  split; [reflexivity|].
  split; [intros flag w; apply effectful_toJsonSchema|].
  split.
  { intros Hs flag w w'. rewrite !effectful_toJsonSchema. cbn [fst].
    f_equal. apply Hs. }
  split.
  - intros w w' document Ed Et compact pretty.
    assert (Hr : forall flag,
               toJsonSchema (Effectful.retaining z _schema) flag w
               = (Normal (JSON.writeObject document
                            (match flag with Some true => 2 | _ => 0 end)),
                  w')).
    { intros flag. rewrite effectful_toJsonSchema, Ed. cbn [fst snd].
      unfold Effectful.rendered. cbn [JS.bind].
      unfold JSON.stringifyObject. now rewrite Et. }
    split; [apply (Hr None)|].
    split; [apply (Hr (Some false))|].
    split; [apply (Hr (Some true))|].
    split.
    { pose proof (@minify_Serialize (JObject document) [] [] []
                    eq_refl eq_refl) as H.
      now rewrite !List.app_nil_r in H. }
    split.
    { pose proof (@minify_Serialize (JObject document) (JSON.text "  ") [] []
                    eq_refl eq_refl) as H.
      now rewrite !List.app_nil_r in H. }
    split.
    { unfold pretty, JSON.writeObject.
      rewrite SerializeJSONObject_elementText.
      apply (elementText_indented (JObject document) 0). }
    split; apply parse_writeObject.
  - intros w w' document e Ed Et flag.
    rewrite effectful_toJsonSchema, Ed. cbn [fst snd].
    unfold Effectful.rendered. cbn [JS.bind].
    unfold JSON.stringifyObject. now rewrite Et.
Qed.

(** C9, as the code has it.  [validate] has no state of its own: a call
    is the call of the library's [safeParse] on the retained schema and
    the candidate, its answer translated, and it leaves the world as the
    library leaves it.  So where the answer of [safeParse] for a schema
    and a candidate does not depend on the world, two calls of [validate]
    with that candidate return the same outcome, whatever calls of
    [validate] and [toJsonSchema] came before the first and between the
    two. *)
Theorem C9_validate_adds_no_state
  (schema : Effectful.SchemaArgument Value Extra Schema World)
  (w0 w1 : World) (engine : GhiiEngine Value Extra World)
  (_schema : Schema) (toValidate : Value) :
  Effectful.zodEngine z schema w0 = (Normal engine, w1) ->
  Effectful.retained z schema w0 = Normal _schema ->
  (forall w : World,
      validate engine toValidate w
      = (Effectful.translate
           (fst (Effectful.safeParse z _schema toValidate w)),
         snd (Effectful.safeParse z _schema toValidate w)))
  /\ (Effectful.settled z _schema toValidate ->
      forall (before between : list (Call Value)) (w : World),
        let first :=
          validate engine toValidate (snd (calls engine before w)) in
        let second :=
          validate engine toValidate
            (snd (calls engine between (snd first))) in
        fst second = fst first).
Proof.
  intros Ee Er.
  destruct (effectful_zodEngine_returns z _ _ Ee) as (s & Es & ->).
  rewrite Er in Es. inversion Es; subst s.
  split; [intros w; apply effectful_validate|].
  intros Hs before between w. cbv zeta.
  rewrite !effectful_validate. cbn [fst snd]. f_equal. apply Hs.
Qed.

End EffectfulClaims.

(** C10.  The dotted path does not tell the segments apart: the single
    segment [a.b] and the two segments [a], [b] join to the same string,
    and one candidate can draw two issues with different segment lists and
    the same [path]. *)
Theorem C10_dotted_path_is_ambiguous :
  [KeyString "a.b"] <> [KeyString "a"; KeyString "b"]
  /\ JS.join "." [KeyString "a.b"] = Normal "a.b"
  /\ JS.join "." [KeyString "a"; KeyString "b"] = Normal "a.b"
  /\ exists first second,
       fst (validate (retaining (MiniZod.z false) MiniZod.dottedSchema)
              MiniZod.dottedCandidate 0%nat)
       = Normal (Failure [first; second])
       /\ path first = path second
       /\ zod.path (_raw first) <> zod.path (_raw second).
Proof.
  split; [discriminate|]. split; [reflexivity|]. split; [reflexivity|].
  eexists; eexists. split; [reflexivity|].
  split; [reflexivity | discriminate].
Qed.

(* ===================================================================== *)
(** * The claims at concrete inputs *)
(* ===================================================================== *)

(** C1 at a map keyed by a Symbol whose entry is out of range: the library
    reports one issue, under the path [[Symbol(alice)]]; [validate]
    throws. *)
Lemma C1_witness_symbol_keyed_map :
  exists msg,
    validate (retaining (MiniZod.z false) MiniZod.ages)
      MiniZod.agesBySymbol 0%nat
    = (Throw (TypeError msg), 0%nat).
Proof.
  destruct (@C1_rejected_candidate_outcome _ _ _ nat (MiniZod.z false)
              MiniZod.ages MiniZod.agesBySymbol _ 0%nat eq_refl)
    as [[H _]|[_ H]].
  - exfalso. inversion H as [|? ? Hp _]. inversion Hp as [|? ? Hk _].
    discriminate Hk.
  - exact H.
Defined.

(** C2 at a record with a Symbol key: rejected, and [validate] does not
    return. *)
Lemma C2_witness_record_with_symbol_key :
  JS.returns
    (fst (validate (retaining (MiniZod.z false) MiniZod.limits)
            MiniZod.limitsWithSymbol 0%nat)) = false.
Proof.
  apply (proj2 (@C2_rejected_candidate_throws_iff_symbol _ _ _ nat
                  (MiniZod.z false) MiniZod.zParseThrows MiniZod.limits
                  MiniZod.limitsWithSymbol _ 0%nat eq_refl eq_refl)).
  right. left. left. reflexivity.
Defined.

(** C3 at a schema with a default: the value is the library's output, not
    the candidate. *)
Lemma C3_witness_default_filled_in :
  validate (retaining (MiniZod.z false) MiniZod.appSchema)
    MiniZod.emptyObject 7%nat
  = (Normal (Success
               (MiniZod.VObject
                  [(KeyString "name", MiniZod.VString "my-app")])), 7%nat).
Proof.
  apply (@C3_accepted_candidate_value _ _ _ nat (MiniZod.z false)
           (NotCallable MiniZod.appSchema) 0%nat 0%nat
           _ MiniZod.appSchema); reflexivity.
Defined.

(** C4 at the nested settings of the tests: the library reports one
    issue, under [settings], [1], [value]; its path is
    [settings.1.value]. *)
Lemma C4_witness_settings_1_value :
  exists error errors,
    validate (retaining (MiniZod.z false) MiniZod.settingsSchema)
      MiniZod.settingsCandidate 0%nat
    = (Normal (Failure errors), 0%nat)
    /\ map (@path _ _) errors = ["settings.1.value"]
    /\ zod.safeParse (MiniZod.z false) MiniZod.settingsSchema
         MiniZod.settingsCandidate
       = Normal (zod.SafeParseError error)
    /\ map (@zod.path _ _) (zod.issues error)
       = [[KeyString "settings"; KeyNumber 1; KeyString "value"]]
    /\ Forall2
         (fun reported issue =>
            _raw issue = reported
            /\ (exists texts,
                   Forall2 SegmentText (zod.path reported) texts
                   /\ path issue = String.concat "." texts)
            /\ (zod.path reported = [] -> path issue = ""))
         (zod.issues error) errors.
Proof.
  destruct (@C4_issue_path_is_dotted_join _ _ _ nat (MiniZod.z false)
              (NotCallable MiniZod.settingsSchema) 0%nat 0%nat
              _ MiniZod.settingsSchema MiniZod.settingsCandidate
              0%nat 0%nat _ eq_refl eq_refl eq_refl)
    as (error & Ep & H).
  exists error. eexists. split; [reflexivity|]. split; [reflexivity|].
  split; [exact Ep|]. split; [|exact H].
  inversion Ep. reflexivity.
Defined.

(** C5 at the user schema, built by its factory. *)
Lemma C5_witness_user_schema :
  let z := MiniZod.zWithCallbacks in
  let _schema := MiniZod.Plain MiniZod.userSchema in
  let engine := Effectful.retaining z _schema in
  let document := MiniZod.dialect :: MiniZod.jsonSchemaOf MiniZod.userSchema in
  let compact := JSON.writeObject document 0 in
  let pretty := JSON.writeObject document 2 in
  (forall (flag : option bool) (w w' : nat),
      fst (toJsonSchema engine flag w) = fst (toJsonSchema engine flag w'))
  /\ toJsonSchema engine None 1%nat = (Normal compact, 1%nat)
  /\ toJsonSchema engine (Some false) 1%nat = (Normal compact, 1%nat)
  /\ toJsonSchema engine (Some true) 1%nat = (Normal pretty, 1%nat)
  /\ JSON.minify false false compact = compact
  /\ JSON.minify false false pretty = compact
  /\ pretty = JSON.indented 0 (JObject document)
  /\ JSON.parse compact = Some (JSON.tree (JObject document))
  /\ JSON.parse pretty = Some (JSON.tree (JObject document)).
Proof.
  destruct (@C5_toJsonSchema_compact_and_pretty _ _ _ nat
              MiniZod.zWithCallbacks
              (Effectful.Callable
                 (fun _ calls =>
                    (Normal (MiniZod.Plain MiniZod.userSchema), S calls)))
              0%nat 1%nat _ (MiniZod.Plain MiniZod.userSchema)
              eq_refl eq_refl) as (_ & _ & Hs & Hd & _).
  split; [exact (Hs (fun w w' => eq_refl))|].
  exact (Hd 1%nat 1%nat _ eq_refl eq_refl).
Defined.

(** C5 at a schema whose default is drawn from a counter,
    [z.number().default(() => counter++)]: the claim as written fails,
    since [toJsonSchema()] and then [toJsonSchema(false)] on one adapter
    return different texts, and so do two calls with the same flag. *)
Lemma C5_counterexample_default_from_counter :
  let engine :=
    Effectful.retaining MiniZod.zWithCallbacks MiniZod.NumberDefaultNextId in
  let first := toJsonSchema engine None 0%nat in
  let second := toJsonSchema engine (Some false) (snd first) in
  let third := toJsonSchema engine (Some false) (snd second) in
  Effectful.zodEngine MiniZod.zWithCallbacks
    (Effectful.NotCallable MiniZod.NumberDefaultNextId) 0%nat
  = (Normal engine, 0%nat)
  /\ fst first
     = Normal
         (JSON.text
            (MiniZod.quoted
               "{'$schema':'https://json-schema.org/draft/2020-12/schema','type':'number','default':0}"))
  /\ fst second
     = Normal
         (JSON.text
            (MiniZod.quoted
               "{'$schema':'https://json-schema.org/draft/2020-12/schema','type':'number','default':1}"))
  /\ fst second <> fst first
  /\ fst third <> fst second.
Proof.
  cbv zeta. split; [reflexivity|]. split; [reflexivity|].
  split; [reflexivity|]. split; intros E; vm_compute in E; discriminate E.
Qed.

(** C7 at the number 42: the claim as written fails, since 42 is unusable
    as a schema and the constructor returns an adapter all the same. *)
Lemma C7_counterexample_constructor_accepts_42 :
  unusable (MiniZod.z false) MiniZod.fortyTwo
  /\ zodEngine (MiniZod.z false) (NotCallable MiniZod.fortyTwo) 0%nat
     = (Normal (retaining (MiniZod.z false) MiniZod.fortyTwo), 0%nat)
  /\ ~ (exists e w',
          zodEngine (MiniZod.z false) (NotCallable MiniZod.fortyTwo) 0%nat
          = (@Throw (GhiiEngine MiniZod.JsValue MiniZod.Extra nat) e, w')).
Proof.
  split; [|split].
  - split; [intros v|]; eexists; reflexivity.
  - reflexivity.
  - intros (e & w' & E). discriminate E.
Qed.

(** C7 at the number 42 again: what the first use throws is the
    library's own exception. *)
Lemma C7_witness_42_fails_at_first_use :
  zodEngine (MiniZod.z false) (NotCallable MiniZod.fortyTwo) 0%nat
  = (Normal (retaining (MiniZod.z false) MiniZod.fortyTwo), 0%nat)
  /\ exists thrownByParse thrownByConverter,
       zod.safeParse (MiniZod.z false) MiniZod.fortyTwo MiniZod.john
       = Throw thrownByParse
       /\ validate (retaining (MiniZod.z false) MiniZod.fortyTwo)
            MiniZod.john 0%nat = (Throw thrownByParse, 0%nat)
       /\ zod.toJSONSchema (MiniZod.z false) MiniZod.fortyTwo
          = Throw thrownByConverter
       /\ toJsonSchema (retaining (MiniZod.z false) MiniZod.fortyTwo)
            None 0%nat = (Throw thrownByConverter, 0%nat).
Proof.
  destruct (@C7_unusable_schema_fails_at_first_use _ _ _ nat
              (MiniZod.z false) MiniZod.fortyTwo 0%nat MiniZod.john None
              0%nat) as [Hc Hu].
  split; [exact Hc|]. apply Hu.
  split; [intros v|]; eexists; reflexivity.
Defined.

(** C8 at the user schema and its factory. *)
Lemma C8_witness_user_schema :
  exists viaFactory direct,
    zodEngine (MiniZod.z false) (Callable MiniZod.userSchemaFactory) 0%nat
    = (Normal viaFactory, 1%nat)
    /\ zodEngine (MiniZod.z false) (NotCallable MiniZod.userSchema) 0%nat
       = (Normal direct, 0%nat)
    /\ validate viaFactory MiniZod.nobody 1%nat
       = validate direct MiniZod.nobody 1%nat
    /\ toJsonSchema viaFactory (Some true) 1%nat
       = toJsonSchema direct (Some true) 1%nat.
Proof.
  apply (@C8_factory_and_direct_schema_agree _ _ _ nat (MiniZod.z false)
           MiniZod.userSchemaFactory 0%nat 1%nat 0%nat MiniZod.userSchema
           MiniZod.nobody (Some true) 1%nat).
  reflexivity.
Defined.

(** C9 at the user schema, with other calls before and in between. *)
Lemma C9_witness_user_schema :
  let z := MiniZod.zWithCallbacks in
  let _schema := MiniZod.Plain MiniZod.userSchema in
  let engine := Effectful.retaining z _schema in
  (forall w : nat,
      validate engine MiniZod.nobody w
      = (Effectful.translate
           (fst (Effectful.safeParse z _schema MiniZod.nobody w)),
         snd (Effectful.safeParse z _schema MiniZod.nobody w)))
  /\ (let first :=
        validate engine MiniZod.nobody
          (snd (calls engine [CallValidate MiniZod.john] 1%nat)) in
      let second :=
        validate engine MiniZod.nobody
          (snd (calls engine
                  [CallToJsonSchema (Some true); CallValidate MiniZod.john;
                   CallValidate MiniZod.nobody]
                  (snd first))) in
      fst second = fst first).
Proof.
  destruct (@C9_validate_adds_no_state _ _ _ nat MiniZod.zWithCallbacks
              (Effectful.NotCallable (MiniZod.Plain MiniZod.userSchema))
              0%nat 0%nat _ (MiniZod.Plain MiniZod.userSchema)
              MiniZod.nobody eq_refl eq_refl) as [Hv Hs].
  split; [exact Hv|].
  apply (Hs (fun w w' => eq_refl) [CallValidate MiniZod.john]
           [CallToJsonSchema (Some true); CallValidate MiniZod.john;
            CallValidate MiniZod.nobody] 1%nat).
Defined.

(** C9 at a schema whose default is drawn from a counter,
    [z.number().default(() => counter++)]: the claim as written fails,
    since two calls of [validate] with the same candidate, [undefined],
    one right after the other, return different outcomes. *)
Lemma C9_counterexample_default_from_counter :
  let engine :=
    Effectful.retaining MiniZod.zWithCallbacks MiniZod.NumberDefaultNextId in
  let first := validate engine MiniZod.VUndefined 0%nat in
  let second := validate engine MiniZod.VUndefined (snd first) in
  Effectful.zodEngine MiniZod.zWithCallbacks
    (Effectful.NotCallable MiniZod.NumberDefaultNextId) 0%nat
  = (Normal engine, 0%nat)
  /\ fst first = Normal (Success (MiniZod.VNumber 0))
  /\ fst second = Normal (Success (MiniZod.VNumber 1))
  /\ fst second <> fst first.
Proof.
  cbv zeta. split; [reflexivity|]. split; [reflexivity|].
  split; [reflexivity|]. intros E. discriminate E.
Qed.

(* ===================================================================== *)
(** * The scenarios of the specification *)
(* ===================================================================== *)

(** [{ name: "John", age: 30 }] is accepted and returned as it is. *)
Example scenario_john_accepted :
  fst (validate (retaining (MiniZod.z false) MiniZod.userSchema)
         MiniZod.john 0%nat)
  = Normal (Success MiniZod.john).
Proof. reflexivity. Qed.

(** [{ name: "", age: -5 }] is rejected with two issues, at [name] and at
    [age], in that order. *)
Example scenario_nobody_rejected :
  exists errors,
    fst (validate (retaining (MiniZod.z false) MiniZod.userSchema)
           MiniZod.nobody 0%nat)
    = Normal (Failure errors)
    /\ map (@path _ _) errors = ["name"; "age"]
    /\ map (@details _ _) errors = ["too_small"; "too_small"].
Proof. eexists. repeat split. Qed.

(** An adapter built from a factory that throws: the exception comes out
    of the constructor. *)
Example scenario_factory_throws :
  zodEngine (MiniZod.z false) (Callable MiniZod.failingFactory) 0%nat
  = (Throw (Thrown "factory failed"), 1%nat).
Proof. reflexivity. Qed.

(** A schema the converter cannot represent: [toJsonSchema] throws what
    the converter throws, while [validate] works. *)
Example scenario_unrepresentable_schema :
  toJsonSchema (retaining (MiniZod.z false) MiniZod.ages) (Some true) 0%nat
  = (Throw (Thrown "Map cannot be represented in JSON Schema"), 0%nat)
  /\ validate (retaining (MiniZod.z false) MiniZod.ages)
       (MiniZod.VMap [(KeySymbol "alice", MiniZod.VNumber 20)]) 0%nat
     = (Normal (Success
                  (MiniZod.VMap [(KeySymbol "alice", MiniZod.VNumber 20)])),
        0%nat).
Proof. split; reflexivity. Qed.

(** The counting factory has run once after the construction, and still
    once after three calls on the engine. *)
Example scenario_factory_called_once :
  snd (zodEngine (MiniZod.z false) (Callable MiniZod.userSchemaFactory) 0%nat)
  = 1%nat
  /\ snd (calls (retaining (MiniZod.z false) MiniZod.userSchema)
            [CallValidate MiniZod.john; CallToJsonSchema None;
             CallValidate MiniZod.nobody] 1%nat)
     = 1%nat.
Proof. split; reflexivity. Qed.


(** A map with the keys 1.5 and -1 whose values are rejected: the paths
    are the numbers as [Number::toString] writes them. *)
Example scenario_numeric_map_keys :
  exists errors,
    fst (validate (retaining (MiniZod.z false) MiniZod.names)
           MiniZod.namesByNumber 0%nat)
    = Normal (Failure errors)
    /\ map (@path _ _) errors = ["1.5"; "-1"]
    /\ map (fun e => zod.path (_raw e)) errors
       = [[KeyFloat MiniZod.onePointFive]; [KeyFloat MiniZod.minusOne]].
Proof. eexists. repeat split. Qed.

(** The key 1.5 of a map and the index 5 under the index 1 give the same
    path. *)
Example scenario_number_with_a_point :
  JS.join "." [KeyFloat MiniZod.onePointFive] = Normal "1.5"
  /\ JS.join "." [KeyNumber 1; KeyNumber 5] = Normal "1.5".
Proof. split; reflexivity. Qed.

(** The text of the user schema, compact and pretty. *)
Example scenario_user_schema_compact :
  fst (toJsonSchema (retaining (MiniZod.z false) MiniZod.userSchema)
         None 0%nat)
  = Normal
      (JSON.text
         (MiniZod.quoted
            "{'$schema':'https://json-schema.org/draft/2020-12/schema','type':'object','properties':{'name':{'type':'string','minLength':1},'age':{'type':'number','minimum':0,'maximum':150}},'required':['name','age'],'additionalProperties':false}")).
Proof. reflexivity. Qed.

Example scenario_user_schema_pretty :
  fst (toJsonSchema (retaining (MiniZod.z false) MiniZod.userSchema)
         (Some true) 0%nat)
  = Normal
      (JSON.text
         (MiniZod.quoted
            "{
  '$schema': 'https://json-schema.org/draft/2020-12/schema',
  'type': 'object',
  'properties': {
    'name': {
      'type': 'string',
      'minLength': 1
    },
    'age': {
      'type': 'number',
      'minimum': 0,
      'maximum': 150
    }
  },
  'required': [
    'name',
    'age'
  ],
  'additionalProperties': false
}")).
Proof. reflexivity. Qed.

(** Over a library that leaves the world alone, the adapter over a
    library that may act on it answers as the adapter above. *)
Example scenario_still_library :
  validate (Effectful.retaining (Effectful.still nat (MiniZod.z false))
              MiniZod.userSchema) MiniZod.nobody 0%nat
  = validate (retaining (MiniZod.z false) MiniZod.userSchema)
      MiniZod.nobody 0%nat.
Proof. reflexivity. Qed.
(* ===================================================================== *)
(** * Further properties of the adapter *)
(* ===================================================================== *)

Section Outcomes.

Variables (Value Extra Schema World : Type).
Variable z : zod.Namespace Value Extra Schema.

(** The one thing [join] throws. *)
Lemma join_from_throws_symbol (sep : string) (keys : list PropertyKey) :
  forall (R : string) (k : nat) (e : Exception),
    join_from sep R k keys = Throw e ->
    e = TypeError "Cannot convert a Symbol value to a string"
    /\ Exists (fun key => isSymbol key = true) keys.
Proof.
  induction keys as [|key keys IH]; intros R k e E; simpl in E.
  - discriminate.
  - destruct key; simpl in E.
    + destruct (IH _ _ _ E) as [He Hs]. split; [exact He | now right].
    + destruct (IH _ _ _ E) as [He Hs]. split; [exact He | now right].
    + inversion E. split; [reflexivity | now left].
    + destruct (IH _ _ _ E) as [He Hs]. split; [exact He | now right].
Qed.

Lemma array_map_toIssue_throws (issues : list (zod.ZodIssue Value Extra))
  (e : Exception) :
  JS.array_map (@toIssue Value Extra) issues = Throw e ->
  e = TypeError "Cannot convert a Symbol value to a string"
  /\ Exists zod.hasSymbol issues.
Proof.
  induction issues as [|issue issues IH]; simpl; intros E.
  - discriminate.
  - destruct (toIssue issue) as [t|x] eqn:Et; simpl in E.
    + destruct (JS.array_map (@toIssue Value Extra) issues) as [ts|y];
        simpl in E; [discriminate|].
      inversion E; subst y. destruct (IH eq_refl) as [He Hs].
      split; [exact He | now right].
    + inversion E; subst x. unfold toIssue, JS.join in Et.
      destruct (join_from "." "" 0 (zod.path issue)) as [p|y] eqn:Ej;
        simpl in Et; [discriminate|].
      inversion Et; subst y.
      destruct (join_from_throws_symbol _ _ _ _ Ej) as [He Hs].
      split; [exact He | now left].
Qed.

Lemma Translates_raw (issues : list (zod.ZodIssue Value Extra))
  (errors : list (Issue Value Extra)) :
  Forall2 Translates issues errors ->
  map (@_raw Value Extra) errors = issues
  /\ Forall zod.symbolFree issues.
Proof.
  induction 1 as [|issue e issues errors (Hj & _ & _ & _ & Hr) _ [IHr IHs]].
  - split; [reflexivity | constructor].
  - split.
    + simpl. now rewrite Hr, IHr.
    + constructor; [|exact IHs].
      destruct (join_returns _ _ Hj) as (texts & Ht & _).
      unfold zod.symbolFree. clear - Ht.
      induction Ht as [|key text keys texts Hk _ IH]; constructor.
      * now destruct Hk.
      * exact IH.
Qed.

(** X1.  [validate] reports success only when the library did, and with
    the library's data: a success outcome never comes from the adapter
    itself. *)
Theorem X1_success_comes_from_the_library
  (_schema : Schema) (toValidate value : Value) (w w' : World) :
  validate (retaining z _schema) toValidate w = (Normal (Success value), w') ->
  zod.safeParse z _schema toValidate = Normal (zod.SafeParseSuccess value)
  /\ w' = w.
Proof.
  simpl. unfold validateWith, bindM, pure, ret.
  destruct (zod.safeParse z _schema toValidate) as [[data|error]|e].
  - intros E; inversion E. split; reflexivity.
  - destruct (JS.array_map _ _); intros E; discriminate E.
  - intros E; discriminate E.
Qed.

(** X2.  When [validate] returns a failure outcome, the library rejected
    the candidate, and reading [_raw] off the errors gives back exactly
    the library's issues, in their order: none invented, none dropped;
    and no path among them holds a Symbol. *)
Theorem X2_failure_gives_back_the_issues
  (_schema : Schema) (toValidate : Value)
  (errors : list (Issue Value Extra)) (w w' : World) :
  validate (retaining z _schema) toValidate w = (Normal (Failure errors), w') ->
  exists error,
    zod.safeParse z _schema toValidate = Normal (zod.SafeParseError error)
    /\ map (@_raw Value Extra) errors = zod.issues error
    /\ Forall zod.symbolFree (zod.issues error)
    /\ w' = w.
Proof.
  simpl. unfold validateWith, bindM, pure, ret.
  destruct (zod.safeParse z _schema toValidate) as [[data|error]|e].
  - intros E; discriminate E.
  - destruct (JS.array_map (@toIssue Value Extra) (zod.issues error))
      as [es|x] eqn:Em; intros E; inversion E; subst.
    apply array_map_toIssue in Em. destruct (Translates_raw Em) as [Hr Hs].
    exists error. repeat split; assumption.
  - intros E; discriminate E.
Qed.

(** X3.  [validate] throws in two cases only: the library's [safeParse]
    threw, and then the same exception comes out; or the library rejected
    the candidate with a Symbol on some path, and then the TypeError of the
    conversion comes out.  The world is left as it was. *)
Theorem X3_what_validate_throws
  (_schema : Schema) (toValidate : Value) (e : Exception) (w w' : World) :
  validate (retaining z _schema) toValidate w = (Throw e, w') ->
  w' = w
  /\ (zod.safeParse z _schema toValidate = Throw e
      \/ exists error,
           zod.safeParse z _schema toValidate
           = Normal (zod.SafeParseError error)
           /\ Exists zod.hasSymbol (zod.issues error)
           /\ e = TypeError "Cannot convert a Symbol value to a string").
Proof.
  simpl. unfold validateWith, bindM, pure, ret.
  destruct (zod.safeParse z _schema toValidate) as [[data|error]|x].
  - intros E; discriminate E.
  - destruct (JS.array_map (@toIssue Value Extra) (zod.issues error))
      as [es|y] eqn:Em; intros E; inversion E; subst.
    destruct (array_map_toIssue_throws _ Em) as [He Hs].
    split; [reflexivity|]. right. exists error. repeat split; assumption.
  - intros E; inversion E; subst. split; [reflexivity | now left].
Qed.

End Outcomes.

(* ===================================================================== *)
(** ** What the dotted path tells, and what it does not *)
(* ===================================================================== *)

Section Paths.

Variables (Value Extra : Type).

Lemma SegmentText_functional (key : PropertyKey) (t1 t2 : string) :
  SegmentText key t1 -> SegmentText key t2 -> t1 = t2.
Proof. intros H1 H2. destruct H1; inversion H2; reflexivity. Qed.

Lemma SegmentTexts_functional (keys : list PropertyKey) :
  forall l1 l2 : list string,
    Forall2 SegmentText keys l1 -> Forall2 SegmentText keys l2 -> l1 = l2.
Proof.
  induction keys as [|key keys IH]; intros l1 l2 H1 H2;
    inversion H1; inversion H2; subst.
  - reflexivity.
  - f_equal; [eapply SegmentText_functional; eassumption | now apply IH].
Qed.

Lemma SegmentTexts_nonempty (keys : list PropertyKey)
  (texts : list string) :
  Forall2 SegmentText keys texts -> keys <> [] -> texts <> [].
Proof. intros H N E. subst. inversion H. now subst. Qed.

Lemma hasDot_app (a b : string) : hasDot (a ++ b) = hasDot a || hasDot b.
Proof.
  induction a as [|c a IH]; simpl; [reflexivity|].
  now rewrite IH, orb_assoc.
Qed.

Lemma hasDot_digits (d : Decimal.uint) :
  hasDot (NilEmpty.string_of_uint d) = false.
Proof. induction d; simpl; auto. Qed.

(** The numeral of an index holds no dot. *)
Lemma hasDot_NumberToString (n : N) : hasDot (JS.NumberToString n) = false.
Proof. rewrite NumberToString_digits. apply hasDot_digits. Qed.

Lemma dotFree_index (n : N) : dotFree (KeyNumber n) = true.
Proof. simpl. now rewrite hasDot_NumberToString. Qed.

Lemma dotFree_text (key : PropertyKey) (text : string) :
  SegmentText key text -> dotFree key = true -> hasDot text = false.
Proof.
  intros [s|n|x]; simpl; intros H; now apply negb_true_iff.
Qed.

Lemma dotFree_texts (keys : list PropertyKey) (texts : list string) :
  Forall2 SegmentText keys texts ->
  forallb dotFree keys = true ->
  Forall (fun t => hasDot t = false) texts.
Proof.
  induction 1 as [|key text keys texts Hk _ IH]; simpl; intros H.
  - constructor.
  - apply andb_true_iff in H as [Hd Hr]. constructor.
    + eapply dotFree_text; eassumption.
    + now apply IH.
Qed.

(** Two texts without a dot, each followed by a dot, split the same
    way. *)
Lemma dot_split (a : string) :
  forall b r1 r2 : string,
    hasDot a = false -> hasDot b = false ->
    a ++ "." ++ r1 = b ++ "." ++ r2 -> a = b /\ r1 = r2.
Proof.
  induction a as [|c a IH]; intros [|d b] r1 r2 Ha Hb E; simpl in *.
  - inversion E. split; reflexivity.
  - inversion E; subst d. discriminate Hb.
  - inversion E; subst c. discriminate Ha.
  - inversion E; subst d.
    apply orb_false_iff in Ha as [_ Ha]. apply orb_false_iff in Hb as [_ Hb].
    destruct (IH b r1 r2 Ha Hb ltac:(assumption)) as [-> ->].
    split; reflexivity.
Qed.

Lemma concat_dot_injective (l1 : list string) :
  forall l2 : list string,
    l1 <> [] -> l2 <> [] ->
    Forall (fun t => hasDot t = false) l1 ->
    Forall (fun t => hasDot t = false) l2 ->
    String.concat "." l1 = String.concat "." l2 -> l1 = l2.
Proof.
  induction l1 as [|a t1 IH]; intros [|b t2] N1 N2 H1 H2 E;
    try contradiction.
  inversion H1 as [|? ? Ha Ht1]; inversion H2 as [|? ? Hb Ht2]; subst.
  destruct t1 as [|a2 t1], t2 as [|b2 t2].
  - simpl in E. now subst.
  - rewrite concat_two in E. simpl String.concat in E at 1. exfalso.
    rewrite E, hasDot_app in Ha. simpl in Ha.
    now rewrite orb_true_r in Ha.
  - rewrite concat_two in E. simpl String.concat in E at 2. exfalso.
    rewrite <- E, hasDot_app in Hb. simpl in Hb.
    now rewrite orb_true_r in Hb.
  - rewrite !concat_two in E.
    destruct (dot_split _ _ _ _ Ha Hb E) as [-> Er].
    f_equal. apply IH; try assumption; discriminate.
Qed.

(** The concatenation is empty for no text and for the one empty text
    only. *)
Lemma concat_dot_empty (texts : list string) :
  String.concat "." texts = "" <-> texts = [] \/ texts = [""].
Proof.
  split.
  - destruct texts as [|a [|b l]]; intros E.
    + now left.
    + right. simpl in E. now subst.
    + rewrite concat_two in E. destruct a; discriminate E.
  - intros [->| ->]; reflexivity.
Qed.

Lemma concat_app (sep : string) (l1 l2 : list string) :
  l1 <> [] -> l2 <> [] ->
  String.concat sep (l1 ++ l2)%list
  = String.concat sep l1 ++ sep ++ String.concat sep l2.
Proof.
  intros N1 N2. induction l1 as [|a l1 IH]; [contradiction|].
  destruct l1 as [|b l1].
  - destruct l2 as [|c l2]; [contradiction|]. reflexivity.
  - change ((a :: b :: l1) ++ l2)%list with (a :: b :: (l1 ++ l2)%list).
    rewrite !concat_two.
    change (b :: (l1 ++ l2)%list) with ((b :: l1) ++ l2)%list.
    rewrite IH by discriminate. now rewrite !append_assoc.
Qed.

Local Abbreviation ZodIssue := (zod.ZodIssue Value Extra).
Local Abbreviation Issue := (Engine.Issue Value Extra).

Lemma toIssue_texts (issue : ZodIssue) (e : Issue) :
  toIssue issue = Normal e ->
  exists texts,
    Forall2 SegmentText (zod.path issue) texts
    /\ path e = String.concat "." texts.
Proof.
  intros E. apply toIssue_returns in E. destruct E as (Hj & _).
  destruct (join_returns _ _ Hj) as (texts & Ht & Ep). now exists texts.
Qed.

(** X4.  The [path] of an issue is the empty string in two cases only:
    the library's path is empty (the root), or it is the single key that
    is the empty string.  So an empty [path] alone does not say that the
    failure is at the root. *)
Theorem X4_empty_path_root_or_empty_key (issue : ZodIssue) (e : Issue) :
  toIssue issue = Normal e ->
  (path e = "" <->
   zod.path issue = [] \/ zod.path issue = [KeyString ""]).
Proof.
  intros E. destruct (toIssue_texts _ E) as (texts & Ht & ->).
  rewrite concat_dot_empty. split.
  - intros [->| ->].
    + inversion Ht. now left.
    + inversion Ht as [|key ? keys ? Hk Hks]; subst. inversion Hks; subst.
      right. inversion Hk as [s Es|n En|x Ex]; subst.
      * reflexivity.
      * exfalso. eapply NumberToString_nonempty. eassumption.
      * exfalso. eapply Number_toString_nonempty. eassumption.
  - intros [En|En]; rewrite En in Ht.
    + inversion Ht. now left.
    + inversion Ht as [|? ? ? ? Hk Hks]; subst. inversion Hks; subst.
      inversion Hk; subst. now right.
Qed.

(** X5.  Paths compose: when the library's path of an issue is an outer
    path followed by an inner one, neither empty, the [path] of the issue
    is the [path] of the outer one, a dot, and the [path] of the inner
    one. *)
Theorem X5_nested_path_is_outer_dot_inner
  (outer inner nested : ZodIssue) (eo ei : Issue) :
  zod.path nested = (zod.path outer ++ zod.path inner)%list ->
  zod.path outer <> [] -> zod.path inner <> [] ->
  toIssue outer = Normal eo ->
  toIssue inner = Normal ei ->
  exists en,
    toIssue nested = Normal en
    /\ path en = path eo ++ "." ++ path ei
    /\ _raw en = nested.
Proof.
  intros En No Ni Eo Ei.
  destruct (toIssue_texts _ Eo) as (to & Hto & Epo).
  destruct (toIssue_texts _ Ei) as (ti & Hti & Epi).
  assert (Hj : JS.join "." (zod.path nested)
               = Normal (path eo ++ "." ++ path ei)).
  { rewrite En, (join_texts "." (Forall2_app Hto Hti)), Epo, Epi.
    f_equal.
    apply concat_app; eapply SegmentTexts_nonempty; eassumption. }
  unfold toIssue. rewrite Hj. simpl. eexists. repeat split.
Qed.

(** X6.  Where no segment has a dot in its text -- no string key holds
    one, no number is written with a point -- the [path] does tell the
    segments: two issues with non-empty library paths and equal [path]
    have the same segment texts, one for one. *)
Theorem X6_dot_free_paths_are_told_apart
  (issue1 issue2 : ZodIssue) (e1 e2 : Issue) :
  toIssue issue1 = Normal e1 ->
  toIssue issue2 = Normal e2 ->
  zod.path issue1 <> [] -> zod.path issue2 <> [] ->
  forallb dotFree (zod.path issue1) = true ->
  forallb dotFree (zod.path issue2) = true ->
  path e1 = path e2 ->
  exists texts,
    Forall2 SegmentText (zod.path issue1) texts
    /\ Forall2 SegmentText (zod.path issue2) texts.
Proof.
  intros E1 E2 N1 N2 D1 D2 Ep.
  destruct (toIssue_texts _ E1) as (t1 & H1 & P1).
  destruct (toIssue_texts _ E2) as (t2 & H2 & P2).
  assert (Et : t1 = t2).
  { apply concat_dot_injective.
    - eapply SegmentTexts_nonempty; eassumption.
    - eapply SegmentTexts_nonempty; eassumption.
    - eapply dotFree_texts; eassumption.
    - eapply dotFree_texts; eassumption.
    - now rewrite <- P1, <- P2. }
  subst t2. now exists t1.
Qed.

(** X7.  An array index and the object key spelled with the same digits
    give the same [path], wherever they stand: the [path] does not tell a
    position in an array from a property of that name. *)
Theorem X7_index_and_digit_key_collide
  (issue1 issue2 : ZodIssue) (e1 : Issue)
  (before after : list PropertyKey) (n : N) :
  zod.path issue1 = (before ++ KeyNumber n :: after)%list ->
  zod.path issue2
  = (before ++ KeyString (JS.NumberToString n) :: after)%list ->
  toIssue issue1 = Normal e1 ->
  exists e2,
    toIssue issue2 = Normal e2
    /\ path e2 = path e1
    /\ zod.path (_raw e2) <> zod.path (_raw e1).
Proof.
  intros P1 P2 E1.
  destruct (toIssue_texts _ E1) as (texts & Ht & Ep).
  rewrite P1 in Ht.
  apply Forall2_app_inv_l in Ht as (tb & ta & Hb & Ha & ->).
  inversion Ha as [|? t ? ta' Hk Hta]; subst.
  inversion Hk; subst.
  assert (Ht2 : Forall2 SegmentText (zod.path issue2)
                  (tb ++ JS.NumberToString n :: ta')%list).
  { rewrite P2. apply Forall2_app; [exact Hb|].
    constructor; [constructor | exact Hta]. }
  unfold toIssue. rewrite (join_texts "." Ht2). simpl.
  eexists. split; [reflexivity|]. simpl. split; [now rewrite Ep|].
  apply toIssue_returns in E1. destruct E1 as (_ & _ & _ & _ & ->).
  rewrite P1, P2. intros E. apply app_inv_head in E. discriminate E.
Qed.

End Paths.

(* ===================================================================== *)
(** ** The text of [toJsonSchema] *)
(* ===================================================================== *)

Section Texts.

Import JSON.

Local Open Scope list_scope.

Lemma forallb_concat (P : CodeUnit -> bool) (sep : Text) (l : list Text) :
  forallb P sep = true ->
  Forall (fun s => forallb P s = true) l ->
  forallb P (JSON.concat sep l) = true.
Proof.
  intros Hsep H. induction H as [|a l Ha _ IH]; [reflexivity|].
  destruct l as [|b l]; [exact Ha|].
  rewrite concat_pair, !forallb_app. cbv beta in *. rewrite Ha, Hsep.
  exact IH.
Qed.

Lemma notControl_high (u : CodeUnit) :
  Ascii.eqb (high u) zero = false -> notControl u = true.
Proof. intros H. unfold notControl. now rewrite (@isControl_high _ H). Qed.

Lemma notControl_QuoteUnit (u : CodeUnit) :
  forallb notControl (QuoteUnit u) = true.
Proof.
  destruct (CodeUnit_cases u) as [[c ->]|H].
  - destruct c as [[] [] [] [] [] [] [] []]; reflexivity.
  - rewrite (@QuoteUnit_high _ H). simpl. now rewrite notControl_high.
Qed.

Lemma notControl_hexByte (c : ascii) : forallb notControl (hexByte c) = true.
Proof. destruct c as [[] [] [] [] [] [] [] []]; reflexivity. Qed.

Lemma notControl_UnicodeEscape (u : CodeUnit) :
  forallb notControl (UnicodeEscape u) = true.
Proof.
  unfold UnicodeEscape.
  change (forallb notControl
            (codeUnit backslash :: codeUnit "u"
               :: hexByte (high u) ++ hexByte (low u)))
    with (forallb notControl (hexByte (high u) ++ hexByte (low u))).
  now rewrite forallb_app, !notControl_hexByte.
Qed.

Lemma notControl_QuoteBody_bounded (n : nat) :
  forall s : Text, length s <= n -> forallb notControl (QuoteBody s) = true.
Proof.
  induction n as [|n IH]; intros s Hn.
  - destruct s; [reflexivity | simpl in Hn; lia].
  - destruct s as [|u s]; [reflexivity|]. simpl in Hn.
    rewrite QuoteBody_cons.
    destruct (isLeadingSurrogate u) eqn:Hl.
    + assert (Hu : Ascii.eqb (high u) zero = false)
        by (apply surrogate_high; now rewrite Hl).
      destruct s as [|v s]; [apply notControl_UnicodeEscape|].
      destruct (isTrailingSurrogate v) eqn:Ht.
      * assert (Hv : Ascii.eqb (high v) zero = false)
          by (apply surrogate_high; rewrite Ht; apply orb_true_r).
        simpl forallb.
        rewrite (notControl_high _ Hu), (notControl_high _ Hv).
        apply IH. simpl in Hn. lia.
      * rewrite forallb_app, notControl_UnicodeEscape. apply IH. lia.
    + destruct (isTrailingSurrogate u).
      * rewrite forallb_app, notControl_UnicodeEscape. apply IH. lia.
      * rewrite forallb_app, notControl_QuoteUnit. apply IH. lia.
Qed.

Lemma notControl_QuoteJSONString (s : Text) :
  forallb notControl (QuoteJSONString s) = true.
Proof.
  unfold QuoteJSONString.
  change (forallb notControl (codeUnit dquote :: ?t))
    with (forallb notControl t).
  now rewrite forallb_app, (@notControl_QuoteBody_bounded (length s)).
Qed.

Lemma notControl_numeral (s : string) :
  allChars numeralChar s = true -> forallb notControl (text s) = true.
Proof.
  induction s as [|c s IH]; simpl; [reflexivity|]. intros H.
  apply andb_true_iff in H as [Hc Hs]. rewrite (IH Hs), andb_true_r.
  destruct c as [[] [] [] [] [] [] [] []]; try discriminate Hc; reflexivity.
Qed.

Section Alphabet.

(** A set of code units that holds every one from U+0020 on. *)
Variable P : CodeUnit -> bool.
Hypothesis notControl_in : forall u, notControl u = true -> P u = true.

Lemma forallb_notControl (s : Text) :
  forallb notControl s = true -> forallb P s = true.
Proof.
  induction s as [|u s IH]; simpl; [reflexivity|]. intros H.
  apply andb_true_iff in H as [Hu Hs].
  now rewrite (notControl_in _ Hu), IH.
Qed.

Lemma forallb_lineBreak (gap indent : Text) :
  (isEmpty gap = false -> P (codeUnit newline) = true) ->
  forallb P indent = true ->
  forallb P (lineBreak gap indent) = true.
Proof.
  unfold lineBreak. intros Hn Hi. destruct (isEmpty gap); [reflexivity|].
  simpl. now rewrite Hn, Hi.
Qed.

Lemma forallb_bracket (opening closing : ascii)
  (gap indent stepback : Text) (partial : list Text) :
  notControl (codeUnit opening) = true ->
  notControl (codeUnit closing) = true ->
  (isEmpty gap = false -> P (codeUnit newline) = true) ->
  forallb P indent = true -> forallb P stepback = true ->
  Forall (fun s => forallb P s = true) partial ->
  forallb P (bracket opening closing gap indent stepback partial) = true.
Proof.
  intros Ho Hc Hn Hi Hs H.
  assert (Hsep : forallb P (codeUnit "," :: lineBreak gap indent) = true).
  { simpl. rewrite (notControl_in (codeUnit ",") eq_refl).
    now apply forallb_lineBreak. }
  rewrite bracket_any. simpl forallb.
  rewrite (notControl_in _ Ho), forallb_app. simpl forallb.
  rewrite (notControl_in _ Hc), !andb_true_r. simpl andb.
  destruct partial as [|p ps]; [reflexivity|].
  rewrite !forallb_app, !forallb_lineBreak by assumption.
  now rewrite (forallb_concat _ _ Hsep H).
Qed.

(** A value written with gap and indentation in the alphabet stays in
    the alphabet, provided the alphabet holds the line feed when the gap
    is not empty. *)
Lemma forallb_elementText (v : Json) :
  forall gap indent : Text,
    forallb P gap = true -> forallb P indent = true ->
    (isEmpty gap = false -> P (codeUnit newline) = true) ->
    forallb P (elementText gap indent v) = true.
Proof.
  induction v as [ | | b | x | s | elements IH | members IH | e ]
    using Json_induction; intros gap indent Hg Hi Hn.
  - now apply forallb_notControl.
  - now apply forallb_notControl.
  - destruct b; now apply forallb_notControl.
  - unfold elementText. simpl SerializeJSONProperty.
    apply forallb_notControl.
    destruct (isFinite x) eqn:Hx; [|reflexivity].
    now apply notControl_numeral, numeralChar_Number_toString.
  - apply forallb_notControl, notControl_QuoteJSONString.
  - rewrite elementText_array.
    assert (Hig : forallb P (indent ++ gap) = true)
      by now rewrite forallb_app, Hi, Hg.
    apply forallb_bracket; try reflexivity; try assumption.
    apply Forall_map. eapply Forall_impl; [|exact IH].
    intros a Ha. now apply Ha.
  - rewrite elementText_object.
    assert (Hig : forallb P (indent ++ gap) = true)
      by now rewrite forallb_app, Hi, Hg.
    apply forallb_bracket; try reflexivity; try assumption.
    apply Forall_map. eapply Forall_impl; [|exact (@Forall_written _ _ IH)].
    intros m Hm. simpl in Hm. unfold member.
    rewrite forallb_app.
    rewrite (forallb_notControl _ (notControl_QuoteJSONString (fst m))).
    change (forallb P (codeUnit ":" :: ?t))
      with (P (codeUnit ":") && forallb P t).
    rewrite (notControl_in (codeUnit ":") eq_refl), forallb_app.
    rewrite (Hm gap (indent ++ gap) Hg Hig Hn), andb_true_r.
    destruct (isEmpty gap); simpl; [reflexivity|].
    now rewrite (notControl_in (codeUnit space) eq_refl).
  - now apply forallb_notControl.
Qed.

End Alphabet.

Variables (Value Extra Schema World : Type).

(** X9.  The text returned with the flag off or absent holds no code
    unit below U+0020: no line feed, no carriage return, no tab, every
    such code unit of a string being escaped.  The text returned with the
    flag on holds none but the line feeds of its layout. *)
Theorem X9_no_code_unit_below_space
  (z : zod.Namespace Value Extra Schema) (_schema : Schema)
  (pretty : option bool) (text : Text) (w w' : World) :
  toJsonSchema (retaining z _schema) pretty w = (Normal text, w') ->
  match pretty with
  | Some true => forallb notControlOrNewline text = true
  | _ => forallb notControl text = true
  end.
Proof.
  simpl. rewrite toJsonSchemaWith_stringify.
  destruct (zod.toJSONSchema z _schema) as [d|e]; [|discriminate].
  cbn [JS.bind]. intros E. inversion E as [[T W]].
  apply stringifyObject_returns in T as [_ ->].
  unfold JSON.writeObject. rewrite SerializeJSONObject_elementText.
  destruct pretty as [[|]|].
  - apply forallb_elementText; try reflexivity.
    intros u Hu. unfold notControlOrNewline. now rewrite Hu.
  - apply forallb_elementText; try reflexivity; [auto | discriminate].
  - apply forallb_elementText; try reflexivity; [auto | discriminate].
Qed.

(** X10.  [toJsonSchema] throws in two cases only: the converter threw,
    and then the same exception comes out; or the converter yielded a
    document holding a value [JSON.stringify] throws on, and then that
    exception comes out.  The world is left as it was. *)
Theorem X10_what_toJsonSchema_throws
  (z : zod.Namespace Value Extra Schema) (_schema : Schema)
  (pretty : option bool) (e : Exception) (w w' : World) :
  toJsonSchema (retaining z _schema) pretty w = (Throw e, w') ->
  w' = w
  /\ (zod.toJSONSchema z _schema = Throw e
      \/ exists document,
           zod.toJSONSchema z _schema = Normal document
           /\ JSON.thrownBy (JObject document) = Some e).
Proof.
  simpl. rewrite toJsonSchemaWith_stringify.
  destruct (zod.toJSONSchema z _schema) as [d|x]; cbn [JS.bind];
    intros E; inversion E as [[T W]]; split; try reflexivity.
  - right. exists d. split; [reflexivity|].
    now apply stringifyObject_throws in T.
  - now left.
Qed.

End Texts.

(* ===================================================================== *)
(** ** The further properties at concrete inputs *)
(* ===================================================================== *)

Lemma X1_witness_john :
  zod.safeParse (MiniZod.z false) MiniZod.userSchema MiniZod.john
  = Normal (zod.SafeParseSuccess MiniZod.john)
  /\ 3%nat = 3%nat.
Proof.
  apply (@X1_success_comes_from_the_library _ _ _ nat (MiniZod.z false)
           MiniZod.userSchema MiniZod.john MiniZod.john 3%nat 3%nat).
  reflexivity.
Defined.

Lemma X2_witness_nobody :
  exists errors,
    validate (retaining (MiniZod.z true) MiniZod.userSchema)
      MiniZod.nobody 3%nat
    = (Normal (Failure errors), 3%nat)
    /\ exists error,
         zod.safeParse (MiniZod.z true) MiniZod.userSchema MiniZod.nobody
         = Normal (zod.SafeParseError error)
         /\ map (@_raw _ _) errors = zod.issues error
         /\ Forall zod.symbolFree (zod.issues error)
         /\ 3%nat = 3%nat.
Proof.
  eexists. split; [reflexivity|].
  apply (@X2_failure_gives_back_the_issues _ _ _ nat (MiniZod.z true)
           MiniZod.userSchema MiniZod.nobody _ 3%nat 3%nat).
  reflexivity.
Defined.

Lemma X3_witness_not_a_schema :
  3%nat = 3%nat
  /\ (zod.safeParse (MiniZod.z false) MiniZod.fortyTwo MiniZod.john
      = Throw (TypeError
                 "Cannot read properties of undefined (reading 'run')")
      \/ exists error,
           zod.safeParse (MiniZod.z false) MiniZod.fortyTwo MiniZod.john
           = Normal (zod.SafeParseError error)
           /\ Exists zod.hasSymbol (zod.issues error)
           /\ TypeError "Cannot read properties of undefined (reading 'run')"
              = TypeError "Cannot convert a Symbol value to a string").
Proof.
  apply (@X3_what_validate_throws _ _ _ nat (MiniZod.z false)
           MiniZod.fortyTwo MiniZod.john _ 3%nat 3%nat).
  reflexivity.
Defined.

Lemma X4_witness_empty_key :
  exists e,
    toIssue MiniZod.emptyKeyIssue = Normal e
    /\ (path e = "" <->
        zod.path MiniZod.emptyKeyIssue = []
        \/ zod.path MiniZod.emptyKeyIssue = [KeyString ""]).
Proof.
  eexists. split; [reflexivity|].
  apply (@X4_empty_path_root_or_empty_key _ _ MiniZod.emptyKeyIssue).
  reflexivity.
Defined.

Lemma X5_witness_settings_1_value :
  exists eo ei en,
    toIssue MiniZod.settingsIssue = Normal eo
    /\ toIssue MiniZod.valueIssue = Normal ei
    /\ toIssue MiniZod.settingsValueIssue = Normal en
    /\ path en = path eo ++ "." ++ path ei
    /\ path en = "settings.1.value".
Proof.
  destruct (@X5_nested_path_is_outer_dot_inner _ _
              MiniZod.settingsIssue MiniZod.valueIssue
              MiniZod.settingsValueIssue _ _
              eq_refl ltac:(discriminate) ltac:(discriminate)
              eq_refl eq_refl) as (en & E & P & _).
  eexists. eexists. exists en.
  split; [reflexivity|]. split; [reflexivity|]. split; [exact E|].
  split; [exact P|]. rewrite P. reflexivity.
Defined.

Lemma X6_witness_tags :
  exists texts,
    Forall2 SegmentText (zod.path MiniZod.tagsIndexIssue) texts
    /\ Forall2 SegmentText (zod.path MiniZod.tagsKeyIssue) texts.
Proof.
  eapply (@X6_dot_free_paths_are_told_apart _ _
            MiniZod.tagsIndexIssue MiniZod.tagsKeyIssue);
    [reflexivity | reflexivity | discriminate | discriminate
    | reflexivity | reflexivity | reflexivity].
Defined.

Lemma X7_witness_tags_0 :
  exists e1 e2,
    toIssue MiniZod.tagsIndexIssue = Normal e1
    /\ toIssue MiniZod.tagsKeyIssue = Normal e2
    /\ path e2 = path e1
    /\ zod.path (_raw e2) <> zod.path (_raw e1).
Proof.
  destruct (@X7_index_and_digit_key_collide _ _
              MiniZod.tagsIndexIssue MiniZod.tagsKeyIssue _
              [KeyString "tags"] [] 0%N eq_refl eq_refl eq_refl)
    as (e2 & E & P & D).
  eexists. exists e2.
  split; [reflexivity|]. split; [exact E|]. split; [exact P | exact D].
Defined.

Lemma X9_witness_user_schema :
  exists text,
    toJsonSchema (retaining (MiniZod.z false) MiniZod.userSchema)
      None 0%nat = (Normal text, 0%nat)
    /\ forallb JSON.notControl text = true.
Proof.
  eexists. split; [reflexivity|].
  apply (@X9_no_code_unit_below_space _ _ _ nat (MiniZod.z false)
           MiniZod.userSchema None _ 0%nat 0%nat).
  reflexivity.
Defined.

Lemma X10_witness_big_int_in_metadata :
  0%nat = 0%nat
  /\ (zod.toJSONSchema (MiniZod.zRegistered MiniZod.bigIntVersion)
        MiniZod.userSchema
      = Throw (TypeError "Do not know how to serialize a BigInt")
      \/ exists document,
           zod.toJSONSchema (MiniZod.zRegistered MiniZod.bigIntVersion)
             MiniZod.userSchema = Normal document
           /\ JSON.thrownBy (JObject document)
              = Some (TypeError "Do not know how to serialize a BigInt")).
Proof.
  apply (@X10_what_toJsonSchema_throws _ _ _ nat
           (MiniZod.zRegistered MiniZod.bigIntVersion) MiniZod.userSchema
           (Some true) _ 0%nat 0%nat).
  reflexivity.
Defined.
